(** * Tic-tac-toe adversarial search: minimax, alpha-beta pruning and
      depth-1 UCB1 Monte Carlo search.

    A shallow embedding of the two notebooks of the repository:
    - the minimax / alpha-beta notebook (board helpers, [result] with its
      illegal-move message, [minimax_search], [alpha_beta_search] and the
      priority-ordered [get_actions]);
    - the Monte Carlo notebook ([playout], [UCT_depth1]).

    Python values are modelled as follows.  A board is a Python list of
    one-character strings: [list string].  An action is a Python integer:
    [Z], with Python's negative indexing written out.  The numbers that flow
    through the searches are the integers -1, 0, 1 and the two floats
    [-math.inf] and [+math.inf]: type [num].  Exceptions are the error side
    of [res].  The global [COUNT] and the state of the random generator are
    threaded by a state-and-exception monad [M].  Recursion and the
    [while True] loop take a fuel argument; running out of it is the
    distinguished error [OutOfFuel], which the termination theorems show is
    never produced with enough fuel.  Output to the console is not modelled,
    except for the message of [result]. *)

From Stdlib Require Import String List ZArith Lia Bool Arith Permutation Sorted.
From Stdlib Require Reals.
Import ListNotations.

Local Open Scope string_scope.
Local Open Scope Z_scope.

(** ** Errors and results *)

Inductive exn : Type :=
| ValueError      (* reshape of a wrong-sized array, max() of an empty list,
                     random choice from an empty list *)
| IndexError      (* list index out of range *)
| OutOfFuel.      (* the model ran out of fuel; no Python counterpart *)

Inductive res (A : Type) : Type :=
| Ok (a : A)
| Raise (e : exn).
Arguments Ok {A} a.
Arguments Raise {A} e.

Definition res_bind {A B} (r : res A) (k : A -> res B) : res B :=
  match r with
  | Ok a => k a
  | Raise e => Raise e
  end.

Definition res_map {A B} (f : A -> B) (r : res A) : res B :=
  res_bind r (fun a => Ok (f a)).

(** ** The board *)

Definition board := list string.

Definition empty_board : board := repeat " " 9.

(** [l[i]] for a Python list and a Python integer: negative indices count
    from the end; anything else out of range raises [IndexError]. *)
Definition py_index {A} (l : list A) (i : Z) : res nat :=
  let len := Z.of_nat (length l) in
  if (0 <=? i) && (i <? len) then Ok (Z.to_nat i)
  else if (- len <=? i) && (i <? 0) then Ok (Z.to_nat (len + i))
  else Raise IndexError.

Definition py_get {A} (d : A) (l : list A) (i : Z) : res A :=
  res_bind (py_index l i) (fun k => Ok (nth k l d)).

Fixpoint list_set {A} (l : list A) (k : nat) (x : A) : list A :=
  match l, k with
  | [], _ => []
  | _ :: t, O => x :: t
  | h :: t, S k' => h :: list_set t k' x
  end.

Definition py_set {A} (l : list A) (i : Z) (x : A) : res (list A) :=
  res_bind (py_index l i) (fun k => Ok (list_set l k x)).

(** [np.array(board).reshape((3,3))]: fails unless there are 9 cells. *)
Definition reshape33 (b : board) : res (list (list string)) :=
  match b with
  | [c0; c1; c2; c3; c4; c5; c6; c7; c8] =>
      Ok [[c0; c1; c2]; [c3; c4; c5]; [c6; c7; c8]]
  | _ => Raise ValueError
  end.

Definition cell (rows : list (list string)) (i j : nat) : string :=
  nth j (nth i rows []) " ".

Definition transpose (rows : list (list string)) : list (list string) :=
  map (fun j => map (fun i => cell rows i j) (seq 0 (length rows)))
      (seq 0 (length rows)).

Definition diagonals (rows : list (list string)) : list (list string) :=
  [ map (fun i => cell rows i i) (seq 0 (length rows));
    map (fun i => cell rows i (length rows - i - 1)) (seq 0 (length rows)) ].

(** [len(set(row)) == 1 and row[0] != ' '] *)
Definition winning_row (row : list string) : bool :=
  match row with
  | [] => false
  | c :: rest => forallb (String.eqb c) rest && negb (String.eqb c " ")
  end.

Definition count_empty (b : board) : nat :=
  length (filter (fun c => String.eqb c " ") b).

(** [check_win]: the first uniform non-blank line in the order rows, columns,
    diagonals; else ["d"] when no cell is blank; else ["n"]. *)
Definition check_win (b : board) : res string :=
  res_bind (reshape33 b) (fun rows =>
    match find winning_row (rows ++ transpose rows ++ diagonals rows) with
    | Some row => Ok (hd " " row)
    | None => if (count_empty b <? 1)%nat then Ok "d" else Ok "n"
    end).

Definition other (player : string) : string :=
  if String.eqb player "x" then "o" else "x".

(** [result] of the minimax notebook: the returned board together with what
    the call prints.  The Monte Carlo notebook's [result] is the same without
    the test and the message. *)
Definition result_out (state : board) (player : string) (action : Z)
  : res (board * list string) :=
  res_bind (py_get " " state action) (fun c =>
    let printed :=
      if negb (String.eqb c " ") then ["Error: Illegal move!"] else [] in
    res_bind (py_set state action player) (fun state' =>
      Ok (state', printed))).

Definition result (state : board) (player : string) (action : Z) : res board :=
  res_map fst (result_out state player action).

(** [utility]: [None] is Python's [None], "not a terminal state". *)
Definition utility (state : board) (player : string) : res (option Z) :=
  res_bind (check_win state) (fun goal =>
    if String.eqb goal player then Ok (Some 1)
    else if String.eqb goal "d" then Ok (Some 0)
    else if String.eqb goal (other player) then Ok (Some (-1))
    else Ok None).

Definition is_terminal (state : board) : res bool :=
  res_map (fun g => negb (String.eqb g "n")) (check_win state).

(** ** Enumerating the actions *)

(** [np.where(np.array(board) == ' ')[0].tolist()] *)
Fixpoint where_empty (b : board) (i : nat) : list Z :=
  match b with
  | [] => []
  | c :: rest =>
      if String.eqb c " " then Z.of_nat i :: where_empty rest (S i)
      else where_empty rest (S i)
  end.

Module Natural.
(** The first [get_actions]: ascending index order. *)
Definition get_actions (b : board) : res (list Z) := Ok (where_empty b 0).
End Natural.

(** [sorted(l, reverse=True)] on (priority, action) tuples: a stable sort
    into descending order, tuples compared lexicographically. *)
Definition tuple_ltb (x y : Z * Z) : bool :=
  (fst x <? fst y) || ((fst x =? fst y) && (snd x <? snd y)).

Fixpoint insert_desc (x : Z * Z) (l : list (Z * Z)) : list (Z * Z) :=
  match l with
  | [] => [x]
  | y :: t => if tuple_ltb y x then x :: y :: t else y :: insert_desc x t
  end.

Definition sorted_reverse (l : list (Z * Z)) : list (Z * Z) :=
  fold_left (fun acc x => insert_desc x acc) l [].

(** [[f(i) for i in l]] where [f] may raise. *)
Fixpoint map_res {A B} (f : A -> res B) (l : list A) : res (list B) :=
  match l with
  | [] => Ok []
  | a :: t => res_bind (f a) (fun b => res_bind (map_res f t) (fun bs => Ok (b :: bs)))
  end.

Module Priority.
Definition priority : list Z := [1; 0; 1; 0; 2; 0; 1; 0; 1].

(** The second [get_actions] (move ordering): centre, corners, edges. *)
Definition get_actions (b : board) : res (list Z) :=
  let actions := where_empty b 0 in
  res_bind (map_res (py_get 0 priority) actions) (fun prio =>
    Ok (map snd (sorted_reverse (combine prio actions)))).
End Priority.

(** ** Numbers of the searches *)

Inductive num : Type :=
| NegInf
| Int (z : Z)
| PosInf.

Definition num_ltb (a b : num) : bool :=
  match a, b with
  | NegInf, NegInf => false
  | NegInf, _ => true
  | Int _, NegInf => false
  | Int x, Int y => x <? y
  | Int _, PosInf => true
  | PosInf, _ => false
  end.

(** [a >= b] *)
Definition num_geb (a b : num) : bool := negb (num_ltb a b).
(** [a <= b] *)
Definition num_leb (a b : num) : bool := negb (num_ltb b a).
(** [max(a, b)] and [min(a, b)] of two arguments: the first one wins ties. *)
Definition num_max (a b : num) : num := if num_ltb a b then b else a.
Definition num_min (a b : num) : num := if num_ltb b a then b else a.

(** ** State and exceptions *)

(** The state is the global [COUNT] (an integer) for the exhaustive searches
    and the position in the stream of random draws for the playouts. *)
Definition M (S A : Type) : Type := S -> res (A * S).

Definition ret {S A} (a : A) : M S A := fun s => Ok (a, s).

Definition bind {S A B} (m : M S A) (k : A -> M S B) : M S B :=
  fun s => match m s with
           | Ok (a, s') => k a s'
           | Raise e => Raise e
           end.

Definition lift {S A} (r : res A) : M S A :=
  fun s => match r with
           | Ok a => Ok (a, s)
           | Raise e => Raise e
           end.

Definition raise {S A} (e : exn) : M S A := fun _ => Raise e.

(** [COUNT += 1] and [COUNT = 0] *)
Definition incr_COUNT : M Z unit := fun c => Ok (tt, c + 1).
Definition reset_COUNT : M Z unit := fun _ => Ok (tt, 0).

Notation "x <- m ;; k" := (bind m (fun x => k))
  (at level 61, m at next level, right associativity).
Notation "m ;;; k" := (bind m (fun _ => k))
  (at level 61, right associativity).

(** ** Minimax and alpha-beta search *)

Record search_result : Type := { move : option Z; value : num }.

Section Engines.

(** The searches call whichever [get_actions] is bound when they run. *)
Variable get_actions : board -> res (list Z).

(** The [for a in get_actions(state)] loop of [max_value]; [child a] is
    [min_value(result(state, player, a), player)]. *)
Fixpoint max_loop (child : Z -> M Z (num * option Z)) (actions : list Z)
    (v : num) (mv : option Z) : M Z (num * option Z) :=
  match actions with
  | [] => ret (v, mv)
  | a :: rest =>
      r <- child a ;;
      let v2 := fst r in
      if num_ltb v v2 then max_loop child rest v2 (Some a)
      else max_loop child rest v mv
  end.

Fixpoint min_loop (child : Z -> M Z (num * option Z)) (actions : list Z)
    (v : num) (mv : option Z) : M Z (num * option Z) :=
  match actions with
  | [] => ret (v, mv)
  | a :: rest =>
      r <- child a ;;
      let v2 := fst r in
      if num_ltb v2 v then min_loop child rest v2 (Some a)
      else min_loop child rest v mv
  end.

Fixpoint max_value (fuel : nat) (state : board) (player : string)
    {struct fuel} : M Z (num * option Z) :=
  match fuel with
  | O => raise OutOfFuel
  | S fuel' =>
      incr_COUNT ;;;
      v <- lift (utility state player) ;;
      match v with
      | Some v => ret (Int v, None)
      | None =>
          actions <- lift (get_actions state) ;;
          max_loop (fun a => s' <- lift (result state player a) ;;
                             min_value fuel' s' player)
                   actions NegInf None
      end
  end
with min_value (fuel : nat) (state : board) (player : string)
    {struct fuel} : M Z (num * option Z) :=
  match fuel with
  | O => raise OutOfFuel
  | S fuel' =>
      incr_COUNT ;;;
      v <- lift (utility state player) ;;
      match v with
      | Some v => ret (Int v, None)
      | None =>
          actions <- lift (get_actions state) ;;
          min_loop (fun a => s' <- lift (result state (other player) a) ;;
                             max_value fuel' s' player)
                   actions PosInf None
      end
  end.

Definition minimax_search (fuel : nat) (board : board) (player : string)
  : M Z search_result :=
  reset_COUNT ;;;
  r <- max_value fuel board player ;;
  ret {| move := snd r; value := fst r |}.

(** The loops of [max_value_ab] and [min_value_ab], with the early return. *)
Fixpoint max_loop_ab (child : Z -> num -> num -> M Z (num * option Z))
    (actions : list Z) (v : num) (mv : option Z) (alpha beta : num)
  : M Z (num * option Z) :=
  match actions with
  | [] => ret (v, mv)
  | a :: rest =>
      r <- child a alpha beta ;;
      let v2 := fst r in
      let '(v, mv, alpha) :=
        if num_ltb v v2 then (v2, Some a, num_max alpha v2)
        else (v, mv, alpha) in
      if num_geb v beta then ret (v, mv)
      else max_loop_ab child rest v mv alpha beta
  end.

Fixpoint min_loop_ab (child : Z -> num -> num -> M Z (num * option Z))
    (actions : list Z) (v : num) (mv : option Z) (alpha beta : num)
  : M Z (num * option Z) :=
  match actions with
  | [] => ret (v, mv)
  | a :: rest =>
      r <- child a alpha beta ;;
      let v2 := fst r in
      let '(v, mv, beta) :=
        if num_ltb v2 v then (v2, Some a, num_min beta v2)
        else (v, mv, beta) in
      if num_leb v alpha then ret (v, mv)
      else min_loop_ab child rest v mv alpha beta
  end.

Fixpoint max_value_ab (fuel : nat) (state : board) (player : string)
    (alpha beta : num) {struct fuel} : M Z (num * option Z) :=
  match fuel with
  | O => raise OutOfFuel
  | S fuel' =>
      incr_COUNT ;;;
      v <- lift (utility state player) ;;
      match v with
      | Some v => ret (Int v, None)
      | None =>
          actions <- lift (get_actions state) ;;
          max_loop_ab (fun a alpha beta =>
                         s' <- lift (result state player a) ;;
                         min_value_ab fuel' s' player alpha beta)
                      actions NegInf None alpha beta
      end
  end
with min_value_ab (fuel : nat) (state : board) (player : string)
    (alpha beta : num) {struct fuel} : M Z (num * option Z) :=
  match fuel with
  | O => raise OutOfFuel
  | S fuel' =>
      incr_COUNT ;;;
      v <- lift (utility state player) ;;
      match v with
      | Some v => ret (Int v, None)
      | None =>
          actions <- lift (get_actions state) ;;
          min_loop_ab (fun a alpha beta =>
                         s' <- lift (result state (other player) a) ;;
                         max_value_ab fuel' s' player alpha beta)
                      actions PosInf None alpha beta
      end
  end.

Definition alpha_beta_search (fuel : nat) (board : board) (player : string)
  : M Z search_result :=
  reset_COUNT ;;;
  r <- max_value_ab fuel board player NegInf PosInf ;;
  ret {| move := snd r; value := fst r |}.

End Engines.

(** ** Monte Carlo search with UCB1, restricted to depth 1 *)

(** The arithmetic of the UCB1 scores.  The scores are Python floats; the
    model takes the float operations as an interface, so that everything
    proved below holds whatever the rounding is. *)
Record float_ops : Type := {
  F : Type;
  f_of_int : Z -> F;          (* conversion of a Python int *)
  f_inf : F;                  (* [math.inf] *)
  f_add : F -> F -> F;
  f_mul : F -> F -> F;
  f_div : F -> F -> F;
  f_sqrt : F -> F;            (* [math.sqrt] *)
  f_log : F -> F;             (* [math.log] *)
  f_gtb : F -> F -> bool;     (* [>] *)
  f_eqb : F -> F -> bool      (* [==] *)
}.

(** [max(l)]: the position and the value of the element that [max] returns,
    the first of the largest ones; [ValueError] on an empty list. *)
Fixpoint max_scan {A} (gtb : A -> A -> bool) (l : list A) (i : nat)
    (best : nat * A) : nat * A :=
  match l with
  | [] => best
  | x :: t => max_scan gtb t (S i) (if gtb x (snd best) then (i, x) else best)
  end.

Definition py_max {A} (gtb : A -> A -> bool) (l : list A) : res (nat * A) :=
  match l with
  | [] => Raise ValueError
  | x :: t => Ok (max_scan gtb t 1%nat (0%nat, x))
  end.

(** [l.index(m)] where [m] is the element of [l] at position [fst m]: the
    first position whose element is [m] itself or compares equal to it. *)
Fixpoint index_scan {A} (eqb : A -> A -> bool) (l : list A) (i : nat)
    (m : nat * A) : res nat :=
  match l with
  | [] => Raise ValueError
  | x :: t =>
      if (i =? fst m)%nat || eqb x (snd m) then Ok i
      else index_scan eqb t (S i) m
  end.

(** [l.index(max(l))] *)
Definition index_of_max {A} (gtb eqb : A -> A -> bool) (l : list A) : res nat :=
  res_bind (py_max gtb l) (fun m => index_scan eqb l 0%nat m).

(** [l[i]] for an index that is a position computed by the code. *)
Definition list_get {A} (l : list A) (i : nat) : res A :=
  match nth_error l i with
  | Some x => Ok x
  | None => Raise IndexError
  end.

Record uct_stats (fo : float_ops) : Type := {
  u : list Z;            (* total utility through each action *)
  n : list Z;            (* number of playouts through each action *)
  n_parent : Z;          (* total playouts so far *)
  UCB1 : list (F fo)
}.
Arguments u {fo} _.
Arguments n {fo} _.
Arguments n_parent {fo} _.
Arguments UCB1 {fo} _.

Section MonteCarlo.

Variable fo : float_ops.

(** The random generator: the [k]-th draw is [rng k]; [np.random.choice(l)]
    takes the element at position [rng k mod len(l)] and fails on an empty
    list. *)
Variable rng : nat -> nat.

Definition random_choice (l : list Z) : M nat Z :=
  fun k => match l with
           | [] => Raise ValueError
           | _ => Ok (nth (rng k mod length l) l 0, S k)
           end.

(** The [while(True)] loop of [playout]. *)
Fixpoint playout_loop (fuel : nat) (state : board)
    (player current_player : string) {struct fuel} : M nat Z :=
  match fuel with
  | O => raise OutOfFuel
  | S fuel' =>
      u <- lift (utility state player) ;;
      match u with
      | Some u => ret u
      | None =>
          actions <- lift (Natural.get_actions state) ;;
          a <- random_choice actions ;;
          state' <- lift (result state current_player a) ;;
          playout_loop fuel' state' player (other current_player)
      end
  end.

Definition playout (fuel : nat) (state : board) (action : Z)
    (player : string) : M nat Z :=
  state' <- lift (result state player action) ;;
  playout_loop fuel state' player (other player).

(** [u / n + C * math.sqrt(math.log(n_parent) / n)] *)
Definition ucb1_score (C : F fo) (u n n_parent : Z) : F fo :=
  f_add fo (f_div fo (f_of_int fo u) (f_of_int fo n))
        (f_mul fo C (f_sqrt fo (f_div fo (f_log fo (f_of_int fo n_parent))
                                         (f_of_int fo n)))).

(** The inner loop [for action_id in range(len(actions))]. *)
Definition update_UCB1 (C : F fo) (len : nat) (u n : list Z) (n_parent : Z)
    (UCB1 : list (F fo)) : list (F fo) :=
  fold_left (fun UCB1 action_id =>
               if 0 <? nth action_id n 0
               then list_set UCB1 action_id
                      (ucb1_score C (nth action_id u 0) (nth action_id n 0)
                                  n_parent)
               else UCB1)
            (seq 0 len) UCB1.

(** One pass through the body of [for i in range(N)]. *)
Definition uct_iteration (fuel : nat) (board : board) (player : string)
    (C : F fo) (actions : list Z) (st : uct_stats fo) : M nat (uct_stats fo) :=
  action_id <- lift (index_of_max (f_gtb fo) (f_eqb fo) (UCB1 st)) ;;
  a <- lift (list_get actions action_id) ;;
  p <- playout fuel board a player ;;
  let u' := list_set (u st) action_id (nth action_id (u st) 0 + p) in
  let n' := list_set (n st) action_id (nth action_id (n st) 0 + 1) in
  let n_parent' := n_parent st + 1 in
  ret {| u := u'; n := n'; n_parent := n_parent';
         UCB1 := update_UCB1 C (length actions) u' n' n_parent' (UCB1 st) |}.

Fixpoint uct_iterate (iterations : nat) (fuel : nat) (board : board)
    (player : string) (C : F fo) (actions : list Z) (st : uct_stats fo)
  : M nat (uct_stats fo) :=
  match iterations with
  | O => ret st
  | S k =>
      st' <- uct_iteration fuel board player C actions st ;;
      uct_iterate k fuel board player C actions st'
  end.

(** The statistics when the [for i in range(N)] loop is left. *)
Definition UCT_loop (fuel : nat) (board : board) (N : Z) (player : string)
  : M nat (list Z * uct_stats fo) :=
  let C := f_sqrt fo (f_of_int fo 2) in
  actions <- lift (Natural.get_actions board) ;;
  let len := length actions in
  st <- uct_iterate (Z.to_nat N) fuel board player C actions
          {| u := repeat 0 len; n := repeat 0 len; n_parent := 0;
             UCB1 := repeat (f_inf fo) len |} ;;
  ret (actions, st).

Definition UCT_depth1 (fuel : nat) (board : board) (N : Z) (player : string)
  : M nat Z :=
  r <- UCT_loop fuel board N player ;;
  best <- lift (index_of_max Z.gtb Z.eqb (n (snd r))) ;;
  lift (list_get (fst r) best).

End MonteCarlo.

(** The arithmetic of the specification's formula: exact real numbers
    extended with an infinity.  It serves to run the model on concrete
    inputs; nothing below depends on it. *)
Inductive xreal : Type :=
| Finite (r : Rdefinitions.R)
| Infinite.

Definition xreal_lift1 (f : Rdefinitions.R -> Rdefinitions.R) (a : xreal) : xreal :=
  match a with
  | Finite x => Finite (f x)
  | Infinite => Infinite
  end.

Definition xreal_lift2 (f : Rdefinitions.R -> Rdefinitions.R -> Rdefinitions.R)
    (a b : xreal) : xreal :=
  match a, b with
  | Finite x, Finite y => Finite (f x y)
  | _, _ => Infinite
  end.

Definition xreal_gtb (a b : xreal) : bool :=
  match a, b with
  | Finite x, Finite y => if RIneq.Rlt_dec y x then true else false
  | Infinite, Finite _ => true
  | _, _ => false
  end.

Definition xreal_eqb (a b : xreal) : bool :=
  match a, b with
  | Finite x, Finite y => if RIneq.Req_dec_T x y then true else false
  | Infinite, Infinite => true
  | _, _ => false
  end.

Definition real_arith : float_ops :=
  {| F := xreal;
     f_of_int := fun z => Finite (Rdefinitions.IZR z);
     f_inf := Infinite;
     f_add := xreal_lift2 Rdefinitions.Rplus;
     f_mul := xreal_lift2 Rdefinitions.Rmult;
     f_div := xreal_lift2 Rdefinitions.Rdiv;
     f_sqrt := xreal_lift1 R_sqrt.sqrt;
     f_log := xreal_lift1 Rpower.ln;
     f_gtb := xreal_gtb;
     f_eqb := xreal_eqb |}.

(** A call is rejected when it raises instead of returning. *)
Definition rejected {A} (r : res A) : Prop := exists e, r = Raise e.

(** Boards of the notebooks' tests, and a full board. *)
Definition b_win8 : board := ["x";"o";" "; "o";"x";" "; " ";" ";" "].
Definition b_draw7 : board := ["x";"o";"x"; " ";"o";" "; " ";" ";" "].
Definition b_lost : board := ["o";"o";" "; "o";"x";" "; " ";" ";"x"].
Definition b_full : board := ["x";"o";"x"; "x";"o";"o"; "o";"x";"x"].

(** A stream of random draws for the examples. *)
Definition sample_rng (k : nat) : nat := (7 * k + 3)%nat.

(** The three lists of statistics have one entry per action. *)
Definition stats_ok {fo : float_ops} (len : nat) (st : uct_stats fo) : Prop :=
  length (u st) = len /\ length (n st) = len /\ length (UCB1 st) = len.

(** ** The data model of the specification *)

(** A Board has 9 cells, each blank or marked; a Player is x or o. *)
Definition is_cellb (c : string) : bool :=
  String.eqb c " " || String.eqb c "x" || String.eqb c "o".

Definition wf_board (b : board) : Prop :=
  length b = 9%nat /\ forallb is_cellb b = true.

Definition is_player (p : string) : Prop := p = "x" \/ p = "o".

(** An action is legal on a board when it is the index of a blank cell. *)
Definition legal (b : board) (a : Z) : Prop :=
  0 <= a /\ nth_error b (Z.to_nat a) = Some " ".

(** Who is to move at a node of the search; the maximizer is [player]. *)
Inductive turn : Type := MaxTurn | MinTurn.

Definition mover (t : turn) (player : string) : string :=
  match t with MaxTurn => player | MinTurn => other player end.

Definition opponent (t : turn) : turn :=
  match t with MaxTurn => MinTurn | MinTurn => MaxTurn end.

(** The game-theoretic value of a position for [player], with [t] to move,
    stated from the rules alone: a finished game is worth its utility;
    otherwise the side to move has a move that reaches the value and no move
    that does better for it. *)
#[local] Set Warnings "-register-all".
Inductive game_value (player : string) : turn -> board -> Z -> Prop :=
| gv_terminal : forall t b v,
    utility b player = Ok (Some v) ->
    game_value player t b v
| gv_max : forall b v,
    utility b player = Ok None ->
    (exists a b', legal b a /\ result b player a = Ok b' /\
                  game_value player MinTurn b' v) ->
    (forall a, legal b a ->
       exists b' w, result b player a = Ok b' /\
                    game_value player MinTurn b' w /\ w <= v) ->
    game_value player MaxTurn b v
| gv_min : forall b v,
    utility b player = Ok None ->
    (exists a b', legal b a /\ result b (other player) a = Ok b' /\
                  game_value player MaxTurn b' v) ->
    (forall a, legal b a ->
       exists b' w, result b (other player) a = Ok b' /\
                    game_value player MaxTurn b' w /\ v <= w) ->
    game_value player MinTurn b v.

(** What a search returns at a node of a well-formed board: the move is
    absent exactly at a finished game, and otherwise is a legal action whose
    child has the returned value. *)
Definition move_ok (player : string) (t : turn) (b : board) (v : Z)
    (mv : option Z) : Prop :=
  match mv with
  | None => is_terminal b = Ok true
  | Some a =>
      is_terminal b = Ok false /\ legal b a /\
      exists b', result b (mover t player) a = Ok b' /\
                 game_value player (opponent t) b' v
  end.

Definition node_ok (player : string) (t : turn) (b : board) (c : Z)
    (r : res ((num * option Z) * Z)) : Prop :=
  exists v mv c',
    r = Ok ((Int v, mv), c') /\ c < c' /\ -1 <= v <= 1 /\
    game_value player t b v /\ move_ok player t b v mv.

(** An enumeration of the actions is admissible when, on a well-formed
    board, it lists the legal actions and nothing else. *)
Definition enumerates_legal (get_actions : board -> res (list Z)) : Prop :=
  forall b, wf_board b ->
    exists l, get_actions b = Ok l /\ forall a, In a l <-> legal b a.

(** The contract of a call of the pruned search with window
    [(alpha, beta)] at a node whose exhaustive value is [m]: the answer [r]
    is exact inside the window and stays on the same side outside it. *)
Definition within (alpha beta r m : num) : Prop :=
  (num_ltb alpha m = true -> num_ltb m beta = true -> r = m) /\
  (num_ltb alpha m = false -> num_ltb alpha r = false) /\
  (num_ltb m beta = false -> num_ltb r beta = false).

(** The order of the priority enumeration on a blank board. *)
Definition priority_order : list Z := [4; 8; 6; 2; 0; 7; 5; 3; 1].

Definition blank_at (b : board) (a : Z) : bool :=
  match nth_error b (Z.to_nat a) with
  | Some c => String.eqb c " "
  | None => false
  end.

(** The enumerations seen through the mask of blank cells of the board. *)
Fixpoint where_true (mask : list bool) (i : nat) : list Z :=
  match mask with
  | [] => []
  | e :: rest =>
      if e then Z.of_nat i :: where_true rest (S i) else where_true rest (S i)
  end.

Definition priority_of_mask (mask : list bool) : res (list Z) :=
  let actions := where_true mask 0 in
  res_bind (map_res (py_get 0 Priority.priority) actions) (fun prio =>
    Ok (map snd (sorted_reverse (combine prio actions)))).

(** A statement about the searches holds for both enumerations of the
    notebook. *)
Definition both_orderings (P : (board -> res (list Z)) -> Prop) : Prop :=
  P Natural.get_actions /\ P Priority.get_actions.

(** ** Further definitions, for the properties of the rest of the code *)

(** The eight lines of the grid, by cell index, and whether a mark fills
    one of them. *)
Definition win_lines : list (list nat) :=
  [ [0; 1; 2]; [3; 4; 5]; [6; 7; 8];
    [0; 3; 6]; [1; 4; 7]; [2; 5; 8];
    [0; 4; 8]; [2; 4; 6] ]%nat.

Definition has_line (b : board) (m : string) : bool :=
  existsb (forallb (fun i => String.eqb (nth i b " ") m)) win_lines.

(** All the boards of [k] cells over blank, x and o. *)
Fixpoint boards_of (k : nat) : list board :=
  match k with
  | O => [[]]
  | S k' => flat_map (fun t => [" " :: t; "x" :: t; "o" :: t]) (boards_of k')
  end.

(** The answer of [check_win] read against the lines of the grid. *)
Definition check_win_by_lines (b : board) : bool :=
  match check_win b with
  | Ok g =>
      if has_line b "x" then
        if has_line b "o" then String.eqb g "x" || String.eqb g "o"
        else String.eqb g "x"
      else if has_line b "o" then String.eqb g "o"
      else String.eqb g (if (count_empty b =? 0)%nat then "d" else "n")
  | Raise _ => false
  end.

(** The sum of a list of integers. *)
Definition Zsum (l : list Z) : Z := fold_right Z.add 0 l.

(** The finished games a playout can reach: from [b] with [cur] to move,
    the two marks alternate on blank cells until the board has a utility
    for [player]. *)
Inductive playable (player : string) : string -> board -> board -> Prop :=
| playable_done : forall cur b v,
    utility b player = Ok (Some v) ->
    playable player cur b b
| playable_move : forall cur b a b' t,
    utility b player = Ok None ->
    legal b a ->
    result b cur a = Ok b' ->
    playable player (other cur) b' t ->
    playable player cur b t.

(** What the first pass of the UCB1 loop needs from the arithmetic: the
    infinity is greater than every score the formula produces, different
    from it, and not greater than itself. *)
Definition infinity_dominates (fo : float_ops) : Prop :=
  f_gtb fo (f_inf fo) (f_inf fo) = false /\
  forall u n n_parent,
    f_gtb fo (f_inf fo)
          (ucb1_score fo (f_sqrt fo (f_of_int fo 2)) u n n_parent) = true /\
    f_eqb fo (ucb1_score fo (f_sqrt fo (f_of_int fo 2)) u n n_parent)
          (f_inf fo) = false.

(** A score produced by the formula with the constant of [UCT_depth1]. *)
Definition is_score (fo : float_ops) (x : F fo) : Prop :=
  exists u n n_parent,
    x = ucb1_score fo (f_sqrt fo (f_of_int fo 2)) u n n_parent.

(** What the statistics satisfy between two passes of the UCB1 loop. *)
Definition stats_inv {fo : float_ops} (len : nat) (st : uct_stats fo) : Prop :=
  stats_ok len st /\
  Forall (fun x => 0 <= x) (n st) /\
  Zsum (n st) = n_parent st /\
  (forall i, - nth i (n st) 0 <= nth i (u st) 0 <= nth i (n st) 0).

(** The statistics after [t] passes of the loop when each pass so far took
    a new action, in the order of the enumeration. *)
Definition tried_in_order {fo : float_ops} (len t : nat) (st : uct_stats fo)
  : Prop :=
  stats_ok len st /\ (t <= len)%nat /\
  (forall i, (i < len)%nat ->
     nth i (n st) 0 = if (i <? t)%nat then 1 else 0) /\
  (forall i, (i < t)%nat -> is_score fo (nth i (UCB1 st) (f_inf fo))) /\
  (forall i, (t <= i < len)%nat -> nth i (UCB1 st) (f_inf fo) = f_inf fo).

(** ** The game loop of the experiments *)

(** The global state the agents touch: the node counter of the searches
    and the position in the stream of random draws. *)
Record globals : Type := { COUNT : Z; drawn : nat }.

Definition with_COUNT {A} (m : M Z A) : M globals A :=
  fun g => match m (COUNT g) with
           | Ok (a, c) => Ok (a, {| COUNT := c; drawn := drawn g |})
           | Raise e => Raise e
           end.

Definition with_rng {A} (m : M nat A) : M globals A :=
  fun g => match m (drawn g) with
           | Ok (a, k) => Ok (a, {| COUNT := COUNT g; drawn := k |})
           | Raise e => Raise e
           end.

(** An agent is a function of the board and of the player symbol; its
    answer is an action or Python's [None]. *)
Definition agent : Type := board -> string -> M globals (option Z).

(** [random_player]: a random blank cell; the player is unused. *)
Definition random_player (get_actions : board -> res (list Z))
    (rng : nat -> nat) : agent :=
  fun board player =>
    with_rng (actions <- lift (get_actions board) ;;
              a <- random_choice rng actions ;;
              ret (Some a)).

(** [alpha_beta_player]: the move of [alpha_beta_search]. *)
Definition alpha_beta_player (get_actions : board -> res (list Z))
    (fuel : nat) : agent :=
  fun board player =>
    with_COUNT (r <- alpha_beta_search get_actions fuel board player ;;
                ret (move r)).

(** [ucb1_10_player] and [ucb1_100_player] *)
Definition ucb1_10_player (fo : float_ops) (rng : nat -> nat) (fuel : nat)
  : agent :=
  fun board player =>
    with_rng (a <- UCT_depth1 fo rng fuel board 10 player ;; ret (Some a)).

Definition ucb1_100_player (fo : float_ops) (rng : nat -> nat) (fuel : nat)
  : agent :=
  fun board player =>
    with_rng (a <- UCT_depth1 fo rng fuel board 100 player ;; ret (Some a)).

Definition switch_player {A} (player : string) (x o : A) : string * A :=
  if String.eqb player "x" then ("o", o) else ("x", x).

(** The errors of [play]: those of the code it calls, a missing key of the
    dictionary of results, and an index that is not an integer. *)
Inductive play_exn : Type :=
| KeyError (key : string)
| TypeError
| Raised (e : exn).

Inductive play_res (A : Type) : Type :=
| Done (a : A)
| Failed (e : play_exn).
Arguments Done {A} a.
Arguments Failed {A} e.

(** The [while True] loop of one game; it returns the winner symbol. *)
Fixpoint game_loop (x o : agent) (fuel : nat) (board : board)
    (player : string) (fun_ : agent) (g : globals)
  : play_res (string * globals) :=
  match fuel with
  | O => Failed (Raised OutOfFuel)
  | S fuel' =>
      match fun_ board player g with
      | Raise e => Failed (Raised e)
      | Ok (None, _) => Failed TypeError
      | Ok (Some a, g1) =>
          match result board player a with
          | Raise e => Failed (Raised e)
          | Ok board' =>
              match check_win board' with
              | Raise e => Failed (Raised e)
              | Ok win =>
                  if negb (String.eqb win "n") then Done (win, g1)
                  else
                    let next := switch_player player x o in
                    game_loop x o fuel' board' (fst next) (snd next) g1
              end
          end
      end
  end.

(** The dictionary of results, by key. *)
Fixpoint dict_get (d : list (string * Z)) (key : string) : option Z :=
  match d with
  | [] => None
  | (k, v) :: rest => if String.eqb k key then Some v else dict_get rest key
  end.

(** [d[key] += 1]; [None] stands for the [KeyError] of a missing key. *)
Fixpoint dict_incr (d : list (string * Z)) (key : string)
  : option (list (string * Z)) :=
  match d with
  | [] => None
  | (k, v) :: rest =>
      if String.eqb k key then Some ((k, v + 1) :: rest)
      else option_map (cons (k, v)) (dict_incr rest key)
  end.

Fixpoint play_games (x o : agent) (fuel : nat) (games : nat)
    (results : list (string * Z)) (g : globals)
  : play_res (list (string * Z) * globals) :=
  match games with
  | O => Done (results, g)
  | S games' =>
      match game_loop x o fuel empty_board "x" x g with
      | Failed e => Failed e
      | Done (win, g1) =>
          match dict_incr results win with
          | None => Failed (KeyError win)
          | Some results' => play_games x o fuel games' results' g1
          end
      end
  end.

(** [play(x, o, N)] *)
Definition play (x o : agent) (fuel : nat) (N : Z) (g : globals)
  : play_res (list (string * Z) * globals) :=
  play_games x o fuel (Z.to_nat N) [("x", 0); ("o", 0); ("d", 0)] g.

(** An agent can be trusted when, on a well-formed board that is not
    terminal, it answers a legal action. *)
Definition sound_agent (ag : agent) : Prop :=
  forall b p g, wf_board b -> is_player p -> is_terminal b = Ok false ->
    exists a g', ag b p g = Ok (Some a, g') /\ legal b a.

(** An agent that plays for [m] without giving up value: on a board whose
    game value for [m], with [m] to move, is [v], its action leads to a
    child of value [v]. *)
Definition optimal_agent (m : string) (ag : agent) : Prop :=
  forall b g v, wf_board b -> is_terminal b = Ok false ->
    game_value m MaxTurn b v ->
    exists a g' b',
      ag b m g = Ok (Some a, g') /\ legal b a /\
      result b m a = Ok b' /\ game_value m MinTurn b' v.

(** The agent that moves for a player symbol in [play(x, o)]. *)
Definition agent_of {A} (player : string) (x o : A) : A :=
  if String.eqb player "x" then x else o.

(** Whose turn it is, seen from the player [m] whose value is computed. *)
Definition turn_for (m player : string) : turn :=
  if String.eqb player m then MaxTurn else MinTurn.

(** The agents of the two notebooks. *)
Definition notebook_agents (fo : float_ops) (rng : nat -> nat)
    (fuel pfuel : nat) : list agent :=
  [ random_player Natural.get_actions rng;
    random_player Priority.get_actions rng;
    alpha_beta_player Natural.get_actions fuel;
    alpha_beta_player Priority.get_actions fuel;
    ucb1_10_player fo rng pfuel;
    ucb1_100_player fo rng pfuel ].

(** * Properties *)

Example check_win_x :
  check_win ["x";" ";" "; "x";" ";" "; "x";" ";" "] = Ok "x".
Proof. reflexivity. Qed.

Example check_win_empty : check_win empty_board = Ok "n".
Proof. reflexivity. Qed.

Example get_actions_demo :
  Natural.get_actions ["x";" ";" "; "x";" ";" "; "x";" ";" "]
  = Ok [1; 2; 4; 5; 7; 8].
Proof. reflexivity. Qed.

Example get_actions_priority_demo :
  Priority.get_actions empty_board = Ok [4; 8; 6; 2; 0; 7; 5; 3; 1].
Proof. reflexivity. Qed.

Example utility_demo :
  utility (repeat "x" 9) "x" = Ok (Some 1) /\
  utility (repeat "o" 9) "x" = Ok (Some (-1)) /\
  utility empty_board "x" = Ok None.
Proof. repeat split. Qed.

Example mm1 : minimax_search Natural.get_actions 10 b_win8 "x" 7
  = Ok ({| move := Some 2; value := Int 1 |}, 190).
Proof. vm_compute. reflexivity. Qed.
Example mm2 : minimax_search Natural.get_actions 10 b_draw7 "x" 7
  = Ok ({| move := Some 7; value := Int 0 |}, 206).
Proof. vm_compute. reflexivity. Qed.
Example mm3 : minimax_search Natural.get_actions 10 b_lost "x" 7
  = Ok ({| move := Some 2; value := Int (-1) |}, 33).
Proof. vm_compute. reflexivity. Qed.
Example ab1 : alpha_beta_search Priority.get_actions 10 b_win8 "x" 7
  = Ok ({| move := Some 8; value := Int 1 |}, 42).
Proof. vm_compute. reflexivity. Qed.
Example ab2 : alpha_beta_search Priority.get_actions 10 b_draw7 "x" 7
  = Ok ({| move := Some 7; value := Int 0 |}, 106).
Proof. vm_compute. reflexivity. Qed.
Example ab3 : alpha_beta_search Priority.get_actions 10 b_lost "x" 7
  = Ok ({| move := Some 6; value := Int (-1) |}, 13).
Proof. vm_compute. reflexivity. Qed.
Example ab4 : alpha_beta_search Priority.get_actions 10 empty_board "x" 7
  = Ok ({| move := Some 4; value := Int 0 |}, 7275).
Proof. vm_compute. reflexivity. Qed.

Example ab_natural_o_first :
  alpha_beta_search Natural.get_actions 10
    [" ";" ";" "; " ";"o";" "; " ";" ";" "] "x" 0
  = Ok ({| move := Some 0; value := Int 0 |}, 2316).
Proof. vm_compute. reflexivity. Qed.

Example ab_natural_empty :
  alpha_beta_search Natural.get_actions 10 empty_board "x" 0
  = Ok ({| move := Some 0; value := Int 0 |}, 18297).
Proof. vm_compute. reflexivity. Qed.

Example result_demo :
  result_out empty_board "x" 4
  = Ok ([" ";" ";" "; " ";"x";" "; " ";" ";" "], []).
Proof. reflexivity. Qed.

Example result_negative_index :
  result empty_board "x" (-1)
  = Ok [" ";" ";" "; " ";" ";" "; " ";" ";"x"] /\
  result empty_board "x" 9 = Raise IndexError.
Proof. split; reflexivity. Qed.

Example playout_demo :
  playout sample_rng 9 empty_board 0 "x" 0%nat = Ok (-1, 7%nat).
Proof. vm_compute. reflexivity. Qed.

(** ** The state model on well-formed boards *)

Lemma is_cellb_marked c :
  is_cellb c = true -> String.eqb c " " = false -> c = "x" \/ c = "o".
Proof.
  unfold is_cellb. intros H Hb. rewrite Hb in H. simpl in H.
  apply orb_true_iff in H. destruct H as [H | H]; apply String.eqb_eq in H; auto.
Qed.

Lemma is_player_cell p : is_player p -> is_cellb p = true.
Proof. intros [-> | ->]; reflexivity. Qed.

Lemma is_player_not_blank p : is_player p -> String.eqb p " " = false.
Proof. intros [-> | ->]; reflexivity. Qed.

Lemma other_player p : is_player p -> is_player (other p).
Proof. intros [-> | ->]; [right | left]; reflexivity. Qed.

Lemma winning_row_hd c rest :
  winning_row (c :: rest) = true -> String.eqb c " " = false.
Proof.
  simpl. intros H. apply andb_true_iff in H. destruct H as [_ H].
  now apply negb_true_iff in H.
Qed.

(** What [check_win] answers on a well-formed board. *)
Lemma check_win_cases b :
  wf_board b ->
  check_win b = Ok "x" \/ check_win b = Ok "o" \/
  (check_win b = Ok "d" /\ count_empty b = 0%nat) \/
  (check_win b = Ok "n" /\ (0 < count_empty b)%nat).
Proof.
  intros [Hlen Hcells].
  do 10 (destruct b as [| ? b]; try discriminate Hlen). clear Hlen.
  simpl in Hcells.
  repeat match type of Hcells with
         | (_ && _) = true =>
             let H := fresh "Hc" in
             apply andb_true_iff in Hcells; destruct Hcells as [H Hcells]
         end.
  clear Hcells.
  unfold check_win, reshape33, res_bind.
  cbn [transpose diagonals app map seq length cell nth Nat.sub find].
  repeat match goal with
         | |- context [ if winning_row (?c :: ?r) then _ else _ ] =>
             let E := fresh "E" in
             destruct (winning_row (c :: r)) eqn:E;
             [ apply winning_row_hd in E; cbn [hd];
               match goal with
               | Hc : is_cellb c = true |- _ =>
                   destruct (is_cellb_marked c Hc E) as [-> | ->]; auto
               end
             | clear E ]
         end.
  destruct (count_empty _ <? 1)%nat eqn:E.
  - apply Nat.ltb_lt in E. right; right; left. split; [reflexivity | lia].
  - apply Nat.ltb_ge in E. right; right; right. split; [reflexivity | lia].
Qed.

(** [utility] on a well-formed board, for a real player: a value in
    {-1, 0, 1} exactly when the board is terminal. *)
Lemma utility_cases b p :
  wf_board b -> is_player p ->
  (exists v, utility b p = Ok (Some v) /\ -1 <= v <= 1 /\
             is_terminal b = Ok true) \/
  (utility b p = Ok None /\ (0 < count_empty b)%nat /\
   is_terminal b = Ok false).
Proof.
  intros Hwf Hp. unfold utility, is_terminal, res_map.
  destruct (check_win_cases b Hwf) as [E | [E | [[E _] | [E Hn]]]];
    rewrite E; destruct Hp as [-> | ->]; cbn;
    try (left; eexists; split; [reflexivity | split; [lia | reflexivity]]).
  all: right; auto.
Qed.

Lemma where_empty_In b : forall i a,
  In a (where_empty b i) <->
  exists k, a = Z.of_nat (i + k) /\ nth_error b k = Some " ".
Proof.
  induction b as [| c b IH]; intros i a; simpl.
  - split; [tauto | intros [[| k] [_ H]]; discriminate].
  - destruct (String.eqb c " ") eqn:E.
    + apply String.eqb_eq in E. subst c. simpl. rewrite IH. split.
      * intros [<- | [k [-> Hk]]].
        -- exists 0%nat. rewrite Nat.add_0_r. auto.
        -- exists (S k). split; [f_equal; lia | exact Hk].
      * intros [[| k] [-> Hk]].
        -- left. f_equal. lia.
        -- right. exists k. split; [f_equal; lia | exact Hk].
    + rewrite IH. split.
      * intros [k [-> Hk]]. exists (S k). split; [f_equal; lia | exact Hk].
      * intros [[| k] [-> Hk]].
        -- simpl in Hk. injection Hk as ->. discriminate.
        -- exists k. split; [f_equal; lia | exact Hk].
Qed.

Lemma where_empty_legal b a : In a (where_empty b 0) <-> legal b a.
Proof.
  rewrite where_empty_In. unfold legal. split.
  - intros [k [-> Hk]]. simpl. rewrite Nat2Z.id. split; [lia | exact Hk].
  - intros [Ha Hk]. exists (Z.to_nat a). simpl. split; [lia | exact Hk].
Qed.

Lemma where_empty_length b : forall i,
  length (where_empty b i) = count_empty b.
Proof.
  unfold count_empty. induction b as [| c b IH]; intros i; simpl; auto.
  destruct (String.eqb c " "); simpl; rewrite IH; reflexivity.
Qed.

Lemma where_empty_nil b : where_empty b 0 = [] <-> count_empty b = 0%nat.
Proof.
  rewrite <- (where_empty_length b 0).
  destruct (where_empty b 0); simpl; split; intros; congruence.
Qed.

Lemma legal_in_range b a : legal b a -> 0 <= a < Z.of_nat (length b).
Proof.
  intros [Ha Hk]. split; [exact Ha |].
  assert (Z.to_nat a < length b)%nat by (apply nth_error_Some; congruence).
  lia.
Qed.

Lemma py_index_in_range {A} (l : list A) a :
  0 <= a < Z.of_nat (length l) -> py_index l a = Ok (Z.to_nat a).
Proof.
  intros H. unfold py_index.
  destruct (0 <=? a) eqn:E1; [| lia].
  destruct (a <? Z.of_nat (length l)) eqn:E2; [reflexivity | lia].
Qed.

Lemma list_set_length {A} (l : list A) : forall k x,
  length (list_set l k x) = length l.
Proof.
  induction l as [| h t IH]; intros [| k] x; simpl; auto.
Qed.

Lemma list_set_forallb {A} (f : A -> bool) (l : list A) : forall k x,
  forallb f l = true -> f x = true -> forallb f (list_set l k x) = true.
Proof.
  induction l as [| h t IH]; intros [| k] x Hl Hx; simpl in *; auto;
    apply andb_true_iff in Hl; destruct Hl as [Hh Ht];
    apply andb_true_iff; auto.
Qed.

Lemma list_set_count_empty b : forall k p,
  nth_error b k = Some " " -> String.eqb p " " = false ->
  S (count_empty (list_set b k p)) = count_empty b.
Proof.
  unfold count_empty.
  induction b as [| c b IH]; intros [| k] p Hk Hp; simpl in *; try discriminate.
  - injection Hk as ->. rewrite Hp. reflexivity.
  - destruct (String.eqb c " "); simpl; rewrite <- (IH k p Hk Hp); reflexivity.
Qed.

Lemma count_empty_le_length b : (count_empty b <= length b)%nat.
Proof. unfold count_empty. apply filter_length_le. Qed.

(** Applying a legal action: the call succeeds, prints nothing, and the
    child is a well-formed board with one blank cell less. *)
Lemma result_legal b p a :
  legal b a -> result b p a = Ok (list_set b (Z.to_nat a) p).
Proof.
  intros Hl. unfold result, result_out, py_get, py_set, res_map, res_bind.
  rewrite (py_index_in_range b a (legal_in_range b a Hl)). reflexivity.
Qed.

Lemma result_child b p a :
  wf_board b -> is_player p -> legal b a ->
  exists b', result b p a = Ok b' /\ wf_board b' /\
             S (count_empty b') = count_empty b.
Proof.
  intros [Hlen Hcells] Hp Hl. exists (list_set b (Z.to_nat a) p).
  split; [apply result_legal; exact Hl |]. split.
  - split; [rewrite list_set_length; exact Hlen |].
    apply list_set_forallb; [exact Hcells | apply is_player_cell; exact Hp].
  - apply list_set_count_empty; [apply Hl | apply is_player_not_blank; exact Hp].
Qed.

Lemma wf_count_empty b : wf_board b -> (count_empty b <= 9)%nat.
Proof. intros [Hlen _]. rewrite <- Hlen. apply count_empty_le_length. Qed.

(** ** The order on the numbers of the searches *)

Ltac num_prune :=
  cbn [num_ltb negb] in *;
  repeat match goal with
         | H : true = true -> _ |- _ => specialize (H eq_refl)
         | H : false = false -> _ |- _ => specialize (H eq_refl)
         | H : true = false -> _ |- _ => clear H
         | H : false = true -> _ |- _ => clear H
         | H : ?x = ?x |- _ => clear H
         end;
  try discriminate.

(** Order reasoning on [num] by cases on the constructors, pruning the
    impossible ones as soon as they show. *)
Ltac num_bash :=
  subst;
  unfold within, num_geb, num_leb, num_max, num_min in *;
  repeat match goal with
         | H : _ /\ _ |- _ => destruct H
         end;
  repeat match goal with
         | x : num |- _ => destruct x; num_prune
         end;
  repeat match goal with
         | H : context [ (?a <? ?b) ] |- _ => destruct (Z.ltb_spec a b); num_prune
         | |- context [ (?a <? ?b) ] => destruct (Z.ltb_spec a b); num_prune
         end;
  repeat match goal with
         | H : Int _ = Int _ |- _ => injection H as H
         end;
  repeat split; intros; try discriminate; try lia; try (f_equal; lia).

Lemma num_ltb_trans a b c :
  num_ltb a b = true -> num_ltb b c = true -> num_ltb a c = true.
Proof. intros; num_bash. Qed.

(** ** The loops of the exhaustive search *)

Section Loops.

Variable child : Z -> M Z (num * option Z).
Variable Q : Z -> Z -> Prop.

Lemma max_loop_spec actions :
  (forall a c, In a actions ->
     exists w mv c', child a c = Ok ((Int w, mv), c') /\ c < c' /\ Q a w) ->
  forall v mv c,
  exists v' mv' c',
    max_loop child actions v mv c = Ok ((v', mv'), c') /\ c <= c' /\
    ((v' = v /\ mv' = mv /\
      forall a, In a actions -> exists w, Q a w /\ num_ltb v (Int w) = false)
     \/
     (exists a w, In a actions /\ v' = Int w /\ mv' = Some a /\ Q a w /\
                  num_ltb v (Int w) = true /\
                  forall a', In a' actions -> exists w', Q a' w' /\ w' <= w)).
Proof.
  induction actions as [| a rest IH]; intros Hch v mv c.
  - exists v, mv, c. split; [reflexivity |]. split; [lia |].
    left. repeat split. intros a [].
  - destruct (Hch a c (or_introl eq_refl)) as (w & mv0 & c0 & Ea & Hc0 & Hq).
    assert (Hch' : forall a c, In a rest ->
              exists w mv c', child a c = Ok ((Int w, mv), c') /\ c < c' /\ Q a w)
      by (intros; apply Hch; right; assumption).
    specialize (IH Hch').
    cbn [max_loop]. unfold bind at 1. rewrite Ea. cbn [fst].
    destruct (num_ltb v (Int w)) eqn:Elt.
    + destruct (IH (Int w) (Some a) c0) as (v' & mv' & c' & Er & Hc' & Hcase).
      exists v', mv', c'. split; [exact Er |]. split; [lia |]. right.
      destruct Hcase as [(-> & -> & Hall) | (a2 & w2 & Hin & -> & -> & Hq2 & Hlt & Hall)].
      * exists a, w. repeat split; auto; [left; reflexivity |].
        intros a' [<- | Hin]; [exists w; split; [exact Hq | lia] |].
        destruct (Hall a' Hin) as (w' & Hq' & Hle). exists w'.
        split; [exact Hq' |]. cbn in Hle. apply Z.ltb_ge in Hle. exact Hle.
      * exists a2, w2. repeat split; auto; [right; exact Hin | |].
        -- eapply num_ltb_trans; eassumption.
        -- intros a' [<- | Hin']; [| apply Hall; exact Hin'].
           exists w. split; [exact Hq |]. cbn in Hlt. apply Z.ltb_lt in Hlt. lia.
    + destruct (IH v mv c0) as (v' & mv' & c' & Er & Hc' & Hcase).
      exists v', mv', c'. split; [exact Er |]. split; [lia |].
      destruct Hcase as [(-> & -> & Hall) | (a2 & w2 & Hin & -> & -> & Hq2 & Hlt & Hall)].
      * left. repeat split.
        intros a' [<- | Hin]; [exists w; auto | apply Hall; exact Hin].
      * right. exists a2, w2. repeat split; auto; [right; exact Hin |].
        intros a' [<- | Hin']; [| apply Hall; exact Hin'].
        exists w. split; [exact Hq |].
        assert (Hw : num_ltb (Int w) (Int w2) = true)
          by (clear - Elt Hlt; num_bash).
        cbn in Hw. apply Z.ltb_lt in Hw. lia.
Qed.

Lemma min_loop_spec actions :
  (forall a c, In a actions ->
     exists w mv c', child a c = Ok ((Int w, mv), c') /\ c < c' /\ Q a w) ->
  forall v mv c,
  exists v' mv' c',
    min_loop child actions v mv c = Ok ((v', mv'), c') /\ c <= c' /\
    ((v' = v /\ mv' = mv /\
      forall a, In a actions -> exists w, Q a w /\ num_ltb (Int w) v = false)
     \/
     (exists a w, In a actions /\ v' = Int w /\ mv' = Some a /\ Q a w /\
                  num_ltb (Int w) v = true /\
                  forall a', In a' actions -> exists w', Q a' w' /\ w <= w')).
Proof.
  induction actions as [| a rest IH]; intros Hch v mv c.
  - exists v, mv, c. split; [reflexivity |]. split; [lia |].
    left. repeat split. intros a [].
  - destruct (Hch a c (or_introl eq_refl)) as (w & mv0 & c0 & Ea & Hc0 & Hq).
    assert (Hch' : forall a c, In a rest ->
              exists w mv c', child a c = Ok ((Int w, mv), c') /\ c < c' /\ Q a w)
      by (intros; apply Hch; right; assumption).
    specialize (IH Hch').
    cbn [min_loop]. unfold bind at 1. rewrite Ea. cbn [fst].
    destruct (num_ltb (Int w) v) eqn:Elt.
    + destruct (IH (Int w) (Some a) c0) as (v' & mv' & c' & Er & Hc' & Hcase).
      exists v', mv', c'. split; [exact Er |]. split; [lia |]. right.
      destruct Hcase as [(-> & -> & Hall) | (a2 & w2 & Hin & -> & -> & Hq2 & Hlt & Hall)].
      * exists a, w. repeat split; auto; [left; reflexivity |].
        intros a' [<- | Hin]; [exists w; split; [exact Hq | lia] |].
        destruct (Hall a' Hin) as (w' & Hq' & Hle). exists w'.
        split; [exact Hq' |]. cbn in Hle. apply Z.ltb_ge in Hle. exact Hle.
      * exists a2, w2. repeat split; auto; [right; exact Hin | |].
        -- eapply num_ltb_trans; eassumption.
        -- intros a' [<- | Hin']; [| apply Hall; exact Hin'].
           exists w. split; [exact Hq |]. cbn in Hlt. apply Z.ltb_lt in Hlt. lia.
    + destruct (IH v mv c0) as (v' & mv' & c' & Er & Hc' & Hcase).
      exists v', mv', c'. split; [exact Er |]. split; [lia |].
      destruct Hcase as [(-> & -> & Hall) | (a2 & w2 & Hin & -> & -> & Hq2 & Hlt & Hall)].
      * left. repeat split.
        intros a' [<- | Hin]; [exists w; auto | apply Hall; exact Hin].
      * right. exists a2, w2. repeat split; auto; [right; exact Hin |].
        intros a' [<- | Hin']; [| apply Hall; exact Hin'].
        exists w. split; [exact Hq |].
        assert (Hw : num_ltb (Int w2) (Int w) = true)
          by (clear - Elt Hlt; num_bash).
        cbn in Hw. apply Z.ltb_lt in Hw. lia.
Qed.

End Loops.

(** ** Exhaustive minimax computes the game value *)

Section Minimax.

Variable get_actions : board -> res (list Z).
Hypothesis get_actions_ok : enumerates_legal get_actions.

Lemma some_legal_action b :
  (0 < count_empty b)%nat -> exists a, legal b a.
Proof.
  intros H. destruct (where_empty b 0) as [| a l] eqn:E.
  - apply where_empty_nil in E. lia.
  - exists a. apply where_empty_legal. rewrite E. left. reflexivity.
Qed.

Lemma minimax_spec fuel :
  forall p, is_player p ->
  forall b c, wf_board b -> (count_empty b < fuel)%nat ->
    node_ok p MaxTurn b c (max_value get_actions fuel b p c) /\
    node_ok p MinTurn b c (min_value get_actions fuel b p c).
Proof.
  induction fuel as [| fuel IH]; intros p Hp b c Hwf Hfuel; [lia |].
  destruct (get_actions_ok b Hwf) as (l & El & Hl).
  split.
  - cbn [max_value]. unfold bind at 1, incr_COUNT. unfold bind at 1, lift at 1.
    destruct (utility_cases b p Hwf Hp) as [(v & Eu & Hv & Ht) | (Eu & Hn & Ht)];
      rewrite Eu.
    + exists v, None, (c + 1). repeat split; try lia.
      * apply gv_terminal. exact Eu.
      * exact Ht.
    + unfold bind at 1, lift at 1. rewrite El.
      set (Q := fun a w => -1 <= w <= 1 /\
                 exists b', result b p a = Ok b' /\ game_value p MinTurn b' w).
      match goal with
      | |- node_ok _ _ _ _ (max_loop ?ch0 _ _ _ _) => set (ch := ch0)
      end.
      assert (Hch : forall a c0, In a l ->
                exists w mv c', ch a c0 = Ok ((Int w, mv), c') /\ c0 < c' /\ Q a w).
      { intros a c0 Hin. apply Hl in Hin. subst ch. cbv beta.
        destruct (result_child b p a Hwf Hp Hin) as (b' & Eb' & Hwf' & Hcnt).
        destruct (IH p Hp b' c0 Hwf' ltac:(lia)) as [_ (w & mv & c1 & E1 & ? & ? & Hg & _)].
        exists w, mv, c1. unfold bind, lift. rewrite Eb'. repeat split; auto; try lia.
        exists b'. auto. }
      destruct (max_loop_spec ch Q l Hch NegInf None (c + 1))
        as (v' & mv' & c' & Er & Hc' & Hcase).
      rewrite Er.
      destruct Hcase as [(_ & _ & Hall) | (a & w & Hin & -> & -> & (Hw & b' & Eb' & Hg) & _ & Hall)].
      * destruct (some_legal_action b Hn) as (a & Ha).
        apply Hl in Ha. destruct (Hall a Ha) as (w & _ & Habs). discriminate.
      * exists w, (Some a), c'. repeat split; try lia.
        -- apply gv_max; [exact Eu | exists a, b'; repeat split; auto; now apply Hl |].
           intros a' Ha'. apply Hl in Ha'.
           destruct (Hall a' Ha') as (w' & (_ & b'' & Eb'' & Hg') & Hle).
           exists b'', w'. auto.
        -- exact Ht.
        -- apply Hl; exact Hin.
        -- apply Hl; exact Hin.
        -- exists b'. auto.
  - pose proof (other_player p Hp) as Hop.
    cbn [min_value]. unfold bind at 1, incr_COUNT. unfold bind at 1, lift at 1.
    destruct (utility_cases b p Hwf Hp) as [(v & Eu & Hv & Ht) | (Eu & Hn & Ht)];
      rewrite Eu.
    + exists v, None, (c + 1). repeat split; try lia.
      * apply gv_terminal. exact Eu.
      * exact Ht.
    + unfold bind at 1, lift at 1. rewrite El.
      set (Q := fun a w => -1 <= w <= 1 /\
                 exists b', result b (other p) a = Ok b' /\
                            game_value p MaxTurn b' w).
      match goal with
      | |- node_ok _ _ _ _ (min_loop ?ch0 _ _ _ _) => set (ch := ch0)
      end.
      assert (Hch : forall a c0, In a l ->
                exists w mv c', ch a c0 = Ok ((Int w, mv), c') /\ c0 < c' /\ Q a w).
      { intros a c0 Hin. apply Hl in Hin. subst ch. cbv beta.
        destruct (result_child b (other p) a Hwf Hop Hin) as (b' & Eb' & Hwf' & Hcnt).
        destruct (IH p Hp b' c0 Hwf' ltac:(lia)) as [(w & mv & c1 & E1 & ? & ? & Hg & _) _].
        exists w, mv, c1. unfold bind, lift. rewrite Eb'. repeat split; auto; try lia.
        exists b'. auto. }
      destruct (min_loop_spec ch Q l Hch PosInf None (c + 1))
        as (v' & mv' & c' & Er & Hc' & Hcase).
      rewrite Er.
      destruct Hcase as [(_ & _ & Hall) | (a & w & Hin & -> & -> & (Hw & b' & Eb' & Hg) & _ & Hall)].
      * destruct (some_legal_action b Hn) as (a & Ha).
        apply Hl in Ha. destruct (Hall a Ha) as (w & _ & Habs). discriminate.
      * exists w, (Some a), c'. repeat split; try lia.
        -- apply gv_min; [exact Eu | exists a, b'; repeat split; auto; now apply Hl |].
           intros a' Ha'. apply Hl in Ha'.
           destruct (Hall a' Ha') as (w' & (_ & b'' & Eb'' & Hg') & Hle).
           exists b'', w'. auto.
        -- exact Ht.
        -- apply Hl; exact Hin.
        -- apply Hl; exact Hin.
        -- exists b'. auto.
Qed.

End Minimax.

(** ** Alpha-beta simulates minimax on the nodes it visits *)

Section LoopSimulation.

Variable ch1 : Z -> M Z (num * option Z).
Variable ch2 : Z -> num -> num -> M Z (num * option Z).

Hypothesis ch_sim : forall a c1 c2 alpha beta m mv c1',
  ch1 a c1 = Ok ((m, mv), c1') -> num_ltb alpha beta = true ->
  exists r mv2 c2',
    ch2 a alpha beta c2 = Ok ((r, mv2), c2') /\ within alpha beta r m /\
    c2' - c2 <= c1' - c1.

Hypothesis ch_count : forall a c x c', ch1 a c = Ok (x, c') -> c <= c'.

Lemma max_loop_count actions : forall v mv c x c',
  max_loop ch1 actions v mv c = Ok (x, c') -> c <= c'.
Proof.
  induction actions as [| a rest IH]; intros v mv c x c' H; cbn [max_loop] in H.
  - unfold ret in H. injection H as _ <-. lia.
  - unfold bind at 1 in H.
    destruct (ch1 a c) as [[[mc mvc] ca] | e] eqn:E1; [| discriminate].
    apply ch_count in E1. cbn [fst] in H.
    destruct (num_ltb v mc); apply IH in H; lia.
Qed.

Lemma min_loop_count actions : forall v mv c x c',
  min_loop ch1 actions v mv c = Ok (x, c') -> c <= c'.
Proof.
  induction actions as [| a rest IH]; intros v mv c x c' H; cbn [min_loop] in H.
  - unfold ret in H. injection H as _ <-. lia.
  - unfold bind at 1 in H.
    destruct (ch1 a c) as [[[mc mvc] ca] | e] eqn:E1; [| discriminate].
    apply ch_count in E1. cbn [fst] in H.
    destruct (num_ltb mc v); apply IH in H; lia.
Qed.

Lemma max_loop_grows actions : forall v mv c m mvf c',
  max_loop ch1 actions v mv c = Ok ((m, mvf), c') -> num_ltb m v = false.
Proof.
  induction actions as [| a rest IH]; intros v mv c m mvf c' H; cbn [max_loop] in H.
  - unfold ret in H. injection H as <- _ _. num_bash.
  - unfold bind at 1 in H.
    destruct (ch1 a c) as [[[mc mvc] ca] | e] eqn:E1; [| discriminate].
    cbn [fst] in H.
    destruct (num_ltb v mc) eqn:E; apply IH in H; [num_bash | exact H].
Qed.

Lemma min_loop_shrinks actions : forall v mv c m mvf c',
  min_loop ch1 actions v mv c = Ok ((m, mvf), c') -> num_ltb v m = false.
Proof.
  induction actions as [| a rest IH]; intros v mv c m mvf c' H; cbn [min_loop] in H.
  - unfold ret in H. injection H as <- _ _. num_bash.
  - unfold bind at 1 in H.
    destruct (ch1 a c) as [[[mc mvc] ca] | e] eqn:E1; [| discriminate].
    cbn [fst] in H.
    destruct (num_ltb mc v) eqn:E; apply IH in H; [num_bash | exact H].
Qed.

Lemma max_loop_sim actions :
  forall v1 mv1 c1 m mvf c1' v2 mv2 alpha0 alpha beta c2,
  max_loop ch1 actions v1 mv1 c1 = Ok ((m, mvf), c1') ->
  num_ltb alpha0 beta = true ->
  num_ltb v1 beta = true ->
  (num_ltb alpha0 v1 = true -> v2 = v1) ->
  (num_ltb alpha0 v1 = false -> num_ltb alpha0 v2 = false) ->
  alpha = num_max alpha0 v2 ->
  exists r mv' c2',
    max_loop_ab ch2 actions v2 mv2 alpha beta c2 = Ok ((r, mv'), c2') /\
    within alpha0 beta r m /\ c2' - c2 <= c1' - c1.
Proof.
  induction actions as [| a rest IH];
    intros v1 mv1 c1 m mvf c1' v2 mv2 alpha0 alpha beta c2 H Hab Hv1 Hin Hout Ha.
  - cbn [max_loop] in H. unfold ret in H. injection H as <- <- <-.
    exists v2, mv2, c2. split; [reflexivity |]. split; [| lia].
    clear - Hab Hv1 Hin Hout. num_bash.
  - cbn [max_loop] in H. unfold bind at 1 in H.
    destruct (ch1 a c1) as [[[mc mvc] c1a] | e] eqn:E1; [| discriminate].
    cbn [fst] in H.
    assert (Hwin : num_ltb alpha beta = true)
      by (clear - Hab Hv1 Hin Hout Ha; num_bash).
    destruct (ch_sim a c1 c2 alpha beta mc mvc c1a E1 Hwin)
      as (rc & mvr & c2a & E2 & Hw & Hc).
    pose proof (ch_count _ _ _ _ E1) as Hc1a.
    cbn [max_loop_ab]. unfold bind at 1. rewrite E2. cbn [fst].
    destruct (num_ltb v2 rc) eqn:Eup.
    + (* the pruned search improves its best value *)
      destruct (num_geb rc beta) eqn:Ecut.
      * (* cutoff *)
        exists rc, (Some a), c2a. split; [reflexivity |].
        assert (Hm : num_ltb m (if num_ltb v1 mc then mc else v1) = false).
        { destruct (num_ltb v1 mc); eapply max_loop_grows; exact H. }
        split.
        -- clear - Hab Hv1 Hin Hout Ha Hw Eup Ecut Hm. num_bash.
        -- destruct (num_ltb v1 mc); apply max_loop_count in H; lia.
      * assert (Hstep : exists v1' mv1',
                  max_loop ch1 rest v1' mv1' c1a = Ok ((m, mvf), c1') /\
                  v1' = num_max v1 mc).
        { unfold num_max. destruct (num_ltb v1 mc); eauto. }
        destruct Hstep as (v1' & mv1' & H' & Ev1').
        destruct (IH v1' mv1' c1a m mvf c1' rc (Some a) alpha0
                     (num_max alpha rc) beta c2a H' Hab)
          as (r & mv' & c2' & Er & Hr & Hcr).
        { clear - Hab Hv1 Hin Hout Ha Hw Eup Ecut Ev1'. num_bash. }
        { clear - Hab Hv1 Hin Hout Ha Hw Eup Ecut Ev1'. num_bash. }
        { clear - Hab Hv1 Hin Hout Ha Hw Eup Ecut Ev1'. num_bash. }
        { clear - Hab Hv1 Hin Hout Ha Hw Eup Ecut Ev1'. num_bash. }
        exists r, mv', c2'. split; [exact Er |]. split; [exact Hr | lia].
    + (* no improvement *)
      destruct (num_geb v2 beta) eqn:Ecut.
      * exfalso. clear - Hab Hv1 Hin Hout Ecut. num_bash.
      * assert (Hstep : exists v1' mv1',
                  max_loop ch1 rest v1' mv1' c1a = Ok ((m, mvf), c1') /\
                  v1' = num_max v1 mc).
        { unfold num_max. destruct (num_ltb v1 mc); eauto. }
        destruct Hstep as (v1' & mv1' & H' & Ev1').
        destruct (IH v1' mv1' c1a m mvf c1' v2 mv2 alpha0 alpha beta c2a H' Hab)
          as (r & mv' & c2' & Er & Hr & Hcr).
        { clear - Hab Hv1 Hin Hout Ha Hw Eup Ecut Ev1'. num_bash. }
        { clear - Hab Hv1 Hin Hout Ha Hw Eup Ecut Ev1'. num_bash. }
        { clear - Hab Hv1 Hin Hout Ha Hw Eup Ecut Ev1'. num_bash. }
        { exact Ha. }
        exists r, mv', c2'. split; [exact Er |]. split; [exact Hr | lia].
Qed.

Lemma min_loop_sim actions :
  forall v1 mv1 c1 m mvf c1' v2 mv2 alpha beta0 beta c2,
  min_loop ch1 actions v1 mv1 c1 = Ok ((m, mvf), c1') ->
  num_ltb alpha beta0 = true ->
  num_ltb alpha v1 = true ->
  (num_ltb v1 beta0 = true -> v2 = v1) ->
  (num_ltb v1 beta0 = false -> num_ltb v2 beta0 = false) ->
  beta = num_min beta0 v2 ->
  exists r mv' c2',
    min_loop_ab ch2 actions v2 mv2 alpha beta c2 = Ok ((r, mv'), c2') /\
    within alpha beta0 r m /\ c2' - c2 <= c1' - c1.
Proof.
  induction actions as [| a rest IH];
    intros v1 mv1 c1 m mvf c1' v2 mv2 alpha beta0 beta c2 H Hab Hv1 Hin Hout Hb.
  - cbn [min_loop] in H. unfold ret in H. injection H as <- <- <-.
    exists v2, mv2, c2. split; [reflexivity |]. split; [| lia].
    clear - Hab Hv1 Hin Hout. num_bash.
  - cbn [min_loop] in H. unfold bind at 1 in H.
    destruct (ch1 a c1) as [[[mc mvc] c1a] | e] eqn:E1; [| discriminate].
    cbn [fst] in H.
    assert (Hwin : num_ltb alpha beta = true)
      by (clear - Hab Hv1 Hin Hout Hb; num_bash).
    destruct (ch_sim a c1 c2 alpha beta mc mvc c1a E1 Hwin)
      as (rc & mvr & c2a & E2 & Hw & Hc).
    pose proof (ch_count _ _ _ _ E1) as Hc1a.
    cbn [min_loop_ab]. unfold bind at 1. rewrite E2. cbn [fst].
    destruct (num_ltb rc v2) eqn:Eup.
    + (* the pruned search improves its best value *)
      destruct (num_leb rc alpha) eqn:Ecut.
      * (* cutoff *)
        exists rc, (Some a), c2a. split; [reflexivity |].
        assert (Hm : num_ltb (if num_ltb mc v1 then mc else v1) m = false).
        { destruct (num_ltb mc v1); eapply min_loop_shrinks; exact H. }
        split.
        -- clear - Hab Hv1 Hin Hout Hb Hw Eup Ecut Hm. num_bash.
        -- destruct (num_ltb mc v1); apply min_loop_count in H; lia.
      * assert (Hstep : exists v1' mv1',
                  min_loop ch1 rest v1' mv1' c1a = Ok ((m, mvf), c1') /\
                  v1' = num_min v1 mc).
        { unfold num_min. destruct (num_ltb mc v1); eauto. }
        destruct Hstep as (v1' & mv1' & H' & Ev1').
        destruct (IH v1' mv1' c1a m mvf c1' rc (Some a) alpha beta0
                     (num_min beta rc) c2a H' Hab)
          as (r & mv' & c2' & Er & Hr & Hcr).
        { clear - Hab Hv1 Hin Hout Hb Hw Eup Ecut Ev1'. num_bash. }
        { clear - Hab Hv1 Hin Hout Hb Hw Eup Ecut Ev1'. num_bash. }
        { clear - Hab Hv1 Hin Hout Hb Hw Eup Ecut Ev1'. num_bash. }
        { clear - Hab Hv1 Hin Hout Hb Hw Eup Ecut Ev1'. num_bash. }
        exists r, mv', c2'. split; [exact Er |]. split; [exact Hr | lia].
    + (* no improvement *)
      destruct (num_leb v2 alpha) eqn:Ecut.
      * exfalso. clear - Hab Hv1 Hin Hout Ecut. num_bash.
      * assert (Hstep : exists v1' mv1',
                  min_loop ch1 rest v1' mv1' c1a = Ok ((m, mvf), c1') /\
                  v1' = num_min v1 mc).
        { unfold num_min. destruct (num_ltb mc v1); eauto. }
        destruct Hstep as (v1' & mv1' & H' & Ev1').
        destruct (IH v1' mv1' c1a m mvf c1' v2 mv2 alpha beta0 beta c2a H' Hab)
          as (r & mv' & c2' & Er & Hr & Hcr).
        { clear - Hab Hv1 Hin Hout Hb Hw Eup Ecut Ev1'. num_bash. }
        { clear - Hab Hv1 Hin Hout Hb Hw Eup Ecut Ev1'. num_bash. }
        { clear - Hab Hv1 Hin Hout Hb Hw Eup Ecut Ev1'. num_bash. }
        { exact Hb. }
        exists r, mv', c2'. split; [exact Er |]. split; [exact Hr | lia].
Qed.

End LoopSimulation.

Section Simulation.

Variable get_actions : board -> res (list Z).

(** The counter only grows. *)
Lemma minimax_count fuel : forall state p c x c',
  (max_value get_actions fuel state p c = Ok (x, c') -> c < c') /\
  (min_value get_actions fuel state p c = Ok (x, c') -> c < c').
Proof.
  induction fuel as [| fuel IH]; intros state p c x c';
    [split; discriminate |].
  assert (Hch : forall (pl : string) (f : nat -> board -> string -> M Z (num * option Z)),
            (forall s c x c', f fuel s p c = Ok (x, c') -> c < c') ->
            forall a c x c',
              bind (lift (result state pl a)) (fun s' => f fuel s' p) c = Ok (x, c') ->
              c <= c').
  { intros pl f Hf a c0 x0 c0' H. unfold bind, lift in H.
    destruct (result state pl a); [| discriminate]. apply Hf in H. lia. }
  split; intros H; cbn [max_value min_value] in H;
    unfold bind at 1, incr_COUNT in H; unfold bind at 1, lift at 1 in H;
    (destruct (utility state p) as [[v |] | e]; [| | discriminate]);
    try (unfold ret in H; injection H as _ <-; lia);
    unfold bind at 1, lift at 1 in H;
    (destruct (get_actions state) as [l | e]; [| discriminate]).
  - eapply max_loop_count in H; [lia |].
    apply (Hch p (min_value get_actions)). intros s c0 x0 c0'. apply IH.
  - eapply min_loop_count in H; [lia |].
    apply (Hch (other p) (max_value get_actions)). intros s c0 x0 c0'. apply IH.
Qed.

(** Whenever exhaustive minimax returns at a node, so does the pruned
    search, for every window; its answer satisfies the window contract and
    it visits no more nodes. *)
Lemma alpha_beta_sim fuel : forall state p c1 c2 alpha beta m mv c1',
  num_ltb alpha beta = true ->
  (max_value get_actions fuel state p c1 = Ok ((m, mv), c1') ->
   exists r mv2 c2',
     max_value_ab get_actions fuel state p alpha beta c2 = Ok ((r, mv2), c2') /\
     within alpha beta r m /\ c2' - c2 <= c1' - c1) /\
  (min_value get_actions fuel state p c1 = Ok ((m, mv), c1') ->
   exists r mv2 c2',
     min_value_ab get_actions fuel state p alpha beta c2 = Ok ((r, mv2), c2') /\
     within alpha beta r m /\ c2' - c2 <= c1' - c1).
Proof.
  induction fuel as [| fuel IH]; intros state p c1 c2 alpha beta m mv c1' Hab;
    [split; discriminate |].
  split; intros H; cbn [max_value min_value] in H;
    cbn [max_value_ab min_value_ab];
    unfold bind at 1, incr_COUNT in H; unfold bind at 1, lift at 1 in H;
    unfold bind at 1, incr_COUNT; unfold bind at 1, lift at 1;
    (destruct (utility state p) as [[v |] | e]; [| | discriminate]);
    try (unfold ret in *; injection H as <- <- <-;
         exists (Int v), None, (c2 + 1); split; [reflexivity |];
         split; [clear; num_bash | lia]);
    unfold bind at 1, lift at 1 in H; unfold bind at 1, lift at 1;
    (destruct (get_actions state) as [l | e]; [| discriminate]).
  - eapply max_loop_sim with (alpha0 := alpha) (v2 := NegInf) (mv2 := @None Z)
      (alpha := alpha) (beta := beta) (c2 := c2 + 1) in H.
    + destruct H as (r & mv' & c2' & Er & Hr & Hc).
      exists r, mv', c2'. split; [exact Er |]. split; [exact Hr | lia].
    + intros a d1 d2 al be mc mvc d1' Hch Hwin. unfold bind, lift in Hch |- *.
      destruct (result state p a) as [s' |]; [| discriminate].
      apply (IH s' p d1 d2 al be mc mvc d1' Hwin). exact Hch.
    + intros a d x d' Hch. unfold bind, lift in Hch.
      destruct (result state p a) as [s' |]; [| discriminate].
      apply (minimax_count fuel s' p d x d') in Hch. lia.
    + exact Hab.
    + clear - Hab. num_bash.
    + clear. num_bash.
    + clear. num_bash.
    + clear. num_bash.
  - eapply min_loop_sim with (beta0 := beta) (v2 := PosInf) (mv2 := @None Z)
      (alpha := alpha) (beta := beta) (c2 := c2 + 1) in H.
    + destruct H as (r & mv' & c2' & Er & Hr & Hc).
      exists r, mv', c2'. split; [exact Er |]. split; [exact Hr | lia].
    + intros a d1 d2 al be mc mvc d1' Hch Hwin. unfold bind, lift in Hch |- *.
      destruct (result state (other p) a) as [s' |]; [| discriminate].
      apply (IH s' p d1 d2 al be mc mvc d1' Hwin). exact Hch.
    + intros a d x d' Hch. unfold bind, lift in Hch.
      destruct (result state (other p) a) as [s' |]; [| discriminate].
      apply (minimax_count fuel s' p d x d') in Hch. lia.
    + exact Hab.
    + clear - Hab. num_bash.
    + clear. num_bash.
    + clear. num_bash.
    + clear. num_bash.
Qed.

End Simulation.

(** ** The move returned by the pruned search *)

Lemma max_loop_ab_move (ch2 : Z -> num -> num -> M Z (num * option Z)) actions :
  forall v mv alpha beta c r mv' c',
  max_loop_ab ch2 actions v mv alpha beta c = Ok ((r, mv'), c') ->
  (r = v /\ mv' = mv) \/
  (exists a, In a actions /\ mv' = Some a /\ num_ltb v r = true).
Proof.
  induction actions as [| a rest IH]; intros v mv alpha beta c r mv' c' H;
    cbn [max_loop_ab] in H.
  - unfold ret in H. injection H as <- <- _. left. auto.
  - unfold bind at 1 in H.
    destruct (ch2 a alpha beta c) as [[[rc mvc] ca] | e]; [| discriminate].
    cbn [fst] in H. destruct (num_ltb v rc) eqn:Eup.
    + destruct (num_geb rc beta).
      * unfold ret in H. injection H as <- <- _. right.
        exists a. repeat split; auto. left; reflexivity.
      * apply IH in H. right.
        destruct H as [[-> ->] | (a' & Hin & -> & Hlt)].
        -- exists a. repeat split; auto. left; reflexivity.
        -- exists a'. repeat split; auto; [right; exact Hin |].
           eapply num_ltb_trans; eassumption.
    + destruct (num_geb v beta).
      * unfold ret in H. injection H as <- <- _. left. auto.
      * apply IH in H. destruct H as [[-> ->] | (a' & Hin & -> & Hlt)].
        -- left. auto.
        -- right. exists a'. repeat split; auto. right; exact Hin.
Qed.

Section TopLevel.

Variable get_actions : board -> res (list Z).
Hypothesis get_actions_ok : enumerates_legal get_actions.

Lemma max_value_ab_move fuel b p alpha beta c r mv c' :
  wf_board b -> is_player p ->
  max_value_ab get_actions fuel b p alpha beta c = Ok ((r, mv), c') ->
  (is_terminal b = Ok true /\ mv = None) \/
  (is_terminal b = Ok false /\
   ((mv = None /\ r = NegInf) \/ exists a, mv = Some a /\ legal b a)).
Proof.
  intros Hwf Hp H. destruct fuel as [| fuel]; [discriminate |].
  cbn [max_value_ab] in H.
  unfold bind at 1, incr_COUNT in H. unfold bind at 1, lift at 1 in H.
  destruct (utility_cases b p Hwf Hp) as [(v & Eu & _ & Ht) | (Eu & _ & Ht)];
    rewrite Eu in H.
  - unfold ret in H. injection H as _ <- _. left. auto.
  - right. split; [exact Ht |].
    destruct (get_actions_ok b Hwf) as (l & El & Hl).
    unfold bind at 1, lift at 1 in H. rewrite El in H.
    apply max_loop_ab_move in H.
    destruct H as [[-> ->] | (a & Hin & -> & _)]; [left; auto |].
    right. exists a. split; [reflexivity | apply Hl; exact Hin].
Qed.

(** Everything the two searches guarantee at the top level, on a
    well-formed board with enough fuel for its blank cells. *)
Lemma searches_spec fuel b p c1 c2 :
  wf_board b -> is_player p -> (count_empty b < fuel)%nat ->
  exists v mv1 mv2 n1 n2,
    minimax_search get_actions fuel b p c1
      = Ok ({| move := mv1; value := Int v |}, n1) /\
    alpha_beta_search get_actions fuel b p c2
      = Ok ({| move := mv2; value := Int v |}, n2) /\
    n2 <= n1 /\ -1 <= v <= 1 /\
    game_value p MaxTurn b v /\
    move_ok p MaxTurn b v mv1 /\
    (mv2 = None <-> is_terminal b = Ok true) /\
    (forall a, mv2 = Some a -> legal b a).
Proof.
  intros Hwf Hp Hfuel.
  destruct (minimax_spec get_actions get_actions_ok fuel p Hp b 0 Hwf Hfuel)
    as [(v & mv1 & n1 & E1 & Hn1 & Hv & Hg & Hmv) _].
  assert (Hwin : num_ltb NegInf PosInf = true) by reflexivity.
  destruct (alpha_beta_sim get_actions fuel b p 0 0 NegInf PosInf (Int v) mv1 n1 Hwin)
    as [Hsim _].
  destruct (Hsim E1) as (r & mv2 & n2 & E2 & Hr & Hn2).
  assert (r = Int v) as -> by (clear - Hr; destruct Hr as [Hr _]; apply Hr; reflexivity).
  pose proof (max_value_ab_move fuel b p NegInf PosInf 0 (Int v) mv2 n2 Hwf Hp E2) as Hm2.
  exists v, mv1, mv2, n1, n2.
  unfold minimax_search, alpha_beta_search, bind, reset_COUNT, ret.
  rewrite E1, E2. cbn [fst snd].
  split; [reflexivity |]. split; [reflexivity |]. split; [lia |].
  split; [lia |]. split; [exact Hg |]. split; [exact Hmv |].
  split; [split |].
  - intros ->. destruct Hm2 as [[Ht _] | [_ [[_ Habs] | (a' & Habs & _)]]];
      [exact Ht | discriminate | discriminate].
  - intros Ht. destruct Hm2 as [[_ Hm] | [Hf _]]; [exact Hm | congruence].
  - intros a0 ->. destruct Hm2 as [[_ Habs] | [_ [[Habs _] | (a' & Ea & Hl)]]];
      try discriminate. injection Ea as <-. exact Hl.
Qed.

End TopLevel.

(** ** The two enumerations of the actions *)

Lemma natural_enumerates_legal : enumerates_legal Natural.get_actions.
Proof.
  intros b _. exists (where_empty b 0). split; [reflexivity |].
  intros a. apply where_empty_legal.
Qed.

Lemma where_empty_mask b : forall i,
  where_empty b i = where_true (map (fun c => String.eqb c " ") b) i.
Proof.
  induction b as [| c b IH]; intros i; simpl; [reflexivity |].
  rewrite IH. reflexivity.
Qed.

Lemma blank_at_mask b a :
  blank_at b a = nth (Z.to_nat a) (map (fun c => String.eqb c " ") b) false.
Proof.
  unfold blank_at. generalize (Z.to_nat a) as k.
  induction b as [| c b IH]; intros [| k]; simpl; auto.
Qed.

Lemma priority_of_mask_order mask :
  length mask = 9%nat ->
  priority_of_mask mask
  = Ok (filter (fun a => nth (Z.to_nat a) mask false) priority_order).
Proof.
  intros Hlen.
  do 10 (destruct mask as [| ? mask]; try discriminate Hlen). clear Hlen.
  repeat match goal with
         | e : bool |- _ => destruct e
         end; reflexivity.
Qed.

(** The priority enumeration lists the blank cells in the order centre,
    corners from the last to the first, edges from the last to the first. *)
Lemma priority_get_actions_order b :
  length b = 9%nat ->
  Priority.get_actions b = Ok (filter (blank_at b) priority_order).
Proof.
  intros Hlen. unfold Priority.get_actions.
  rewrite where_empty_mask.
  change (priority_of_mask (map (fun c => String.eqb c " ") b)
          = Ok (filter (blank_at b) priority_order)).
  rewrite priority_of_mask_order by (rewrite length_map; exact Hlen).
  f_equal. apply filter_ext. intros a. symmetry. apply blank_at_mask.
Qed.

Lemma blank_at_legal b a : 0 <= a -> blank_at b a = true <-> legal b a.
Proof.
  intros Ha. unfold blank_at, legal.
  destruct (nth_error b (Z.to_nat a)) as [c |]; split.
  - intros H. apply String.eqb_eq in H. subst c. auto.
  - intros [_ H]. injection H as ->. reflexivity.
  - discriminate.
  - intros [_ H]. discriminate.
Qed.

Lemma priority_filter_legal b :
  length b = 9%nat ->
  forall a, In a (filter (blank_at b) priority_order) <-> legal b a.
Proof.
  intros Hlen a. rewrite filter_In. split.
  - intros [Hin Hb]. apply blank_at_legal; [| exact Hb].
    unfold priority_order in Hin. simpl in Hin. lia.
  - intros Hl. split; [| apply blank_at_legal; [apply Hl | exact Hl]].
    apply legal_in_range in Hl. rewrite Hlen in Hl.
    unfold priority_order. simpl.
    assert (a = 0 \/ a = 1 \/ a = 2 \/ a = 3 \/ a = 4 \/ a = 5 \/ a = 6 \/
            a = 7 \/ a = 8) by lia.
    intuition auto.
Qed.

Lemma priority_enumerates_legal : enumerates_legal Priority.get_actions.
Proof.
  intros b [Hlen _]. exists (filter (blank_at b) priority_order).
  split; [apply priority_get_actions_order; exact Hlen |].
  apply priority_filter_legal; exact Hlen.
Qed.

(** ** The game value is unique *)

Lemma result_deterministic_child b p a :
  wf_board b -> is_player p -> legal b a ->
  forall b', result b p a = Ok b' ->
    wf_board b' /\ S (count_empty b') = count_empty b.
Proof.
  intros Hwf Hp Hl b' E.
  destruct (result_child b p a Hwf Hp Hl) as (b'' & E' & H).
  rewrite E in E'. injection E' as <-. exact H.
Qed.

Lemma game_value_unique p :
  is_player p ->
  forall k b t v w,
    wf_board b -> (count_empty b < k)%nat ->
    game_value p t b v -> game_value p t b w -> v = w.
Proof.
  intros Hp. induction k as [| k IH]; intros b t v w Hwf Hk Hv Hw; [lia |].
  assert (Hle : forall pl t' x y,
            is_player pl ->
            (exists a b', legal b a /\ result b pl a = Ok b' /\
                          game_value p t' b' x) ->
            (forall a, legal b a ->
               exists b' z, result b pl a = Ok b' /\
                            game_value p t' b' z /\ (z <= y)) ->
            x <= y).
  { intros pl t' x y Hpl (a & b' & Hl & Eb & Hg) Hall.
    destruct (Hall a Hl) as (b'' & z & Eb' & Hg' & Hz).
    rewrite Eb in Eb'. injection Eb' as <-.
    destruct (result_deterministic_child b pl a Hwf Hpl Hl b' Eb) as [Hwf' Hc].
    rewrite (IH b' t' x z Hwf' ltac:(lia) Hg Hg'). exact Hz. }
  assert (Hge : forall pl t' x y,
            is_player pl ->
            (exists a b', legal b a /\ result b pl a = Ok b' /\
                          game_value p t' b' x) ->
            (forall a, legal b a ->
               exists b' z, result b pl a = Ok b' /\
                            game_value p t' b' z /\ (y <= z)) ->
            y <= x).
  { intros pl t' x y Hpl (a & b' & Hl & Eb & Hg) Hall.
    destruct (Hall a Hl) as (b'' & z & Eb' & Hg' & Hz).
    rewrite Eb in Eb'. injection Eb' as <-.
    destruct (result_deterministic_child b pl a Hwf Hpl Hl b' Eb) as [Hwf' Hc].
    rewrite (IH b' t' x z Hwf' ltac:(lia) Hg Hg'). exact Hz. }
  inversion Hv; subst; inversion Hw; subst; try congruence.
  - assert (v <= w) by (eapply (Hle p MinTurn); eauto).
    assert (w <= v) by (eapply (Hle p MinTurn); eauto).
    lia.
  - pose proof (other_player p Hp) as Hop.
    assert (w <= v) by (eapply (Hge (other p) MaxTurn); eauto).
    assert (v <= w) by (eapply (Hge (other p) MaxTurn); eauto).
    lia.
Qed.

(** * The claims about the state model and the exhaustive searches *)

Lemma searches_spec_both fuel b p c1 c2 :
  wf_board b -> is_player p -> (count_empty b < fuel)%nat ->
  both_orderings (fun get_actions =>
    exists v mv1 mv2 n1 n2,
      minimax_search get_actions fuel b p c1
        = Ok ({| move := mv1; value := Int v |}, n1) /\
      alpha_beta_search get_actions fuel b p c2
        = Ok ({| move := mv2; value := Int v |}, n2) /\
      n2 <= n1 /\ -1 <= v <= 1 /\
      game_value p MaxTurn b v /\
      move_ok p MaxTurn b v mv1 /\
      (mv2 = None <-> is_terminal b = Ok true) /\
      (forall a, mv2 = Some a -> legal b a)).
Proof.
  intros Hwf Hp Hfuel. split.
  - apply searches_spec; auto using natural_enumerates_legal.
  - apply searches_spec; auto using priority_enumerates_legal.
Qed.

(** C1. On every well-formed board and for either player, with fuel for
    the blank cells, the alpha-beta search and the exhaustive minimax search
    both return, and they return the same value; this holds under the
    natural and under the priority enumeration of the actions. *)
Theorem alpha_beta_value_equals_minimax b p fuel c1 c2 :
  wf_board b -> is_player p -> (count_empty b < fuel)%nat ->
  both_orderings (fun get_actions =>
    exists r1 n1 r2 n2,
      minimax_search get_actions fuel b p c1 = Ok (r1, n1) /\
      alpha_beta_search get_actions fuel b p c2 = Ok (r2, n2) /\
      value r2 = value r1).
Proof.
  intros Hwf Hp Hfuel.
  destruct (searches_spec_both fuel b p c1 c2 Hwf Hp Hfuel) as [H1 H2].
  split; [destruct H1 as (v & mv1 & mv2 & n1 & n2 & E1 & E2 & _)
         | destruct H2 as (v & mv1 & mv2 & n1 & n2 & E1 & E2 & _)];
    rewrite E1, E2; do 4 eexists; repeat split.
Qed.

Lemma alpha_beta_value_equals_minimax_witness :
  wf_board b_win8 /\ is_player "x" /\ (count_empty b_win8 < 10)%nat /\
  both_orderings (fun get_actions =>
    exists r1 n1 r2 n2,
      minimax_search get_actions 10 b_win8 "x" 0 = Ok (r1, n1) /\
      alpha_beta_search get_actions 10 b_win8 "x" 0 = Ok (r2, n2) /\
      value r2 = value r1).
Proof.
  assert (Hwf : wf_board b_win8) by (split; reflexivity).
  assert (Hp : is_player "x") by (left; reflexivity).
  assert (Hf : (count_empty b_win8 < 10)%nat) by (vm_compute; lia).
  split; [exact Hwf |]. split; [exact Hp |]. split; [exact Hf |].
  exact (alpha_beta_value_equals_minimax b_win8 "x" 10%nat 0 0 Hwf Hp Hf).
Defined.

(** C2. The value returned by exhaustive minimax is the game value of the
    position for the maximizing player, which is unique, and a returned
    action leads to a child that has this value with the opponent to move. *)
Theorem minimax_returns_game_value b p fuel c :
  wf_board b -> is_player p -> (count_empty b < fuel)%nat ->
  both_orderings (fun get_actions =>
    exists v mv n,
      minimax_search get_actions fuel b p c
        = Ok ({| move := mv; value := Int v |}, n) /\
      game_value p MaxTurn b v /\
      (forall w, game_value p MaxTurn b w -> w = v) /\
      (forall a, mv = Some a ->
         exists b', result b p a = Ok b' /\ game_value p MinTurn b' v)).
Proof.
  intros Hwf Hp Hfuel.
  destruct (searches_spec_both fuel b p c 0 Hwf Hp Hfuel) as [H1 H2].
  split; [destruct H1 as (v & mv1 & mv2 & n1 & n2 & E1 & _ & _ & _ & Hg & Hmv & _)
         | destruct H2 as (v & mv1 & mv2 & n1 & n2 & E1 & _ & _ & _ & Hg & Hmv & _)];
    exists v, mv1, n1; (split; [exact E1 |]); (split; [exact Hg |]); split.
  all: try (intros w Hw; eapply game_value_unique; eauto).
  all: intros a ->; destruct Hmv as (_ & _ & Hch); exact Hch.
Qed.

Lemma minimax_returns_game_value_witness :
  wf_board b_draw7 /\ is_player "x" /\ (count_empty b_draw7 < 10)%nat /\
  both_orderings (fun get_actions =>
    exists v mv n,
      minimax_search get_actions 10 b_draw7 "x" 0
        = Ok ({| move := mv; value := Int v |}, n) /\
      game_value "x" MaxTurn b_draw7 v /\
      (forall w, game_value "x" MaxTurn b_draw7 w -> w = v) /\
      (forall a, mv = Some a ->
         exists b', result b_draw7 "x" a = Ok b' /\
                    game_value "x" MinTurn b' v)).
Proof.
  assert (Hwf : wf_board b_draw7) by (split; reflexivity).
  assert (Hp : is_player "x") by (left; reflexivity).
  assert (Hf : (count_empty b_draw7 < 10)%nat) by (vm_compute; lia).
  split; [exact Hwf |]. split; [exact Hp |]. split; [exact Hf |].
  exact (minimax_returns_game_value b_draw7 "x" 10%nat 0 Hwf Hp Hf).
Defined.

(** What [result] does on an occupied cell, in general. *)
Lemma result_occupied b p a k :
  py_index b a = Ok k -> String.eqb (nth k b " ") " " = false ->
  result_out b p a = Ok (list_set b k p, ["Error: Illegal move!"]).
Proof.
  intros Ek Hc. unfold result_out, py_get, py_set, res_bind.
  rewrite Ek, Hc. reflexivity.
Qed.

(** C3 (the code departs from the claim).  Applying a move to an occupied
    cell does not fail: [result] prints its message and returns the board
    with the cell overwritten. *)
Theorem result_overwrites_occupied_cell :
  result_out ["x";" ";" "; " ";" ";" "; " ";" ";" "] "o" 0
  = Ok (["o";" ";" "; " ";" ";" "; " ";" ";" "], ["Error: Illegal move!"]) /\
  result ["x";" ";" "; " ";" ";" "; " ";" ";" "] "o" 0
  = Ok ["o";" ";" "; " ";" ";" "; " ";" ";" "].
Proof. split; reflexivity. Qed.

(** C4. Both searches return no action exactly on a terminal board; on a
    board that is not terminal the action is present and is legal. *)
Theorem search_move_absent_iff_terminal b p fuel c1 c2 :
  wf_board b -> is_player p -> (count_empty b < fuel)%nat ->
  both_orderings (fun get_actions =>
    exists r1 n1 r2 n2,
      minimax_search get_actions fuel b p c1 = Ok (r1, n1) /\
      alpha_beta_search get_actions fuel b p c2 = Ok (r2, n2) /\
      (move r1 = None <-> is_terminal b = Ok true) /\
      (move r2 = None <-> is_terminal b = Ok true) /\
      (is_terminal b = Ok false ->
         exists a1 a2, move r1 = Some a1 /\ legal b a1 /\
                       move r2 = Some a2 /\ legal b a2)).
Proof.
  intros Hwf Hp Hfuel.
  assert (Hgen : forall get_actions,
    (exists v mv1 mv2 n1 n2,
      minimax_search get_actions fuel b p c1
        = Ok ({| move := mv1; value := Int v |}, n1) /\
      alpha_beta_search get_actions fuel b p c2
        = Ok ({| move := mv2; value := Int v |}, n2) /\
      n2 <= n1 /\ -1 <= v <= 1 /\
      game_value p MaxTurn b v /\
      move_ok p MaxTurn b v mv1 /\
      (mv2 = None <-> is_terminal b = Ok true) /\
      (forall a, mv2 = Some a -> legal b a)) ->
    exists r1 n1 r2 n2,
      minimax_search get_actions fuel b p c1 = Ok (r1, n1) /\
      alpha_beta_search get_actions fuel b p c2 = Ok (r2, n2) /\
      (move r1 = None <-> is_terminal b = Ok true) /\
      (move r2 = None <-> is_terminal b = Ok true) /\
      (is_terminal b = Ok false ->
         exists a1 a2, move r1 = Some a1 /\ legal b a1 /\
                       move r2 = Some a2 /\ legal b a2)).
  { intros ga (v & mv1 & mv2 & n1 & n2 & E1 & E2 & _ & _ & _ & Hmv & Hnone & Hleg).
    rewrite E1, E2. do 4 eexists. split; [reflexivity |]. split; [reflexivity |].
    cbn [move].
    assert (H1 : mv1 = None <-> is_terminal b = Ok true).
    { destruct mv1 as [a |]; cbn in Hmv; split; intros H; try discriminate; auto.
      destruct Hmv as [Hf _]. congruence. }
    split; [exact H1 |]. split; [exact Hnone |].
    intros Hf.
    destruct mv1 as [a1 |]; [| exfalso; destruct H1 as [H1 _];
                                specialize (H1 eq_refl); congruence].
    destruct mv2 as [a2 |]; [| exfalso; destruct Hnone as [H2 _];
                                specialize (H2 eq_refl); congruence].
    exists a1, a2. destruct Hmv as (_ & Hl1 & _). auto. }
  destruct (searches_spec_both fuel b p c1 c2 Hwf Hp Hfuel) as [H1 H2].
  split; apply Hgen; assumption.
Qed.

Lemma search_move_absent_iff_terminal_witness :
  wf_board b_lost /\ is_player "x" /\ (count_empty b_lost < 10)%nat /\
  both_orderings (fun get_actions =>
    exists r1 n1 r2 n2,
      minimax_search get_actions 10 b_lost "x" 0 = Ok (r1, n1) /\
      alpha_beta_search get_actions 10 b_lost "x" 0 = Ok (r2, n2) /\
      (move r1 = None <-> is_terminal b_lost = Ok true) /\
      (move r2 = None <-> is_terminal b_lost = Ok true) /\
      (is_terminal b_lost = Ok false ->
         exists a1 a2, move r1 = Some a1 /\ legal b_lost a1 /\
                       move r2 = Some a2 /\ legal b_lost a2)).
Proof.
  assert (Hwf : wf_board b_lost) by (split; reflexivity).
  assert (Hp : is_player "x") by (left; reflexivity).
  assert (Hf : (count_empty b_lost < 10)%nat) by (vm_compute; lia).
  split; [exact Hwf |]. split; [exact Hp |]. split; [exact Hf |].
  exact (search_move_absent_iff_terminal b_lost "x" 10%nat 0 0 Hwf Hp Hf).
Defined.

(** C6. The node counter left by the alpha-beta search is at most the one
    left by exhaustive minimax on the same board and player; both searches
    reset the counter when they start. *)
Theorem alpha_beta_visits_no_more_nodes b p fuel c1 c2 :
  wf_board b -> is_player p -> (count_empty b < fuel)%nat ->
  both_orderings (fun get_actions =>
    exists r1 n1 r2 n2,
      minimax_search get_actions fuel b p c1 = Ok (r1, n1) /\
      alpha_beta_search get_actions fuel b p c2 = Ok (r2, n2) /\
      n2 <= n1).
Proof.
  intros Hwf Hp Hfuel.
  destruct (searches_spec_both fuel b p c1 c2 Hwf Hp Hfuel) as [H1 H2].
  split; [destruct H1 as (v & mv1 & mv2 & n1 & n2 & E1 & E2 & Hn & _)
         | destruct H2 as (v & mv1 & mv2 & n1 & n2 & E1 & E2 & Hn & _)];
    rewrite E1, E2; do 4 eexists; repeat split; exact Hn.
Qed.

Lemma alpha_beta_visits_no_more_nodes_witness :
  wf_board b_draw7 /\ is_player "o" /\ (count_empty b_draw7 < 10)%nat /\
  both_orderings (fun get_actions =>
    exists r1 n1 r2 n2,
      minimax_search get_actions 10 b_draw7 "o" 5 = Ok (r1, n1) /\
      alpha_beta_search get_actions 10 b_draw7 "o" 7 = Ok (r2, n2) /\
      n2 <= n1).
Proof.
  assert (Hwf : wf_board b_draw7) by (split; reflexivity).
  assert (Hp : is_player "o") by (right; reflexivity).
  assert (Hf : (count_empty b_draw7 < 10)%nat) by (vm_compute; lia).
  split; [exact Hwf |]. split; [exact Hp |]. split; [exact Hf |].
  exact (alpha_beta_visits_no_more_nodes b_draw7 "o" 10%nat 5 7 Hwf Hp Hf).
Defined.

(** C7. On every board of 9 cells the priority enumeration returns exactly
    the indices of the blank cells, in the order 4, 8, 6, 2, 0, 7, 5, 3, 1:
    the centre, then the corners in descending order, then the edges in
    descending order.  On the blank board it returns that whole list. *)
Theorem priority_get_actions_spec b :
  length b = 9%nat ->
  Priority.get_actions b = Ok (filter (blank_at b) [4; 8; 6; 2; 0; 7; 5; 3; 1]) /\
  (forall a, In a (filter (blank_at b) [4; 8; 6; 2; 0; 7; 5; 3; 1]) <-> legal b a) /\
  Priority.get_actions empty_board = Ok [4; 8; 6; 2; 0; 7; 5; 3; 1].
Proof.
  intros Hlen. split; [apply priority_get_actions_order; exact Hlen |].
  split; [apply priority_filter_legal; exact Hlen | reflexivity].
Qed.

Lemma priority_get_actions_spec_witness :
  length b_win8 = 9%nat /\
  Priority.get_actions b_win8
    = Ok (filter (blank_at b_win8) [4; 8; 6; 2; 0; 7; 5; 3; 1]) /\
  (forall a, In a (filter (blank_at b_win8) [4; 8; 6; 2; 0; 7; 5; 3; 1])
             <-> legal b_win8 a) /\
  Priority.get_actions empty_board = Ok [4; 8; 6; 2; 0; 7; 5; 3; 1].
Proof.
  split; [reflexivity |].
  apply (priority_get_actions_spec b_win8). reflexivity.
Defined.

(** C8. On a terminal well-formed board the utility for x is the opposite
    of the utility for o, and both are 0 when the board is a draw. *)
Theorem utility_perspective_swap b :
  wf_board b -> is_terminal b = Ok true ->
  exists ux uo,
    utility b "x" = Ok (Some ux) /\ utility b "o" = Ok (Some uo) /\
    ux = - uo /\
    (check_win b = Ok "d" -> ux = 0 /\ uo = 0).
Proof.
  intros Hwf Ht. unfold is_terminal, res_map in Ht. unfold utility.
  destruct (check_win_cases b Hwf) as [E | [E | [[E _] | [E _]]]];
    rewrite E in *; cbn in *; try discriminate.
  - exists 1, (-1). repeat split; try discriminate.
  - exists (-1), 1. repeat split; try discriminate.
  - exists 0, 0. repeat split.
Qed.

Lemma utility_perspective_swap_witness :
  wf_board (repeat "x" 9) /\ is_terminal (repeat "x" 9) = Ok true /\
  exists ux uo,
    utility (repeat "x" 9) "x" = Ok (Some ux) /\
    utility (repeat "x" 9) "o" = Ok (Some uo) /\
    ux = - uo /\
    (check_win (repeat "x" 9) = Ok "d" -> ux = 0 /\ uo = 0).
Proof.
  assert (Hwf : wf_board (repeat "x" 9)) by (split; reflexivity).
  assert (Ht : is_terminal (repeat "x" 9) = Ok true) by reflexivity.
  split; [exact Hwf |]. split; [exact Ht |].
  exact (utility_perspective_swap (repeat "x" 9) Hwf Ht).
Defined.

(** * The Monte Carlo search *)

(** ** [max] and [index] *)

Lemma max_scan_pos {A} (gtb : A -> A -> bool) l : forall i best,
  (fst best < i)%nat ->
  (fst (max_scan gtb l i best) < i + length l)%nat.
Proof.
  induction l as [| x t IH]; intros i best Hb; simpl; [lia |].
  destruct (gtb x (snd best)).
  - specialize (IH (S i) (i, x)). simpl in IH. lia.
  - specialize (IH (S i) best). lia.
Qed.

Lemma index_scan_ok {A} (eqb : A -> A -> bool) l : forall i m,
  (i <= fst m < i + length l)%nat ->
  exists k, index_scan eqb l i m = Ok k /\ (i <= k <= fst m)%nat.
Proof.
  induction l as [| x t IH]; intros i m Hm; simpl in *; [lia |].
  destruct (i =? fst m)%nat eqn:E.
  - exists i. simpl. split; [reflexivity | lia].
  - apply Nat.eqb_neq in E. simpl.
    destruct (eqb x (snd m)).
    + exists i. split; [reflexivity | lia].
    + destruct (IH (S i) m) as (k & Ek & Hk); [lia |].
      exists k. split; [exact Ek | lia].
Qed.

Lemma index_of_max_ok {A} (gtb eqb : A -> A -> bool) l :
  l <> [] ->
  exists k, index_of_max gtb eqb l = Ok k /\ (k < length l)%nat.
Proof.
  intros Hne. destruct l as [| x t]; [congruence |].
  unfold index_of_max, py_max, res_bind.
  pose proof (max_scan_pos gtb t 1 (0%nat, x)) as Hpos. simpl in Hpos.
  destruct (index_scan_ok eqb (x :: t) 0 (max_scan gtb t 1 (0%nat, x)))
    as (k & Ek & Hk).
  { simpl. lia. }
  exists k. split; [exact Ek |]. simpl. lia.
Qed.

Lemma index_of_max_nil {A} (gtb eqb : A -> A -> bool) :
  index_of_max gtb eqb [] = Raise ValueError.
Proof. reflexivity. Qed.

Lemma max_scan_zeros k : forall i best,
  snd best = 0 -> max_scan Z.gtb (repeat 0 k) i best = best.
Proof.
  induction k as [| k IH]; intros i best Hb; simpl; [reflexivity |].
  rewrite Hb. simpl. apply IH. exact Hb.
Qed.

Lemma index_of_max_zeros k :
  index_of_max Z.gtb Z.eqb (repeat 0 (S k)) = Ok 0%nat.
Proof.
  change (repeat 0 (S k)) with (0 :: repeat 0 k).
  unfold index_of_max, py_max, res_bind.
  rewrite max_scan_zeros by reflexivity. reflexivity.
Qed.

Lemma list_get_ok {A} (l : list A) k :
  (k < length l)%nat -> exists x, list_get l k = Ok x /\ In x l.
Proof.
  intros Hk. unfold list_get.
  destruct (nth_error l k) as [x |] eqn:E.
  - exists x. split; [reflexivity | eapply nth_error_In; exact E].
  - apply nth_error_None in E. lia.
Qed.

(** ** Playouts *)

Lemma py_index_lt {A} (l : list A) i k :
  py_index l i = Ok k -> (k < length l)%nat.
Proof.
  unfold py_index.
  destruct ((0 <=? i) && (i <? Z.of_nat (length l))) eqn:E1.
  - intros H. injection H as <-. apply andb_true_iff in E1. lia.
  - destruct ((- Z.of_nat (length l) <=? i) && (i <? 0)) eqn:E2; [| discriminate].
    intros H. injection H as <-. apply andb_true_iff in E2. lia.
Qed.

Lemma result_py_index b p a :
  result b p a = res_bind (py_index b a) (fun k => Ok (list_set b k p)).
Proof.
  unfold result, result_out, py_get, py_set, res_map, res_bind.
  destruct (py_index b a); reflexivity.
Qed.

Lemma list_set_count_lt b : forall k p,
  (k < length b)%nat -> String.eqb p " " = false ->
  (count_empty (list_set b k p) < length b)%nat.
Proof.
  unfold count_empty.
  induction b as [| c b IH]; intros [| k] p Hk Hp; simpl in *; try lia.
  - rewrite Hp. pose proof (filter_length_le (fun c => String.eqb c " ") b). lia.
  - specialize (IH k p ltac:(lia) Hp).
    destruct (String.eqb c " "); simpl; lia.
Qed.

(** Any move of a player on a well-formed board, legal or not, either
    raises [IndexError] or leaves a well-formed board with at most 8 blank
    cells. *)
Lemma result_any b p a :
  wf_board b -> is_player p ->
  (exists b', result b p a = Ok b' /\ wf_board b' /\ (count_empty b' <= 8)%nat) \/
  (result b p a = Raise IndexError).
Proof.
  intros [Hlen Hcells] Hp. rewrite result_py_index. unfold res_bind.
  destruct (py_index b a) as [k | e] eqn:E.
  - left. exists (list_set b k p). split; [reflexivity |].
    apply py_index_lt in E. split.
    + split; [rewrite list_set_length; exact Hlen |].
      apply list_set_forallb; [exact Hcells | apply is_player_cell; exact Hp].
    + pose proof (list_set_count_lt b k p E (is_player_not_blank p Hp)). lia.
  - right. unfold py_index in E.
    destruct ((0 <=? a) && (a <? Z.of_nat (length b)));
      [discriminate |].
    destruct ((- Z.of_nat (length b) <=? a) && (a <? 0)); [discriminate |].
    injection E as <-. reflexivity.
Qed.

Section Playouts.

Variable rng : nat -> nat.

Lemma random_choice_ok (l : list Z) k :
  l <> [] -> exists a, random_choice rng l k = Ok (a, S k) /\ In a l.
Proof.
  intros Hne. unfold random_choice. destruct l as [| x t]; [congruence |].
  eexists. split; [reflexivity |]. apply nth_In.
  apply Nat.mod_upper_bound. simpl. lia.
Qed.

(** The loop of a playout returns within one pass per blank cell, plus the
    pass that sees the terminal board; every pass but the last applies one
    move and draws one random number. *)
Lemma playout_loop_ok fuel : forall b p cur k,
  wf_board b -> is_player p -> is_player cur ->
  (count_empty b < fuel)%nat ->
  exists v k',
    playout_loop rng fuel b p cur k = Ok (v, k') /\ -1 <= v <= 1 /\
    (k <= k' <= k + count_empty b)%nat.
Proof.
  induction fuel as [| fuel IH]; intros b p cur k Hwf Hp Hcur Hfuel; [lia |].
  cbn [playout_loop]. unfold bind at 1, lift at 1.
  destruct (utility_cases b p Hwf Hp) as [(v & Eu & Hv & _) | (Eu & Hn & _)];
    rewrite Eu.
  - exists v, k. unfold ret. split; [reflexivity |]. split; [exact Hv | lia].
  - unfold bind at 1, lift at 1, Natural.get_actions.
    assert (Hne : where_empty b 0 <> []).
    { intros E. apply where_empty_nil in E. lia. }
    destruct (random_choice_ok (where_empty b 0) k Hne) as (a & Ea & Hin).
    unfold bind at 1. rewrite Ea.
    apply where_empty_legal in Hin.
    destruct (result_child b cur a Hwf Hcur Hin) as (b' & Eb' & Hwf' & Hcnt).
    unfold bind at 1, lift at 1. rewrite Eb'.
    destruct (IH b' p (other cur) (S k) Hwf' Hp (other_player cur Hcur) ltac:(lia))
      as (v & k' & Ev & Hv & Hk).
    exists v, k'. split; [exact Ev |]. split; [exact Hv | lia].
Qed.

Lemma playout_ok fuel b a p k :
  wf_board b -> is_player p -> (9 <= fuel)%nat ->
  (exists v k',
     playout rng fuel b a p k = Ok (v, k') /\ -1 <= v <= 1 /\
     (k <= k' <= k + 8)%nat) \/
  (playout rng fuel b a p k = Raise IndexError /\
   py_index b a = Raise IndexError).
Proof.
  intros Hwf Hp Hfuel. unfold playout, bind, lift.
  destruct (result_any b p a Hwf Hp) as [(b' & Eb' & Hwf' & Hcnt) | E].
  - left. rewrite Eb'.
    destruct (playout_loop_ok fuel b' p (other p) k Hwf' Hp (other_player p Hp)
                ltac:(lia)) as (v & k' & Ev & Hv & Hk).
    exists v, k'. split; [exact Ev |]. split; [exact Hv | lia].
  - right. rewrite E. split; [reflexivity |].
    rewrite result_py_index in E. unfold res_bind in E.
    destruct (py_index b a) as [? | e]; [discriminate |].
    injection E as ->. reflexivity.
Qed.

Lemma playout_legal_ok fuel b a p k :
  wf_board b -> is_player p -> (9 <= fuel)%nat -> legal b a ->
  exists v k',
    playout rng fuel b a p k = Ok (v, k') /\ -1 <= v <= 1 /\
    (k <= k' <= k + 8)%nat.
Proof.
  intros Hwf Hp Hfuel Hl.
  destruct (playout_ok fuel b a p k Hwf Hp Hfuel) as [H | [_ E]]; [exact H |].
  rewrite (py_index_in_range b a (legal_in_range b a Hl)) in E. discriminate.
Qed.

End Playouts.

(** ** The UCB1 loop *)

Section UCT.

Variable fo : float_ops.
Variable rng : nat -> nat.

Lemma update_UCB1_length C len us ns np ucb :
  length (update_UCB1 fo C len us ns np ucb) = length ucb.
Proof.
  unfold update_UCB1. generalize (seq 0 len) as ids. intros ids. revert ucb.
  induction ids as [| i ids IH]; intros ucb; simpl; [reflexivity |].
  rewrite IH. destruct (0 <? nth i ns 0); [apply list_set_length | reflexivity].
Qed.

Lemma uct_iteration_ok fuel b p C st k :
  wf_board b -> is_player p -> (9 <= fuel)%nat -> (0 < count_empty b)%nat ->
  stats_ok (length (where_empty b 0)) st ->
  exists st' k',
    uct_iteration fo rng fuel b p C (where_empty b 0) st k = Ok (st', k') /\
    stats_ok (length (where_empty b 0)) st' /\
    n_parent st' = n_parent st + 1.
Proof.
  intros Hwf Hp Hfuel Hn (Hu & Hcnt & Hucb).
  pose proof (where_empty_length b 0) as Hlen.
  unfold uct_iteration.
  destruct (index_of_max_ok (f_gtb fo) (f_eqb fo) (UCB1 st)) as (id & Eid & Hid).
  { intros E. rewrite E in Hucb. simpl in Hucb. lia. }
  unfold bind at 1, lift at 1. rewrite Eid.
  destruct (list_get_ok (where_empty b 0) id) as (a & Ea & Hin); [lia |].
  unfold bind at 1, lift at 1. rewrite Ea.
  apply where_empty_legal in Hin.
  destruct (playout_legal_ok rng fuel b a p k Hwf Hp Hfuel Hin)
    as (v & k' & Ev & _ & _).
  unfold bind at 1. rewrite Ev. unfold ret.
  eexists. exists k'. split; [reflexivity |]. cbn [u n n_parent UCB1].
  split; [| reflexivity].
  unfold stats_ok. cbn [u n n_parent UCB1].
  rewrite update_UCB1_length, !list_set_length. auto.
Qed.

Lemma uct_iterate_ok fuel b p C : forall iterations st k,
  wf_board b -> is_player p -> (9 <= fuel)%nat -> (0 < count_empty b)%nat ->
  stats_ok (length (where_empty b 0)) st ->
  exists st' k',
    uct_iterate fo rng iterations fuel b p C (where_empty b 0) st k
      = Ok (st', k') /\
    stats_ok (length (where_empty b 0)) st' /\
    n_parent st' = n_parent st + Z.of_nat iterations.
Proof.
  induction iterations as [| i IH]; intros st k Hwf Hp Hfuel Hn Hst.
  - exists st, k. split; [reflexivity |]. split; [exact Hst | simpl; lia].
  - cbn [uct_iterate].
    destruct (uct_iteration_ok fuel b p C st k Hwf Hp Hfuel Hn Hst)
      as (st1 & k1 & E1 & Hst1 & Hn1).
    unfold bind at 1. rewrite E1.
    destruct (IH st1 k1 Hwf Hp Hfuel Hn Hst1) as (st' & k' & E' & Hst' & Hn').
    exists st', k'. split; [exact E' |]. split; [exact Hst' | lia].
Qed.

(** On a well-formed board with a blank cell the loop runs its [N] passes
    and the search returns a legal action. *)
Lemma UCT_ok fuel b N p k :
  wf_board b -> is_player p -> (9 <= fuel)%nat -> (0 < count_empty b)%nat ->
  exists st k' a,
    UCT_loop fo rng fuel b N p k = Ok ((where_empty b 0, st), k') /\
    n_parent st = Z.max 0 N /\
    UCT_depth1 fo rng fuel b N p k = Ok (a, k') /\ legal b a.
Proof.
  intros Hwf Hp Hfuel Hn.
  pose proof (where_empty_length b 0) as Hlen.
  unfold UCT_depth1, UCT_loop, Natural.get_actions, bind, lift, ret.
  match goal with
  | |- context [ uct_iterate fo rng ?it fuel b p ?C _ ?st0 k ] =>
      destruct (uct_iterate_ok fuel b p C it st0 k Hwf Hp Hfuel Hn)
        as (st & k' & E & (Hu & Hcnt & Hucb) & Hnp)
  end.
  { unfold stats_ok. cbn [u n UCB1]. rewrite !repeat_length. auto. }
  cbn [n_parent] in Hnp.
  exists st, k'.
  destruct (index_of_max_ok Z.gtb Z.eqb (n st)) as (best & Eb & Hb).
  { intros E0. rewrite E0 in Hcnt. simpl in Hcnt. lia. }
  destruct (list_get_ok (where_empty b 0) best) as (a & Ea & Hin); [lia |].
  exists a. rewrite E. cbn [fst snd]. rewrite Eb, Ea.
  split; [reflexivity |]. split; [lia |]. split; [reflexivity |].
  apply where_empty_legal. exact Hin.
Qed.

(** With a budget of zero or less the loop body never runs: the
    statistics are left as they were initialised and no random number is
    drawn. *)
Lemma UCT_loop_no_budget fuel b N p k :
  N <= 0 ->
  UCT_loop fo rng fuel b N p k
  = Ok ((where_empty b 0,
         {| u := repeat 0 (length (where_empty b 0));
            n := repeat 0 (length (where_empty b 0));
            n_parent := 0;
            UCB1 := repeat (f_inf fo) (length (where_empty b 0)) |}), k).
Proof.
  intros HN. unfold UCT_loop, Natural.get_actions.
  replace (Z.to_nat N) with 0%nat by lia.
  reflexivity.
Qed.

(** On a board without a blank cell the first pass of the loop fails in
    the [max] of the selection step. *)
Lemma UCT_no_action fuel b N p k :
  count_empty b = 0%nat -> 1 <= N ->
  UCT_loop fo rng fuel b N p k = Raise ValueError /\
  UCT_depth1 fo rng fuel b N p k = Raise ValueError.
Proof.
  intros Hc HN. apply where_empty_nil in Hc.
  unfold UCT_depth1, UCT_loop, Natural.get_actions. rewrite Hc.
  destruct (Z.to_nat N) as [| i] eqn:E; [lia |].
  cbn [uct_iterate length repeat]. unfold uct_iteration.
  unfold bind, lift, ret. cbn [UCB1 length repeat]. rewrite index_of_max_nil.
  split; reflexivity.
Qed.

End UCT.

(** * The claims about termination and the Monte Carlo search *)

(** C5 (amended).  The Monte Carlo search does not validate its budget:
    with [N <= 0] it runs no playout and returns the first blank cell of the
    board; only a board without a blank cell makes it fail, with the
    [ValueError] of [max] on an empty list. *)
Theorem uct_nonpositive_budget_returns_first_action fo rng fuel b N p k :
  N <= 0 ->
  UCT_depth1 fo rng fuel b N p k
  = match hd_error (where_empty b 0) with
    | Some a => Ok (a, k)
    | None => Raise ValueError
    end.
Proof.
  intros HN. unfold UCT_depth1, bind.
  rewrite UCT_loop_no_budget by exact HN. cbn [fst snd n].
  destruct (where_empty b 0) as [| a l]; [reflexivity |].
  cbn [length hd_error]. unfold lift. rewrite index_of_max_zeros.
  reflexivity.
Qed.

Lemma uct_nonpositive_budget_returns_first_action_witness :
  -3 <= 0 /\
  UCT_depth1 real_arith sample_rng 9 b_win8 (-3) "x" 4%nat
  = match hd_error (where_empty b_win8 0) with
    | Some a => Ok (a, 4%nat)
    | None => Raise ValueError
    end.
Proof.
  split; [lia |].
  apply (uct_nonpositive_budget_returns_first_action
           real_arith sample_rng 9 b_win8 (-3) "x" 4%nat).
  lia.
Defined.

(** C5 as claimed fails: on the blank board a budget of 0 is accepted and
    action 0 is returned. *)
Lemma uct_accepts_zero_budget :
  UCT_depth1 real_arith sample_rng 9 empty_board 0 "x" 0%nat = Ok (0, 0%nat) /\
  ~ rejected (UCT_depth1 real_arith sample_rng 9 empty_board 0 "x" 0%nat).
Proof.
  assert (E : UCT_depth1 real_arith sample_rng 9 empty_board 0 "x" 0%nat
              = Ok (0, 0%nat)).
  { unfold UCT_depth1, bind.
    rewrite UCT_loop_no_budget by lia. reflexivity. }
  split; [exact E |]. rewrite E. intros [e He]. discriminate He.
Qed.

(** C9. Every top-level call returns.  On a well-formed board, for either
    player: (1) with fuel for 10 nested calls both exhaustive searches
    return, under both enumerations; (2) every recursive call is made on a
    child with one blank cell less; (3) a playout with fuel for 9 passes of
    its loop returns after at most 8 random moves, that is at most 9 move
    applications, or raises [IndexError] at once for an action out of
    range; (4) the UCB1 loop makes exactly [N] passes and the search
    returns an action when the board has a blank cell, and raises
    [ValueError] when it has none. *)
Theorem every_search_terminates b p fuel pfuel :
  wf_board b -> is_player p -> (10 <= fuel)%nat -> (9 <= pfuel)%nat ->
  both_orderings (fun get_actions => forall c,
    (exists r n, minimax_search get_actions fuel b p c = Ok (r, n)) /\
    (exists r n, alpha_beta_search get_actions fuel b p c = Ok (r, n))) /\
  (forall a mark, legal b a -> is_player mark ->
     exists b', result b mark a = Ok b' /\ wf_board b' /\
                S (count_empty b') = count_empty b) /\
  (forall rng a k,
     (exists v k', playout rng pfuel b a p k = Ok (v, k') /\
                   (k <= k' <= k + 8)%nat) \/
     playout rng pfuel b a p k = Raise IndexError) /\
  (forall fo rng N k, 0 <= N ->
     ((0 < count_empty b)%nat ->
      exists actions st k' a,
        UCT_loop fo rng pfuel b N p k = Ok ((actions, st), k') /\
        n_parent st = N /\
        UCT_depth1 fo rng pfuel b N p k = Ok (a, k')) /\
     (count_empty b = 0%nat ->
      UCT_depth1 fo rng pfuel b N p k = Raise ValueError)).
Proof.
  intros Hwf Hp Hfuel Hpfuel.
  pose proof (wf_count_empty b Hwf) as Hc.
  split; [| split; [| split]].
  - assert (Hgen : forall get_actions c,
      (exists v mv1 mv2 n1 n2,
        minimax_search get_actions fuel b p c
          = Ok ({| move := mv1; value := Int v |}, n1) /\
        alpha_beta_search get_actions fuel b p c
          = Ok ({| move := mv2; value := Int v |}, n2) /\
        n2 <= n1 /\ -1 <= v <= 1 /\
        game_value p MaxTurn b v /\
        move_ok p MaxTurn b v mv1 /\
        (mv2 = None <-> is_terminal b = Ok true) /\
        (forall a, mv2 = Some a -> legal b a)) ->
      (exists r n, minimax_search get_actions fuel b p c = Ok (r, n)) /\
      (exists r n, alpha_beta_search get_actions fuel b p c = Ok (r, n))).
    { intros ga c (v & mv1 & mv2 & n1 & n2 & E1 & E2 & _).
      rewrite E1, E2. split; eauto. }
    split; intros c; apply Hgen;
      apply (searches_spec_both fuel b p c c Hwf Hp ltac:(lia)).
  - intros a mark Hl Hm. apply result_child; assumption.
  - intros rng a k.
    destruct (playout_ok rng pfuel b a p k Hwf Hp Hpfuel)
      as [(v & k' & E & _ & Hk) | [E _]]; [left | right; exact E].
    exists v, k'. auto.
  - intros fo rng N k HN. split.
    + intros Hn.
      destruct (UCT_ok fo rng pfuel b N p k Hwf Hp Hpfuel Hn)
        as (st & k' & a & E1 & Hnp & E2 & _).
      exists (where_empty b 0), st, k', a. repeat split; auto. lia.
    + intros H0. destruct (Z.eq_dec N 0) as [-> | HN0].
      * unfold UCT_depth1, bind. rewrite UCT_loop_no_budget by lia.
        apply where_empty_nil in H0. rewrite H0. reflexivity.
      * apply UCT_no_action; [exact H0 | lia].
Qed.

Lemma every_search_terminates_witness :
  wf_board b_win8 /\ is_player "x" /\ (10 <= 10)%nat /\ (9 <= 9)%nat /\
  both_orderings (fun get_actions => forall c,
    (exists r n, minimax_search get_actions 10 b_win8 "x" c = Ok (r, n)) /\
    (exists r n, alpha_beta_search get_actions 10 b_win8 "x" c = Ok (r, n))) /\
  (forall a mark, legal b_win8 a -> is_player mark ->
     exists b', result b_win8 mark a = Ok b' /\ wf_board b' /\
                S (count_empty b') = count_empty b_win8) /\
  (forall rng a k,
     (exists v k', playout rng 9 b_win8 a "x" k = Ok (v, k') /\
                   (k <= k' <= k + 8)%nat) \/
     playout rng 9 b_win8 a "x" k = Raise IndexError) /\
  (forall fo rng N k, 0 <= N ->
     ((0 < count_empty b_win8)%nat ->
      exists actions st k' a,
        UCT_loop fo rng 9 b_win8 N "x" k = Ok ((actions, st), k') /\
        n_parent st = N /\
        UCT_depth1 fo rng 9 b_win8 N "x" k = Ok (a, k')) /\
     (count_empty b_win8 = 0%nat ->
      UCT_depth1 fo rng 9 b_win8 N "x" k = Raise ValueError)).
Proof.
  assert (Hwf : wf_board b_win8) by (split; reflexivity).
  assert (Hp : is_player "x") by (left; reflexivity).
  split; [exact Hwf |]. split; [exact Hp |].
  split; [lia |]. split; [lia |].
  apply (every_search_terminates b_win8 "x" 10 9 Hwf Hp); lia.
Defined.

(** C10. On a board without a blank cell and with a budget of at least 1
    the Monte Carlo search returns no action: the [max] of the selection
    step is applied to the empty list of UCB1 scores and raises
    [ValueError]; the list of visit counts of the final step is empty as
    well. *)
Theorem uct_without_actions_raises fo rng fuel b N p k :
  count_empty b = 0%nat -> 1 <= N ->
  Natural.get_actions b = Ok [] /\
  index_of_max (f_gtb fo) (f_eqb fo) (repeat (f_inf fo) 0) = Raise ValueError /\
  index_of_max Z.gtb Z.eqb (repeat 0 0) = Raise ValueError /\
  UCT_loop fo rng fuel b N p k = Raise ValueError /\
  UCT_depth1 fo rng fuel b N p k = Raise ValueError.
Proof.
  intros Hc HN.
  split; [unfold Natural.get_actions; f_equal; apply where_empty_nil; exact Hc |].
  split; [reflexivity |]. split; [reflexivity |].
  apply UCT_no_action; assumption.
Qed.

Lemma uct_without_actions_raises_witness :
  count_empty b_full = 0%nat /\ 1 <= 100 /\
  Natural.get_actions b_full = Ok [] /\
  index_of_max (f_gtb real_arith) (f_eqb real_arith)
               (repeat (f_inf real_arith) 0) = Raise ValueError /\
  index_of_max Z.gtb Z.eqb (repeat 0 0) = Raise ValueError /\
  UCT_loop real_arith sample_rng 9 b_full 100 "x" 0%nat = Raise ValueError /\
  UCT_depth1 real_arith sample_rng 9 b_full 100 "x" 0%nat = Raise ValueError.
Proof.
  split; [reflexivity |]. split; [lia |].
  apply (uct_without_actions_raises real_arith sample_rng 9 b_full 100 "x" 0%nat);
    [reflexivity | lia].
Defined.

(** * Further properties of the state model *)

(** X1. [other] always answers x or o, and it is an involution exactly on
    these two symbols: every other string is sent to x and never comes
    back. *)
Theorem other_involution_exactly_on_players p :
  is_player (other p) /\ (other (other p) = p <-> is_player p).
Proof.
  unfold other, is_player.
  destruct (String.eqb_spec p "x") as [-> | Hx]; cbn.
  - split; [right; reflexivity |]. split; auto.
  - split; [left; reflexivity |]. split.
    + intros <-. right. reflexivity.
    + intros [-> | ->]; [congruence | reflexivity].
Qed.

Lemma boards_of_complete b :
  forallb is_cellb b = true -> In b (boards_of (length b)).
Proof.
  induction b as [| c b IH]; intros H; simpl in *; [left; reflexivity |].
  apply andb_true_iff in H. destruct H as [Hc Hb].
  apply in_flat_map. exists b. split; [apply IH; exact Hb |].
  destruct (String.eqb c " ") eqn:E.
  - apply String.eqb_eq in E. subst c. left. reflexivity.
  - destruct (is_cellb_marked c Hc E) as [-> | ->]; simpl; auto.
Qed.

Lemma check_win_by_lines_all :
  forallb check_win_by_lines (boards_of 9) = true.
Proof. vm_compute. reflexivity. Qed.

Lemma check_win_by_lines_wf b : wf_board b -> check_win_by_lines b = true.
Proof.
  intros [Hlen Hcells].
  pose proof check_win_by_lines_all as Hall.
  rewrite forallb_forall in Hall. apply Hall.
  rewrite <- Hlen. apply boards_of_complete. exact Hcells.
Qed.

(** X2. On a well-formed board [check_win] answers a mark only if that
    mark fills one of the eight lines, and it answers the mark that fills a
    line when the other mark fills none; without any filled line it answers
    "d" on a full board and "n" otherwise. *)
Theorem check_win_reads_the_lines b :
  wf_board b ->
  (check_win b = Ok "x" -> has_line b "x" = true) /\
  (check_win b = Ok "o" -> has_line b "o" = true) /\
  (has_line b "x" = true -> has_line b "o" = false -> check_win b = Ok "x") /\
  (has_line b "o" = true -> has_line b "x" = false -> check_win b = Ok "o") /\
  (has_line b "x" = false -> has_line b "o" = false ->
   check_win b = Ok (if (count_empty b =? 0)%nat then "d" else "n")).
Proof.
  intros Hwf. pose proof (check_win_by_lines_wf b Hwf) as H.
  unfold check_win_by_lines in H.
  destruct (check_win b) as [g | e]; [| discriminate].
  destruct (has_line b "x"), (has_line b "o");
    repeat split; intros; try discriminate;
    repeat match goal with
           | E : Ok _ = Ok _ |- _ => injection E as ->
           end;
    try (apply orb_true_iff in H; destruct H as [H | H]);
    try (apply String.eqb_eq in H; subst g);
    try reflexivity; try discriminate;
    destruct (count_empty b =? 0)%nat; discriminate.
Qed.

Lemma check_win_reads_the_lines_witness :
  wf_board b_full /\
  (check_win b_full = Ok "x" -> has_line b_full "x" = true) /\
  (check_win b_full = Ok "o" -> has_line b_full "o" = true) /\
  (has_line b_full "x" = true -> has_line b_full "o" = false ->
   check_win b_full = Ok "x") /\
  (has_line b_full "o" = true -> has_line b_full "x" = false ->
   check_win b_full = Ok "o") /\
  (has_line b_full "x" = false -> has_line b_full "o" = false ->
   check_win b_full = Ok (if (count_empty b_full =? 0)%nat then "d" else "n")).
Proof.
  assert (Hwf : wf_board b_full) by (split; reflexivity).
  split; [exact Hwf |]. exact (check_win_reads_the_lines b_full Hwf).
Defined.

(** X3. For a real player on a well-formed board, [utility] and
    [check_win] never disagree: the utility is [None] exactly when the board
    is not terminal, +1 exactly when the player has won, -1 exactly when the
    other player has won, and 0 exactly on a draw. *)
Theorem utility_agrees_with_check_win b p :
  wf_board b -> is_player p ->
  (utility b p = Ok None <-> is_terminal b = Ok false) /\
  (utility b p = Ok (Some 1) <-> check_win b = Ok p) /\
  (utility b p = Ok (Some (-1)) <-> check_win b = Ok (other p)) /\
  (utility b p = Ok (Some 0) <-> check_win b = Ok "d").
Proof.
  intros Hwf Hp. unfold utility, is_terminal, res_map, res_bind.
  destruct (check_win_cases b Hwf) as [E | [E | [[E _] | [E _]]]];
    rewrite E; destruct Hp as [-> | ->]; cbn;
    repeat split; intros H; try discriminate H; try reflexivity.
Qed.

Lemma utility_agrees_with_check_win_witness :
  wf_board b_lost /\ is_player "o" /\
  (utility b_lost "o" = Ok None <-> is_terminal b_lost = Ok false) /\
  (utility b_lost "o" = Ok (Some 1) <-> check_win b_lost = Ok "o") /\
  (utility b_lost "o" = Ok (Some (-1)) <-> check_win b_lost = Ok (other "o")) /\
  (utility b_lost "o" = Ok (Some 0) <-> check_win b_lost = Ok "d").
Proof.
  assert (Hwf : wf_board b_lost) by (split; reflexivity).
  assert (Hp : is_player "o") by (right; reflexivity).
  split; [exact Hwf |]. split; [exact Hp |].
  exact (utility_agrees_with_check_win b_lost "o" Hwf Hp).
Defined.

(** X4. A player symbol other than x and o is not rejected: [other] takes
    x for its opponent, so a board won by o has no utility for it although
    the board is terminal, and a board won by x counts as its loss. *)
Theorem utility_of_unknown_player b p :
  ~ is_player p ->
  (check_win b = Ok "o" ->
   utility b p = Ok None /\ is_terminal b = Ok true) /\
  (check_win b = Ok "x" -> utility b p = Ok (Some (-1))).
Proof.
  intros Hp. unfold utility, is_terminal, res_map, res_bind, other.
  assert (Ex : String.eqb p "x" = false)
    by (apply String.eqb_neq; intros ->; apply Hp; left; reflexivity).
  assert (Eo : String.eqb "o" p = false)
    by (apply String.eqb_neq; intros <-; apply Hp; right; reflexivity).
  assert (Ex' : String.eqb "x" p = false)
    by (rewrite String.eqb_sym; exact Ex).
  split; intros ->; rewrite ?Ex, ?Eo, ?Ex'; cbn; auto.
Qed.

Lemma utility_of_unknown_player_witness :
  ~ is_player "X" /\
  (check_win (repeat "o" 9) = Ok "o" ->
   utility (repeat "o" 9) "X" = Ok None /\
   is_terminal (repeat "o" 9) = Ok true) /\
  (check_win (repeat "o" 9) = Ok "x" ->
   utility (repeat "o" 9) "X" = Ok (Some (-1))).
Proof.
  assert (Hp : ~ is_player "X") by (intros [H | H]; discriminate H).
  split; [exact Hp |]. exact (utility_of_unknown_player (repeat "o" 9) "X" Hp).
Defined.

Lemma reshape33_wrong_size b :
  length b <> 9%nat -> reshape33 b = Raise ValueError.
Proof.
  intros H.
  do 10 (destruct b as [| ? b]; try reflexivity).
  simpl in H. lia.
Qed.

Lemma utility_wrong_size b p :
  length b <> 9%nat -> utility b p = Raise ValueError.
Proof.
  intros H. unfold utility, check_win, res_bind.
  rewrite (reshape33_wrong_size b H). reflexivity.
Qed.

Lemma nth_list_set_same {A} (l : list A) : forall k x d,
  (k < length l)%nat -> nth k (list_set l k x) d = x.
Proof.
  induction l as [| h t IH]; intros [| k] x d Hk; simpl in *; try lia; auto.
  apply IH. lia.
Qed.

Lemma nth_list_set_other {A} (l : list A) : forall k j x d,
  j <> k -> nth j (list_set l k x) d = nth j l d.
Proof.
  induction l as [| h t IH]; intros [| k] [| j] x d Hj; simpl; auto;
    try congruence.
Qed.

(** X5. A move on any cell the index reaches changes that cell and no
    other, keeps the number of cells, and prints the error message exactly
    when the cell was not blank. *)
Theorem result_writes_one_cell b p a k :
  py_index b a = Ok k ->
  exists b',
    result b p a = Ok b' /\
    result_out b p a
    = Ok (b', if String.eqb (nth k b " ") " " then []
              else ["Error: Illegal move!"]) /\
    length b' = length b /\
    nth k b' " " = p /\
    (forall j, j <> k -> nth j b' " " = nth j b " ").
Proof.
  intros Ek. exists (list_set b k p).
  rewrite result_py_index.
  unfold result_out, py_get, py_set, res_bind. rewrite Ek.
  split; [reflexivity |].
  split; [destruct (String.eqb (nth k b " ") " "); reflexivity |].
  split; [apply list_set_length |].
  split; [apply nth_list_set_same; eapply py_index_lt; exact Ek |].
  intros j Hj. apply nth_list_set_other. exact Hj.
Qed.

Lemma result_writes_one_cell_witness :
  py_index b_win8 (-1) = Ok 8%nat /\
  exists b',
    result b_win8 "x" (-1) = Ok b' /\
    result_out b_win8 "x" (-1)
    = Ok (b', if String.eqb (nth 8 b_win8 " ") " " then []
              else ["Error: Illegal move!"]) /\
    length b' = length b_win8 /\
    nth 8 b' " " = "x" /\
    (forall j, j <> 8%nat -> nth j b' " " = nth j b_win8 " ").
Proof.
  assert (E : py_index b_win8 (-1) = Ok 8%nat) by reflexivity.
  split; [exact E |]. exact (result_writes_one_cell b_win8 "x" (-1) 8 E).
Defined.

(** X6. [result] raises [IndexError] exactly for an action below minus the
    number of cells or at least that number; a negative action in range
    writes the cell counted from the end, as the action increased by the
    number of cells does. *)
Theorem result_index_range b p a :
  (result b p a = Raise IndexError <->
   a < - Z.of_nat (length b) \/ Z.of_nat (length b) <= a) /\
  (- Z.of_nat (length b) <= a < 0 ->
   result b p a = result b p (a + Z.of_nat (length b))).
Proof.
  rewrite !result_py_index. unfold py_index, res_bind.
  destruct (0 <=? a) eqn:E1, (a <? Z.of_nat (length b)) eqn:E2;
    destruct (- Z.of_nat (length b) <=? a) eqn:E3, (a <? 0) eqn:E4;
    cbn [andb];
    try apply Z.leb_le in E1; try apply Z.leb_gt in E1;
    try apply Z.ltb_lt in E2; try apply Z.ltb_ge in E2;
    try apply Z.leb_le in E3; try apply Z.leb_gt in E3;
    try apply Z.ltb_lt in E4; try apply Z.ltb_ge in E4;
    try lia;
    (split; [split; [intros H; try discriminate H; lia | intros; try lia; try reflexivity] |]);
    intros Hr; try lia.
  destruct (0 <=? a + Z.of_nat (length b)) eqn:E5; [| lia].
  destruct (a + Z.of_nat (length b) <? Z.of_nat (length b)) eqn:E6; [| lia].
  cbn [andb]. do 2 f_equal. lia.
Qed.

Lemma where_empty_ge b : forall i a,
  In a (where_empty b i) -> Z.of_nat i <= a.
Proof.
  intros i a H. apply where_empty_In in H. destruct H as (k & -> & _). lia.
Qed.

Lemma filter_id {A} (f : A -> bool) (l : list A) :
  (forall x, In x l -> f x = true) -> filter f l = l.
Proof.
  induction l as [| h t IH]; intros H; simpl; [reflexivity |].
  rewrite (H h (or_introl eq_refl)). f_equal. apply IH.
  intros x Hx. apply H. right. exact Hx.
Qed.

Lemma where_empty_list_set b : forall k p i,
  (k < length b)%nat -> String.eqb p " " = false ->
  where_empty (list_set b k p) i
  = filter (fun x => negb (x =? Z.of_nat (i + k))) (where_empty b i).
Proof.
  induction b as [| c b IH]; intros [| k] p i Hk Hp; simpl in *; try lia.
  - rewrite Hp, Nat.add_0_r.
    assert (Hid : filter (fun x => negb (x =? Z.of_nat i)) (where_empty b (S i))
                  = where_empty b (S i)).
    { apply filter_id. intros x Hx. apply where_empty_ge in Hx.
      apply negb_true_iff. apply Z.eqb_neq. lia. }
    destruct (String.eqb c " "); simpl; [rewrite Z.eqb_refl; simpl |];
      symmetry; exact Hid.
  - rewrite (IH k p (S i) ltac:(lia) Hp).
    replace (S i + k)%nat with (i + S k)%nat by lia.
    destruct (String.eqb c " "); simpl; [| reflexivity].
    destruct (Z.of_nat i =? Z.of_nat (i + S k)) eqn:E; [| reflexivity].
    apply Z.eqb_eq in E. lia.
Qed.

(** X7. After a move with a mark that is not the blank, on a cell the
    index reaches, the natural enumeration of the new board is the one of
    the old board without that cell, in the same order. *)
Theorem get_actions_after_result b p a k :
  String.eqb p " " = false -> py_index b a = Ok k ->
  exists b',
    result b p a = Ok b' /\
    Natural.get_actions b'
    = Ok (filter (fun x => negb (x =? Z.of_nat k)) (where_empty b 0)).
Proof.
  intros Hp Ek. exists (list_set b k p).
  rewrite result_py_index. unfold res_bind. rewrite Ek.
  split; [reflexivity |]. unfold Natural.get_actions. f_equal.
  apply (where_empty_list_set b k p 0); [| exact Hp].
  eapply py_index_lt. exact Ek.
Qed.

Lemma get_actions_after_result_witness :
  String.eqb "o" " " = false /\ py_index b_win8 5 = Ok 5%nat /\
  exists b',
    result b_win8 "o" 5 = Ok b' /\
    Natural.get_actions b'
    = Ok (filter (fun x => negb (x =? Z.of_nat 5)) (where_empty b_win8 0)).
Proof.
  assert (Hp : String.eqb "o" " " = false) by reflexivity.
  assert (E : py_index b_win8 5 = Ok 5%nat) by reflexivity.
  split; [exact Hp |]. split; [exact E |].
  exact (get_actions_after_result b_win8 "o" 5 5 Hp E).
Defined.



(** ** The priority enumeration on boards of any size *)

Lemma insert_desc_perm x l : Permutation (insert_desc x l) (x :: l).
Proof.
  induction l as [| y t IH]; simpl; [apply Permutation_refl |].
  destruct (tuple_ltb y x); [apply Permutation_refl |].
  eapply Permutation_trans; [apply perm_skip; exact IH | apply perm_swap].
Qed.

Lemma sorted_reverse_perm l : Permutation (sorted_reverse l) l.
Proof.
  unfold sorted_reverse.
  assert (H : forall acc, Permutation (fold_left (fun acc x => insert_desc x acc) l acc)
                                      (acc ++ l)).
  { induction l as [| x t IH]; intros acc; simpl.
    - rewrite app_nil_r. apply Permutation_refl.
    - eapply Permutation_trans; [apply IH |].
      eapply Permutation_trans;
        [apply Permutation_app_tail; apply insert_desc_perm |].
      simpl. apply Permutation_middle. }
  apply (H []).
Qed.

Lemma map_res_priority l :
  (forallb (fun a => a <? 9) l = true -> Forall (fun a => 0 <= a) l ->
   exists prio, map_res (py_get 0 Priority.priority) l = Ok prio /\
                length prio = length l) /\
  (forallb (fun a => a <? 9) l = false -> Forall (fun a => 0 <= a) l ->
   map_res (py_get 0 Priority.priority) l = Raise IndexError).
Proof.
  induction l as [| a t [IH1 IH2]]; simpl.
  - split; [intros _ _; exists []; auto | discriminate].
  - assert (Hget : 0 <= a -> (a <? 9) = true ->
                   exists x, py_get 0 Priority.priority a = Ok x).
    { intros H0 H9. apply Z.ltb_lt in H9. unfold py_get, res_bind.
      rewrite py_index_in_range by (simpl; lia). eauto. }
    assert (Hbad : 0 <= a -> (a <? 9) = false ->
                   py_get 0 Priority.priority a = Raise IndexError).
    { intros H0 H9. apply Z.ltb_ge in H9. unfold py_get, res_bind, py_index.
      simpl length.
      destruct (a <? Z.of_nat 9) eqn:E2; [apply Z.ltb_lt in E2; lia |].
      destruct (a <? 0) eqn:E3; [apply Z.ltb_lt in E3; lia |].
      rewrite !andb_false_r. reflexivity. }
    split; intros H Hpos; inversion Hpos as [| ? ? Ha Ht]; subst.
    + apply andb_true_iff in H. destruct H as [H9 Hrest].
      destruct (Hget Ha H9) as (x & Ex).
      destruct (IH1 Hrest Ht) as (prio & Ep & Hlen).
      exists (x :: prio). unfold res_bind. rewrite Ex, Ep.
      split; [reflexivity | simpl; lia].
    + destruct (a <? 9) eqn:H9.
      * destruct (Hget Ha eq_refl) as (x & Ex). simpl in H.
        unfold res_bind. rewrite Ex, (IH2 H Ht). reflexivity.
      * unfold res_bind. rewrite (Hbad Ha eq_refl). reflexivity.
Qed.

Lemma map_snd_combine {A B} (l1 : list A) : forall (l2 : list B),
  length l1 = length l2 -> map snd (combine l1 l2) = l2.
Proof.
  induction l1 as [| x t IH]; intros [| y u] H; simpl in *; try lia; auto.
  f_equal. apply IH. lia.
Qed.

Lemma where_empty_nonneg b :
  Forall (fun a => 0 <= a) (where_empty b 0).
Proof.
  apply Forall_forall. intros a H. apply where_empty_ge in H. lia.
Qed.

(** X9. The priority enumeration only reorders: when every blank cell has
    an index below 9 it returns a permutation of the natural enumeration;
    when some blank cell has an index of 9 or more (a board that is too
    long) it raises [IndexError] from the table of priorities. *)
Theorem priority_get_actions_permutes b :
  (forallb (fun a => a <? 9) (where_empty b 0) = true ->
   exists l, Priority.get_actions b = Ok l /\
             Permutation l (where_empty b 0)) /\
  (forallb (fun a => a <? 9) (where_empty b 0) = false ->
   Priority.get_actions b = Raise IndexError).
Proof.
  unfold Priority.get_actions.
  destruct (map_res_priority (where_empty b 0)) as [H1 H2].
  split; intros H.
  - destruct (H1 H (where_empty_nonneg b)) as (prio & Ep & Hlen).
    unfold res_bind. rewrite Ep. eexists. split; [reflexivity |].
    eapply Permutation_trans;
      [apply Permutation_map; apply sorted_reverse_perm |].
    rewrite map_snd_combine by exact Hlen. apply Permutation_refl.
  - unfold res_bind. rewrite (H2 H (where_empty_nonneg b)). reflexivity.
Qed.

(** ** Boards that do not have 9 cells *)

Section WrongSize.

Variable get_actions : board -> res (list Z).

(** X10. A board that does not have exactly 9 cells is rejected with
    [ValueError] by [check_win], [utility] and [is_terminal], and so by both
    searches at their first node; the Monte Carlo search rejects it as well
    as soon as its budget allows one playout. *)
Theorem wrong_size_board_is_rejected b p fuel c alpha beta :
  length b <> 9%nat ->
  check_win b = Raise ValueError /\
  utility b p = Raise ValueError /\
  is_terminal b = Raise ValueError /\
  minimax_search get_actions (S fuel) b p c = Raise ValueError /\
  alpha_beta_search get_actions (S fuel) b p c = Raise ValueError /\
  max_value_ab get_actions (S fuel) b p alpha beta c = Raise ValueError /\
  (forall fo rng N k, 1 <= N ->
     UCT_depth1 fo rng (S fuel) b N p k = Raise ValueError).
Proof.
  intros Hlen.
  pose proof (reshape33_wrong_size b Hlen) as Er.
  pose proof (utility_wrong_size b p Hlen) as Eu.
  split; [unfold check_win, res_bind; rewrite Er; reflexivity |].
  split; [exact Eu |].
  split; [unfold is_terminal, res_map, check_win, res_bind; rewrite Er; reflexivity |].
  split; [unfold minimax_search; cbn [max_value];
          unfold bind, reset_COUNT, incr_COUNT, lift; rewrite Eu; reflexivity |].
  split; [unfold alpha_beta_search; cbn [max_value_ab];
          unfold bind, reset_COUNT, incr_COUNT, lift; rewrite Eu; reflexivity |].
  split; [cbn [max_value_ab];
          unfold bind, incr_COUNT, lift; rewrite Eu; reflexivity |].
  intros fo rng N k HN.
  unfold UCT_depth1, UCT_loop, Natural.get_actions.
  destruct (Z.to_nat N) as [| i] eqn:EN; [lia |].
  cbn [uct_iterate]. unfold uct_iteration.
  destruct (where_empty b 0) as [| a0 l0] eqn:Ew.
  - unfold bind, lift, ret. cbn [UCB1 length repeat].
    rewrite index_of_max_nil. reflexivity.
  - assert (Hne : repeat (f_inf fo) (length (a0 :: l0)) <> [])
      by (simpl; discriminate).
    destruct (index_of_max_ok (f_gtb fo) (f_eqb fo) _ Hne) as (id & Eid & Hid).
    rewrite repeat_length in Hid.
    destruct (list_get_ok (a0 :: l0) id Hid) as (a & Ea & Hin).
    rewrite <- Ew in Hin. apply where_empty_legal in Hin.
    unfold bind at 1 2 3 4 5, lift at 1 2 3, ret at 1. cbn [UCB1].
    rewrite Eid, Ea.
    unfold playout, bind, lift. rewrite (result_legal b p a Hin).
    cbn [playout_loop]. unfold bind, lift.
    rewrite utility_wrong_size by (rewrite list_set_length; exact Hlen).
    reflexivity.
Qed.

End WrongSize.

Lemma wrong_size_board_is_rejected_witness :
  length [" "; "x"] <> 9%nat /\
  check_win [" "; "x"] = Raise ValueError /\
  utility [" "; "x"] "x" = Raise ValueError /\
  is_terminal [" "; "x"] = Raise ValueError /\
  minimax_search Natural.get_actions 10 [" "; "x"] "x" 0 = Raise ValueError /\
  alpha_beta_search Natural.get_actions 10 [" "; "x"] "x" 0 = Raise ValueError /\
  max_value_ab Natural.get_actions 10 [" "; "x"] "x" NegInf PosInf 0
  = Raise ValueError /\
  (forall fo rng N k, 1 <= N ->
     UCT_depth1 fo rng 10 [" "; "x"] N "x" k = Raise ValueError).
Proof.
  assert (H : length [" "; "x"] <> 9%nat) by (simpl; lia).
  split; [exact H |].
  exact (wrong_size_board_is_rejected Natural.get_actions [" "; "x"] "x" 9 0
           NegInf PosInf H).
Defined.

(** * Further properties of the searches *)

Section RootLoop.

Variable ch1 : Z -> M Z (num * option Z).
Variable ch2 : Z -> num -> num -> M Z (num * option Z).

Hypothesis ch_sim : forall a c1 c2 alpha beta m mv c1',
  ch1 a c1 = Ok ((m, mv), c1') -> num_ltb alpha beta = true ->
  exists r mv2 c2',
    ch2 a alpha beta c2 = Ok ((r, mv2), c2') /\ within alpha beta r m /\
    c2' - c2 <= c1' - c1.

Lemma max_loop_at_top actions : forall mv c m mvf c',
  max_loop ch1 actions PosInf mv c = Ok ((m, mvf), c') ->
  m = PosInf /\ mvf = mv.
Proof.
  induction actions as [| a rest IH]; intros mv c m mvf c' H;
    cbn [max_loop] in H.
  - unfold ret in H. injection H as <- <- _. auto.
  - unfold bind at 1 in H.
    destruct (ch1 a c) as [[[mc mvc] ca] | e]; [| discriminate].
    cbn [fst num_ltb] in H. apply IH in H. exact H.
Qed.

(** At the root the window is open above and its lower end is the best
    value so far: the pruned loop then makes the same updates as the
    exhaustive one. *)
Lemma max_loop_root actions : forall v mv c1 c2 m mvf c1',
  max_loop ch1 actions v mv c1 = Ok ((m, mvf), c1') ->
  num_ltb v PosInf = true ->
  exists c2',
    max_loop_ab ch2 actions v mv v PosInf c2 = Ok ((m, mvf), c2').
Proof.
  induction actions as [| a rest IH]; intros v mv c1 c2 m mvf c1' H Hv.
  - cbn [max_loop] in H. unfold ret in H. injection H as <- <- _.
    exists c2. reflexivity.
  - cbn [max_loop] in H. unfold bind at 1 in H.
    destruct (ch1 a c1) as [[[mc mvc] c1a] | e] eqn:E1; [| discriminate].
    cbn [fst] in H.
    destruct (ch_sim a c1 c2 v PosInf mc mvc c1a E1 Hv)
      as (rc & mvr & c2a & E2 & Hw & _).
    cbn [max_loop_ab]. unfold bind at 1. rewrite E2. cbn [fst].
    destruct (num_ltb v mc) eqn:Eup.
    + destruct (num_ltb mc PosInf) eqn:Efin.
      * assert (rc = mc) as -> by (destruct Hw as [Hw _]; auto).
        rewrite Eup.
        assert (Ecut : num_geb mc PosInf = false)
          by (unfold num_geb; rewrite Efin; reflexivity).
        rewrite Ecut.
        assert (Ea : num_max v mc = mc) by (unfold num_max; rewrite Eup; reflexivity).
        rewrite Ea. apply (IH mc (Some a) c1a c2a m mvf c1' H Efin).
      * assert (mc = PosInf) as -> by (clear - Efin; num_bash).
        assert (rc = PosInf) as ->.
        { destruct Hw as (_ & _ & Hw). specialize (Hw eq_refl).
          clear - Hw. num_bash. }
        rewrite Eup. cbn [num_geb num_ltb negb].
        apply max_loop_at_top in H. destruct H as [-> ->].
        exists c2a. reflexivity.
    + assert (Enr : num_ltb v rc = false) by (destruct Hw as (_ & Hw & _); auto).
      rewrite Enr.
      assert (Ecut : num_geb v PosInf = false)
        by (unfold num_geb; rewrite Hv; reflexivity).
      rewrite Ecut. apply (IH v mv c1a c2a m mvf c1' H Hv).
Qed.

End RootLoop.

(** Whenever exhaustive minimax returns, on any board and with any
    enumeration, the alpha-beta search returns the same value and move. *)
Lemma alpha_beta_same_result get_actions fuel b p c1 c2 r n1 :
  minimax_search get_actions fuel b p c1 = Ok (r, n1) ->
  exists n2,
    alpha_beta_search get_actions fuel b p c2 = Ok (r, n2) /\ n2 <= n1.
Proof.
  unfold minimax_search, alpha_beta_search, bind, reset_COUNT, ret.
  destruct (max_value get_actions fuel b p 0) as [[[m mv] c1'] | e] eqn:E1;
    [| discriminate].
  intros H. injection H as <- <-. cbn [fst snd].
  assert (Hwin : num_ltb NegInf PosInf = true) by reflexivity.
  destruct (alpha_beta_sim get_actions fuel b p 0 0 NegInf PosInf m mv c1' Hwin)
    as [Hsim _].
  destruct (Hsim E1) as (r2 & mv2 & c2' & E2 & _ & Hc).
  assert (Esame : exists c, max_value_ab get_actions fuel b p NegInf PosInf 0
                            = Ok ((m, mv), c)).
  { destruct fuel as [| fuel]; [discriminate |].
    clear E2 Hsim. cbn [max_value] in E1. cbn [max_value_ab].
    unfold bind at 1, incr_COUNT in E1. unfold bind at 1, lift at 1 in E1.
    unfold bind at 1, incr_COUNT. unfold bind at 1, lift at 1.
    destruct (utility b p) as [[v |] | e]; [| | discriminate].
    - unfold ret in *. injection E1 as <- <- _. eauto.
    - unfold bind at 1, lift at 1 in E1. unfold bind at 1, lift at 1.
      destruct (get_actions b) as [l | e]; [| discriminate].
      eapply max_loop_root; [| exact E1 | reflexivity].
      intros a d1 d2 al be mc mvc d1' Hch Hw. unfold bind, lift in Hch |- *.
      destruct (result b p a) as [s' |]; [| discriminate].
      apply (alpha_beta_sim get_actions fuel s' p d1 d2 al be mc mvc d1' Hw).
      exact Hch. }
  destruct Esame as (c & Ec). rewrite Ec in E2. injection E2 as <- <- <-.
  rewrite Ec. cbn [fst snd]. exists c. split; [reflexivity | lia].
Qed.

(** X11. On a well-formed board the alpha-beta search returns the very
    same answer as exhaustive minimax, the move as well as the value, under
    either enumeration; so its move also leads to a child that has the
    returned value. *)
Theorem alpha_beta_returns_minimax_move b p fuel c1 c2 :
  wf_board b -> is_player p -> (count_empty b < fuel)%nat ->
  both_orderings (fun get_actions =>
    exists r n1 n2,
      minimax_search get_actions fuel b p c1 = Ok (r, n1) /\
      alpha_beta_search get_actions fuel b p c2 = Ok (r, n2) /\
      (forall a, move r = Some a ->
         exists b' v, value r = Int v /\ result b p a = Ok b' /\
                      game_value p MinTurn b' v)).
Proof.
  intros Hwf Hp Hfuel.
  assert (Hgen : forall get_actions,
    (exists v mv1 mv2 n1 n2,
      minimax_search get_actions fuel b p c1
        = Ok ({| move := mv1; value := Int v |}, n1) /\
      alpha_beta_search get_actions fuel b p c2
        = Ok ({| move := mv2; value := Int v |}, n2) /\
      n2 <= n1 /\ -1 <= v <= 1 /\
      game_value p MaxTurn b v /\
      move_ok p MaxTurn b v mv1 /\
      (mv2 = None <-> is_terminal b = Ok true) /\
      (forall a, mv2 = Some a -> legal b a)) ->
    exists r n1 n2,
      minimax_search get_actions fuel b p c1 = Ok (r, n1) /\
      alpha_beta_search get_actions fuel b p c2 = Ok (r, n2) /\
      (forall a, move r = Some a ->
         exists b' v, value r = Int v /\ result b p a = Ok b' /\
                      game_value p MinTurn b' v)).
  { intros ga (v & mv1 & mv2 & n1 & n2 & E1 & _ & _ & _ & _ & Hmv & _).
    destruct (alpha_beta_same_result ga fuel b p c1 c2 _ n1 E1) as (n2' & E2 & _).
    eexists. exists n1, n2'. split; [exact E1 |]. split; [exact E2 |].
    cbn [move value]. intros a ->. destruct Hmv as (_ & _ & b' & Eb & Hg).
    exists b', v. auto. }
  destruct (searches_spec_both fuel b p c1 c2 Hwf Hp Hfuel) as [H1 H2].
  split; apply Hgen; assumption.
Qed.

Lemma alpha_beta_returns_minimax_move_witness :
  wf_board b_lost /\ is_player "x" /\ (count_empty b_lost < 10)%nat /\
  both_orderings (fun get_actions =>
    exists r n1 n2,
      minimax_search get_actions 10 b_lost "x" 0 = Ok (r, n1) /\
      alpha_beta_search get_actions 10 b_lost "x" 0 = Ok (r, n2) /\
      (forall a, move r = Some a ->
         exists b' v, value r = Int v /\ result b_lost "x" a = Ok b' /\
                      game_value "x" MinTurn b' v)).
Proof.
  assert (Hwf : wf_board b_lost) by (split; reflexivity).
  assert (Hp : is_player "x") by (left; reflexivity).
  assert (Hf : (count_empty b_lost < 10)%nat) by (vm_compute; lia).
  split; [exact Hwf |]. split; [exact Hp |]. split; [exact Hf |].
  exact (alpha_beta_returns_minimax_move b_lost "x" 10%nat 0 0 Hwf Hp Hf).
Defined.

(** X12. The contract of the pruned procedures for any window
    [alpha < beta], on a well-formed board whose game value is [v]: the
    answer is [v] when [v] lies strictly inside the window, at most [alpha]
    when [v] is at most [alpha], and at least [beta] when [v] is at least
    [beta].  It holds for [max_value_ab] with the player to move and for
    [min_value_ab] with the opponent to move. *)
Theorem alpha_beta_window_contract b p fuel alpha beta c :
  wf_board b -> is_player p -> (count_empty b < fuel)%nat ->
  num_ltb alpha beta = true ->
  both_orderings (fun get_actions =>
    (exists v r mv c',
       game_value p MaxTurn b v /\
       max_value_ab get_actions fuel b p alpha beta c = Ok ((r, mv), c') /\
       (num_ltb alpha (Int v) = true -> num_ltb (Int v) beta = true ->
        r = Int v) /\
       (num_ltb alpha (Int v) = false -> num_ltb alpha r = false) /\
       (num_ltb (Int v) beta = false -> num_ltb r beta = false)) /\
    (exists v r mv c',
       game_value p MinTurn b v /\
       min_value_ab get_actions fuel b p alpha beta c = Ok ((r, mv), c') /\
       (num_ltb alpha (Int v) = true -> num_ltb (Int v) beta = true ->
        r = Int v) /\
       (num_ltb alpha (Int v) = false -> num_ltb alpha r = false) /\
       (num_ltb (Int v) beta = false -> num_ltb r beta = false))).
Proof.
  intros Hwf Hp Hfuel Hwin.
  assert (Hgen : forall ga, enumerates_legal ga ->
    (exists v r mv c',
       game_value p MaxTurn b v /\
       max_value_ab ga fuel b p alpha beta c = Ok ((r, mv), c') /\
       within alpha beta r (Int v)) /\
    (exists v r mv c',
       game_value p MinTurn b v /\
       min_value_ab ga fuel b p alpha beta c = Ok ((r, mv), c') /\
       within alpha beta r (Int v))).
  { intros ga Hga.
    destruct (minimax_spec ga Hga fuel p Hp b 0 Hwf Hfuel)
      as [(v1 & mv1 & n1 & E1 & _ & _ & Hg1 & _) (v2 & mv2 & n2 & E2 & _ & _ & Hg2 & _)].
    destruct (alpha_beta_sim ga fuel b p 0 c alpha beta (Int v1) mv1 n1 Hwin)
      as [Hmax _].
    destruct (alpha_beta_sim ga fuel b p 0 c alpha beta (Int v2) mv2 n2 Hwin)
      as [_ Hmin].
    destruct (Hmax E1) as (r1 & m1 & c1 & Er1 & Hw1 & _).
    destruct (Hmin E2) as (r2 & m2 & c2 & Er2 & Hw2 & _).
    split; [exists v1, r1, m1, c1 | exists v2, r2, m2, c2]; auto. }
  unfold within in Hgen.
  split; apply Hgen;
    [apply natural_enumerates_legal | apply priority_enumerates_legal].
Qed.

Lemma alpha_beta_window_contract_witness :
  wf_board b_draw7 /\ is_player "x" /\ (count_empty b_draw7 < 10)%nat /\
  num_ltb (Int 0) (Int 1) = true /\
  both_orderings (fun get_actions =>
    (exists v r mv c',
       game_value "x" MaxTurn b_draw7 v /\
       max_value_ab get_actions 10 b_draw7 "x" (Int 0) (Int 1) 0
       = Ok ((r, mv), c') /\
       (num_ltb (Int 0) (Int v) = true -> num_ltb (Int v) (Int 1) = true ->
        r = Int v) /\
       (num_ltb (Int 0) (Int v) = false -> num_ltb (Int 0) r = false) /\
       (num_ltb (Int v) (Int 1) = false -> num_ltb r (Int 1) = false)) /\
    (exists v r mv c',
       game_value "x" MinTurn b_draw7 v /\
       min_value_ab get_actions 10 b_draw7 "x" (Int 0) (Int 1) 0
       = Ok ((r, mv), c') /\
       (num_ltb (Int 0) (Int v) = true -> num_ltb (Int v) (Int 1) = true ->
        r = Int v) /\
       (num_ltb (Int 0) (Int v) = false -> num_ltb (Int 0) r = false) /\
       (num_ltb (Int v) (Int 1) = false -> num_ltb r (Int 1) = false))).
Proof.
  assert (Hwf : wf_board b_draw7) by (split; reflexivity).
  assert (Hp : is_player "x") by (left; reflexivity).
  assert (Hf : (count_empty b_draw7 < 10)%nat) by (vm_compute; lia).
  assert (Hw : num_ltb (Int 0) (Int 1) = true) by reflexivity.
  split; [exact Hwf |]. split; [exact Hp |]. split; [exact Hf |].
  split; [exact Hw |].
  exact (alpha_beta_window_contract b_draw7 "x" 10%nat (Int 0) (Int 1) 0
           Hwf Hp Hf Hw).
Defined.

(** * Further properties of the Monte Carlo search *)

Section PlayoutValue.

Variable rng : nat -> nat.

Lemma playout_loop_playable fuel : forall b p cur k,
  wf_board b -> is_player p -> is_player cur ->
  (count_empty b < fuel)%nat ->
  exists v k' t,
    playout_loop rng fuel b p cur k = Ok (v, k') /\
    playable p cur b t /\ utility t p = Ok (Some v).
Proof.
  induction fuel as [| fuel IH]; intros b p cur k Hwf Hp Hcur Hfuel; [lia |].
  cbn [playout_loop]. unfold bind at 1, lift at 1.
  destruct (utility_cases b p Hwf Hp) as [(v & Eu & Hv & _) | (Eu & Hn & _)];
    rewrite Eu.
  - exists v, k, b. unfold ret. split; [reflexivity |].
    split; [eapply playable_done; exact Eu | exact Eu].
  - unfold bind at 1, lift at 1, Natural.get_actions.
    assert (Hne : where_empty b 0 <> []).
    { intros E. apply where_empty_nil in E. lia. }
    destruct (random_choice_ok rng (where_empty b 0) k Hne) as (a & Ea & Hin).
    unfold bind at 1. rewrite Ea.
    apply where_empty_legal in Hin.
    destruct (result_child b cur a Hwf Hcur Hin) as (b' & Eb' & Hwf' & Hcnt).
    unfold bind at 1, lift at 1. rewrite Eb'.
    destruct (IH b' p (other cur) (S k) Hwf' Hp (other_player cur Hcur) ltac:(lia))
      as (v & k' & t & Ev & Hpl & Hu).
    exists v, k', t. split; [exact Ev |].
    split; [eapply playable_move; eassumption | exact Hu].
Qed.

(** X13. A playout started with a legal action returns the utility, for
    the player, of a finished game: the board reached from the given one by
    the action and then by alternating marks on blank cells, the opponent
    first, until the game is over. *)
Theorem playout_returns_utility_of_finished_game fuel b a p k :
  wf_board b -> is_player p -> (9 <= fuel)%nat -> legal b a ->
  exists v k' b1 t,
    playout rng fuel b a p k = Ok (v, k') /\
    result b p a = Ok b1 /\
    playable p (other p) b1 t /\
    utility t p = Ok (Some v) /\ -1 <= v <= 1.
Proof.
  intros Hwf Hp Hfuel Hl.
  destruct (result_child b p a Hwf Hp Hl) as (b1 & Eb1 & Hwf1 & Hcnt).
  pose proof (wf_count_empty b Hwf) as Hc.
  destruct (playout_loop_playable fuel b1 p (other p) k Hwf1 Hp
              (other_player p Hp) ltac:(lia)) as (v & k' & t & Ev & Hpl & Hu).
  exists v, k', b1, t. unfold playout, bind, lift. rewrite Eb1.
  split; [exact Ev |]. split; [reflexivity |]. split; [exact Hpl |].
  split; [exact Hu |].
  destruct (playout_loop_ok rng fuel b1 p (other p) k Hwf1 Hp
              (other_player p Hp) ltac:(lia)) as (v' & k'' & Ev' & Hv & _).
  rewrite Ev in Ev'. injection Ev' as -> _. exact Hv.
Qed.

End PlayoutValue.

Lemma playout_returns_utility_of_finished_game_witness :
  wf_board b_win8 /\ is_player "x" /\ (9 <= 9)%nat /\ legal b_win8 2 /\
  exists v k' b1 t,
    playout sample_rng 9 b_win8 2 "x" 0%nat = Ok (v, k') /\
    result b_win8 "x" 2 = Ok b1 /\
    playable "x" (other "x") b1 t /\
    utility t "x" = Ok (Some v) /\ -1 <= v <= 1.
Proof.
  assert (Hwf : wf_board b_win8) by (split; reflexivity).
  assert (Hp : is_player "x") by (left; reflexivity).
  assert (Hf : (9 <= 9)%nat) by lia.
  assert (Hl : legal b_win8 2) by (split; [lia | reflexivity]).
  split; [exact Hwf |]. split; [exact Hp |]. split; [exact Hf |].
  split; [exact Hl |].
  exact (playout_returns_utility_of_finished_game sample_rng 9 b_win8 2 "x"
           0%nat Hwf Hp Hf Hl).
Defined.

(** ** [max] and [index] on the visit counts *)

Lemma max_scan_Z l : forall i best,
  (fst best < i)%nat ->
  let r := max_scan Z.gtb l i best in
  Forall (fun x => x <= snd r) l /\ snd best <= snd r /\
  (r = best \/
   ((i <= fst r < i + length l)%nat /\ nth (fst r - i) l 0 = snd r /\
    snd best < snd r /\
    forall j, (j < fst r - i)%nat -> nth j l 0 < snd r)).
Proof.
  induction l as [| x t IH]; intros i best Hb; cbn [max_scan].
  - cbn zeta. split; [constructor |]. split; [lia | left; reflexivity].
  - destruct (Z.gtb x (snd best)) eqn:E.
    + assert (Hx : snd best < x) by (apply Z.gtb_lt in E; lia).
      destruct (IH (S i) (i, x) ltac:(simpl; lia)) as (Hall & Hle & Hcase).
      cbn [fst snd] in *. cbn zeta.
      split; [constructor; [exact Hle | exact Hall] |].
      split; [lia |]. right.
      destruct Hcase as [-> | (Hr & Hn & Hlt & Hbefore)]; cbn [fst snd length].
      * split; [lia |]. rewrite Nat.sub_diag. cbn [nth].
        split; [reflexivity |]. split; [exact Hx |]. intros j Hj. lia.
      * split; [lia |].
        replace (fst (max_scan Z.gtb t (S i) (i, x)) - i)%nat
          with (S (fst (max_scan Z.gtb t (S i) (i, x)) - S i)) by lia.
        cbn [nth]. split; [exact Hn |]. split; [lia |].
        intros [| j] Hj; cbn [nth]; [lia | apply Hbefore; lia].
    + assert (Hx : x <= snd best)
        by (destruct (Z.gtb_spec x (snd best)); [discriminate | lia]).
      destruct (IH (S i) best ltac:(lia)) as (Hall & Hle & Hcase).
      cbn zeta.
      split; [constructor; [lia | exact Hall] |].
      split; [exact Hle |].
      destruct Hcase as [-> | (Hr & Hn & Hlt & Hbefore)]; [left; reflexivity |].
      right. cbn [length]. split; [lia |].
      replace (fst (max_scan Z.gtb t (S i) best) - i)%nat
        with (S (fst (max_scan Z.gtb t (S i) best) - S i)) by lia.
      cbn [nth]. split; [exact Hn |]. split; [exact Hlt |].
      intros [| j] Hj; cbn [nth]; [lia | apply Hbefore; lia].
Qed.

Lemma index_scan_first l : forall i m,
  (i <= fst m)%nat -> nth (fst m - i) l 0 = snd m ->
  (fst m - i < length l)%nat ->
  (forall j, (j < fst m - i)%nat -> nth j l 0 <> snd m) ->
  index_scan Z.eqb l i m = Ok (fst m).
Proof.
  induction l as [| x t IH]; intros i m Hi Hn Hlen Hbefore; cbn [length] in *;
    [lia |].
  cbn [index_scan].
  destruct (i =? fst m)%nat eqn:E.
  - apply Nat.eqb_eq in E. subst i. reflexivity.
  - apply Nat.eqb_neq in E. cbn [orb].
    assert (Hx : Z.eqb x (snd m) = false).
    { apply Z.eqb_neq. specialize (Hbefore 0%nat ltac:(lia)). exact Hbefore. }
    rewrite Hx. apply IH.
    + lia.
    + replace (fst m - i)%nat with (S (fst m - S i)) in Hn by lia. exact Hn.
    + lia.
    + intros j Hj. specialize (Hbefore (S j) ltac:(lia)). exact Hbefore.
Qed.

(** [l.index(max(l))] on integers is the first position of the largest
    element. *)
Lemma index_of_max_Z l k :
  index_of_max Z.gtb Z.eqb l = Ok k ->
  (k < length l)%nat /\
  (forall j, (j < length l)%nat -> nth j l 0 <= nth k l 0) /\
  (forall j, (j < k)%nat -> nth j l 0 < nth k l 0).
Proof.
  destruct l as [| x t]; [discriminate |].
  unfold index_of_max, py_max, res_bind.
  pose proof (max_scan_Z t 1 (0%nat, x) ltac:(simpl; lia)) as H.
  cbn zeta in H. cbn [fst snd] in H.
  set (r := max_scan Z.gtb t 1 (0%nat, x)) in *.
  destruct H as (Hall & Hle & Hcase).
  assert (Hpos : (fst r < length (x :: t))%nat /\ nth (fst r) (x :: t) 0 = snd r /\
                 forall j, (j < fst r)%nat -> nth j (x :: t) 0 < snd r).
  { destruct Hcase as [-> | (Hr & Hn & Hlt & Hbefore)]; cbn [fst snd length nth].
    - split; [lia |]. split; [reflexivity |]. intros j Hj. lia.
    - split; [lia |].
      destruct (fst r) as [| q] eqn:Eq; [lia |].
      cbn [nth]. replace (S q - 1)%nat with q in * by lia.
      split; [exact Hn |]. intros [| j] Hj; cbn [nth]; [exact Hlt |].
      apply Hbefore. lia. }
  destruct Hpos as (Hlt & Hn & Hbefore).
  rewrite (index_scan_first (x :: t) 0 r).
  - intros E. injection E as <-. split; [exact Hlt |]. split.
    + intros j Hj. rewrite Hn.
      assert (Hin : In (nth j (x :: t) 0) (x :: t)) by (apply nth_In; exact Hj).
      destruct Hin as [<- | Hin]; [exact Hle |].
      rewrite Forall_forall in Hall. apply Hall. exact Hin.
    + intros j Hj. rewrite Hn. apply Hbefore. exact Hj.
  - lia.
  - rewrite Nat.sub_0_r. exact Hn.
  - rewrite Nat.sub_0_r. exact Hlt.
  - rewrite Nat.sub_0_r. intros j Hj. specialize (Hbefore j Hj). lia.
Qed.

(** ** The statistics of the UCB1 loop *)

Lemma Zsum_list_set l : forall k x,
  (k < length l)%nat -> Zsum (list_set l k x) = Zsum l - nth k l 0 + x.
Proof.
  induction l as [| h t IH]; intros [| k] x Hk; simpl in *; try lia.
  rewrite IH by lia. lia.
Qed.

Lemma Forall_list_set {A} (P : A -> Prop) l : forall k x,
  Forall P l -> P x -> Forall P (list_set l k x).
Proof.
  induction l as [| h t IH]; intros [| k] x Hl Hx; simpl; auto;
    inversion Hl; subst; constructor; auto.
Qed.

Lemma nth_list_set {A} (l : list A) k j x d :
  (k < length l)%nat ->
  nth j (list_set l k x) d = if (j =? k)%nat then x else nth j l d.
Proof.
  intros Hk. destruct (j =? k)%nat eqn:E.
  - apply Nat.eqb_eq in E. subst j. apply nth_list_set_same. exact Hk.
  - apply Nat.eqb_neq in E. apply nth_list_set_other. exact E.
Qed.

Section UCTStatistics.

Variable fo : float_ops.
Variable rng : nat -> nat.

(** One pass of the loop, spelled out. *)
Lemma uct_iteration_step fuel b p C st k :
  wf_board b -> is_player p -> (9 <= fuel)%nat ->
  stats_ok (length (where_empty b 0)) st -> where_empty b 0 <> [] ->
  exists id a v k',
    index_of_max (f_gtb fo) (f_eqb fo) (UCB1 st) = Ok id /\
    (id < length (where_empty b 0))%nat /\
    nth_error (where_empty b 0) id = Some a /\
    -1 <= v <= 1 /\
    uct_iteration fo rng fuel b p C (where_empty b 0) st k
    = Ok ({| u := list_set (u st) id (nth id (u st) 0 + v);
             n := list_set (n st) id (nth id (n st) 0 + 1);
             n_parent := n_parent st + 1;
             UCB1 := update_UCB1 fo C (length (where_empty b 0))
                       (list_set (u st) id (nth id (u st) 0 + v))
                       (list_set (n st) id (nth id (n st) 0 + 1))
                       (n_parent st + 1) (UCB1 st) |}, k').
Proof.
  intros Hwf Hp Hfuel (Hu & Hcnt & Hucb) Hne.
  unfold uct_iteration.
  destruct (index_of_max_ok (f_gtb fo) (f_eqb fo) (UCB1 st)) as (id & Eid & Hid).
  { intros E. rewrite E in Hucb. simpl in Hucb.
    destruct (where_empty b 0); [congruence | discriminate]. }
  rewrite Hucb in Hid.
  destruct (nth_error (where_empty b 0) id) as [a |] eqn:Ea;
    [| apply nth_error_None in Ea; lia].
  assert (Hl : legal b a).
  { apply where_empty_legal. eapply nth_error_In. exact Ea. }
  destruct (playout_legal_ok rng fuel b a p k Hwf Hp Hfuel Hl)
    as (v & k' & Ev & Hv & _).
  exists id, a, v, k'.
  split; [exact Eid |]. split; [exact Hid |]. split; [exact Ea |].
  split; [exact Hv |].
  unfold bind, lift, ret, list_get. rewrite Eid, Ea, Ev. reflexivity.
Qed.

Lemma uct_iteration_inv fuel b p C st k :
  wf_board b -> is_player p -> (9 <= fuel)%nat ->
  where_empty b 0 <> [] ->
  stats_inv (length (where_empty b 0)) st ->
  exists st' k',
    uct_iteration fo rng fuel b p C (where_empty b 0) st k = Ok (st', k') /\
    stats_inv (length (where_empty b 0)) st' /\
    n_parent st' = n_parent st + 1.
Proof.
  intros Hwf Hp Hfuel Hne (Hok & Hpos & Hsum & Hbound).
  destruct (uct_iteration_step fuel b p C st k Hwf Hp Hfuel Hok Hne)
    as (id & a & v & k' & _ & Hid & _ & Hv & E).
  destruct Hok as (Hu & Hcnt & Hucb).
  eexists. exists k'. split; [exact E |]. cbn [n_parent].
  split; [| reflexivity].
  unfold stats_inv, stats_ok. cbn [u n n_parent UCB1].
  rewrite update_UCB1_length, !list_set_length.
  split; [auto |].
  assert (Hn_id : 0 <= nth id (n st) 0).
  { rewrite Forall_forall in Hpos. apply Hpos. apply nth_In. lia. }
  split; [apply Forall_list_set; [exact Hpos | lia] |].
  split; [rewrite Zsum_list_set by lia; lia |].
  intros i. rewrite !nth_list_set by lia.
  destruct (i =? id)%nat eqn:Ei; [| apply Hbound].
  specialize (Hbound id). lia.
Qed.

Lemma uct_iterate_inv fuel b p C : forall iterations st k,
  wf_board b -> is_player p -> (9 <= fuel)%nat ->
  where_empty b 0 <> [] ->
  stats_inv (length (where_empty b 0)) st ->
  exists st' k',
    uct_iterate fo rng iterations fuel b p C (where_empty b 0) st k
      = Ok (st', k') /\
    stats_inv (length (where_empty b 0)) st' /\
    n_parent st' = n_parent st + Z.of_nat iterations.
Proof.
  induction iterations as [| i IH]; intros st k Hwf Hp Hfuel Hne Hst.
  - exists st, k. split; [reflexivity |]. split; [exact Hst | simpl; lia].
  - cbn [uct_iterate].
    destruct (uct_iteration_inv fuel b p C st k Hwf Hp Hfuel Hne Hst)
      as (st1 & k1 & E1 & Hst1 & Hn1).
    unfold bind at 1. rewrite E1.
    destruct (IH st1 k1 Hwf Hp Hfuel Hne Hst1) as (st' & k' & E' & Hst' & Hn').
    exists st', k'. split; [exact E' |]. split; [exact Hst' | lia].
Qed.

Lemma Zsum_zeros k : Zsum (repeat 0 k) = 0.
Proof. induction k as [| k IH]; simpl; [reflexivity | exact IH]. Qed.

Lemma initial_stats_inv len :
  stats_inv len
    {| u := repeat 0 len; n := repeat 0 len; n_parent := 0;
       UCB1 := repeat (f_inf fo) len |}.
Proof.
  unfold stats_inv, stats_ok. cbn [u n n_parent UCB1].
  rewrite !repeat_length. split; [auto |].
  split; [apply Forall_forall; intros x Hx; apply repeat_spec in Hx; lia |].
  split; [apply Zsum_zeros |].
  intros i. rewrite nth_repeat. lia.
Qed.

Lemma UCT_loop_inv fuel b N p k :
  wf_board b -> is_player p -> (9 <= fuel)%nat -> (0 < count_empty b)%nat ->
  exists st k',
    UCT_loop fo rng fuel b N p k = Ok ((where_empty b 0, st), k') /\
    stats_inv (length (where_empty b 0)) st /\
    n_parent st = Z.max 0 N.
Proof.
  intros Hwf Hp Hfuel Hn.
  assert (Hne : where_empty b 0 <> []).
  { intros E. apply where_empty_nil in E. lia. }
  unfold UCT_loop, Natural.get_actions, bind, lift, ret.
  match goal with
  | |- context [ uct_iterate fo rng ?it fuel b p ?C _ ?st0 k ] =>
      destruct (uct_iterate_inv fuel b p C it st0 k Hwf Hp Hfuel Hne
                  (initial_stats_inv _)) as (st & k' & E & Hinv & Hnp)
  end.
  cbn [n_parent] in Hnp. exists st, k'. rewrite E.
  split; [reflexivity |]. split; [exact Hinv | lia].
Qed.

(** X14. When the UCB1 loop is left, on a well-formed board with a blank
    cell and for a budget [N >= 0]: the three lists have one entry per
    action, the visit counts are non-negative and add up to [N], which is
    also the parent count, and the total utility of an action lies between
    minus its visit count and its visit count. *)
Theorem uct_statistics_invariant fuel b N p k :
  wf_board b -> is_player p -> (9 <= fuel)%nat -> (0 < count_empty b)%nat ->
  0 <= N ->
  exists actions st k',
    UCT_loop fo rng fuel b N p k = Ok ((actions, st), k') /\
    Natural.get_actions b = Ok actions /\
    length (u st) = length actions /\
    length (n st) = length actions /\
    length (UCB1 st) = length actions /\
    Forall (fun x => 0 <= x) (n st) /\
    Zsum (n st) = N /\ n_parent st = N /\
    (forall i, - nth i (n st) 0 <= nth i (u st) 0 <= nth i (n st) 0).
Proof.
  intros Hwf Hp Hfuel Hn HN.
  destruct (UCT_loop_inv fuel b N p k Hwf Hp Hfuel Hn)
    as (st & k' & E & ((Hu & Hcnt & Hucb) & Hpos & Hsum & Hbound) & Hnp).
  exists (where_empty b 0), st, k'.
  split; [exact E |]. split; [reflexivity |].
  repeat (split; [assumption |]).
  split; [lia |]. split; [lia | exact Hbound].
Qed.

(** X15. The Monte Carlo search returns the action with the largest
    number of playouts, the first such action of the enumeration when
    several have it; this action is legal.  It holds for every budget. *)
Theorem uct_returns_most_visited_action fuel b N p k :
  wf_board b -> is_player p -> (9 <= fuel)%nat -> (0 < count_empty b)%nat ->
  exists actions st k' best a,
    UCT_loop fo rng fuel b N p k = Ok ((actions, st), k') /\
    UCT_depth1 fo rng fuel b N p k = Ok (a, k') /\
    nth_error actions best = Some a /\ legal b a /\
    (forall j, (j < length actions)%nat ->
       nth j (n st) 0 <= nth best (n st) 0) /\
    (forall j, (j < best)%nat -> nth j (n st) 0 < nth best (n st) 0).
Proof.
  intros Hwf Hp Hfuel Hn.
  destruct (UCT_loop_inv fuel b N p k Hwf Hp Hfuel Hn)
    as (st & k' & E & ((Hu & Hcnt & Hucb) & _) & _).
  assert (Hne : n st <> []).
  { intros E0. rewrite E0 in Hcnt. simpl in Hcnt.
    pose proof (where_empty_length b 0). lia. }
  destruct (index_of_max_ok Z.gtb Z.eqb (n st) Hne) as (best & Eb & Hb).
  destruct (index_of_max_Z (n st) best Eb) as (_ & Hmax & Hfirst).
  destruct (nth_error (where_empty b 0) best) as [a |] eqn:Ea;
    [| apply nth_error_None in Ea; lia].
  exists (where_empty b 0), st, k', best, a.
  split; [exact E |].
  split; [unfold UCT_depth1, bind, lift, list_get; rewrite E; cbn [fst snd];
          rewrite Eb, Ea; reflexivity |].
  split; [exact Ea |].
  split; [apply where_empty_legal; eapply nth_error_In; exact Ea |].
  split; [intros j Hj; apply Hmax; lia | exact Hfirst].
Qed.

End UCTStatistics.

Lemma uct_statistics_invariant_witness :
  wf_board b_win8 /\ is_player "x" /\ (9 <= 9)%nat /\
  (0 < count_empty b_win8)%nat /\ 0 <= 100 /\
  exists actions st k',
    UCT_loop real_arith sample_rng 9 b_win8 100 "x" 0%nat
    = Ok ((actions, st), k') /\
    Natural.get_actions b_win8 = Ok actions /\
    length (u st) = length actions /\
    length (n st) = length actions /\
    length (UCB1 st) = length actions /\
    Forall (fun x => 0 <= x) (n st) /\
    Zsum (n st) = 100 /\ n_parent st = 100 /\
    (forall i, - nth i (n st) 0 <= nth i (u st) 0 <= nth i (n st) 0).
Proof.
  assert (Hwf : wf_board b_win8) by (split; reflexivity).
  assert (Hp : is_player "x") by (left; reflexivity).
  assert (Hf : (9 <= 9)%nat) by lia.
  assert (Hn : (0 < count_empty b_win8)%nat) by (vm_compute; lia).
  assert (HN : 0 <= 100) by lia.
  split; [exact Hwf |]. split; [exact Hp |]. split; [exact Hf |].
  split; [exact Hn |]. split; [exact HN |].
  exact (uct_statistics_invariant real_arith sample_rng 9 b_win8 100 "x" 0%nat
           Hwf Hp Hf Hn HN).
Defined.

Lemma uct_returns_most_visited_action_witness :
  wf_board b_win8 /\ is_player "x" /\ (9 <= 9)%nat /\
  (0 < count_empty b_win8)%nat /\
  exists actions st k' best a,
    UCT_loop real_arith sample_rng 9 b_win8 100 "x" 0%nat
    = Ok ((actions, st), k') /\
    UCT_depth1 real_arith sample_rng 9 b_win8 100 "x" 0%nat = Ok (a, k') /\
    nth_error actions best = Some a /\ legal b_win8 a /\
    (forall j, (j < length actions)%nat ->
       nth j (n st) 0 <= nth best (n st) 0) /\
    (forall j, (j < best)%nat -> nth j (n st) 0 < nth best (n st) 0).
Proof.
  assert (Hwf : wf_board b_win8) by (split; reflexivity).
  assert (Hp : is_player "x") by (left; reflexivity).
  assert (Hf : (9 <= 9)%nat) by lia.
  assert (Hn : (0 < count_empty b_win8)%nat) by (vm_compute; lia).
  split; [exact Hwf |]. split; [exact Hp |]. split; [exact Hf |].
  split; [exact Hn |].
  exact (uct_returns_most_visited_action real_arith sample_rng 9 b_win8 100 "x"
           0%nat Hwf Hp Hf Hn).
Defined.

(** ** The first pass over the actions *)

Section FirstPass.

Variable fo : float_ops.
Variable rng : nat -> nat.
Hypothesis dominates : infinity_dominates fo.

Lemma inf_not_above_inf : f_gtb fo (f_inf fo) (f_inf fo) = false.
Proof. apply dominates. Qed.

Lemma inf_above_score x : is_score fo x -> f_gtb fo (f_inf fo) x = true.
Proof. intros (us & ns & np & ->). apply dominates. Qed.

Lemma score_is_not_inf x : is_score fo x -> f_eqb fo x (f_inf fo) = false.
Proof. intros (us & ns & np & ->). apply dominates. Qed.

Lemma max_scan_app {A} (gtb : A -> A -> bool) l1 : forall l2 i best,
  max_scan gtb (l1 ++ l2) i best
  = max_scan gtb l2 (i + length l1) (max_scan gtb l1 i best).
Proof.
  induction l1 as [| x t IH]; intros l2 i best; simpl.
  - rewrite Nat.add_0_r. reflexivity.
  - rewrite IH. f_equal. lia.
Qed.

Lemma scan_scores ss : forall i best,
  is_score fo (snd best) -> Forall (is_score fo) ss ->
  is_score fo (snd (max_scan (f_gtb fo) ss i best)).
Proof.
  induction ss as [| s t IH]; intros i best Hb Hs; simpl; [exact Hb |].
  inversion Hs; subst. apply IH; [| assumption].
  destruct (f_gtb fo s (snd best)); assumption.
Qed.

Lemma scan_infs m : forall i best,
  snd best = f_inf fo ->
  max_scan (f_gtb fo) (repeat (f_inf fo) m) i best = best.
Proof.
  induction m as [| m IH]; intros i best Hb; simpl; [reflexivity |].
  rewrite Hb, inf_not_above_inf. apply IH. exact Hb.
Qed.

Lemma py_max_first_inf ss m :
  Forall (is_score fo) ss ->
  py_max (f_gtb fo) (ss ++ repeat (f_inf fo) (S m))
  = Ok (length ss, f_inf fo).
Proof.
  intros Hs. destruct ss as [| s t]; cbn [app repeat py_max length].
  - rewrite scan_infs by reflexivity. reflexivity.
  - inversion Hs; subst. rewrite max_scan_app. cbn [max_scan].
    rewrite inf_above_score by (apply scan_scores; assumption).
    rewrite scan_infs by reflexivity. reflexivity.
Qed.

Lemma index_scan_first_inf ss rest :
  Forall (is_score fo) ss ->
  forall i,
    index_scan (f_eqb fo) (ss ++ f_inf fo :: rest) i
               ((i + length ss)%nat, f_inf fo)
    = Ok (i + length ss)%nat.
Proof.
  induction ss as [| s t IH]; intros Hs i; cbn [app index_scan length fst snd].
  - rewrite Nat.add_0_r, Nat.eqb_refl. reflexivity.
  - inversion Hs; subst.
    assert (E : (i =? i + S (length t))%nat = false)
      by (apply Nat.eqb_neq; lia).
    rewrite E, score_is_not_inf by assumption. cbn [orb].
    replace (i + S (length t))%nat with (S i + length t)%nat by lia.
    apply IH. assumption.
Qed.

(** With the tried actions first and the untried ones after them, the
    selection step takes the first untried action. *)
Lemma select_first_untried (l : list (F fo)) j :
  (j < length l)%nat ->
  (forall i, (i < j)%nat -> is_score fo (nth i l (f_inf fo))) ->
  (forall i, (j <= i < length l)%nat -> nth i l (f_inf fo) = f_inf fo) ->
  index_of_max (f_gtb fo) (f_eqb fo) l = Ok j.
Proof.
  intros Hj Hs Hi.
  assert (Hfirst : Forall (is_score fo) (firstn j l)).
  { apply Forall_forall. intros x Hx.
    destruct (In_nth _ _ (f_inf fo) Hx) as (i & Hlt & <-).
    rewrite length_firstn in Hlt. rewrite nth_firstn.
    destruct (i <? j)%nat eqn:E; [| apply Nat.ltb_ge in E; lia].
    apply Hs. apply Nat.ltb_lt in E. exact E. }
  assert (Hrest : skipn j l = repeat (f_inf fo) (S (length l - j - 1))).
  { apply nth_ext with (d := f_inf fo) (d' := f_inf fo).
    - rewrite length_skipn, repeat_length. lia.
    - intros i Hlt. rewrite length_skipn in Hlt.
      rewrite nth_skipn, nth_repeat. apply Hi. lia. }
  assert (Hlen : length (firstn j l) = j) by (apply firstn_length_le; lia).
  rewrite <- (firstn_skipn j l), Hrest.
  unfold index_of_max, res_bind. rewrite py_max_first_inf by exact Hfirst.
  cbn [repeat].
  pose proof (index_scan_first_inf (firstn j l)
                (repeat (f_inf fo) (length l - j - 1)) Hfirst 0) as H.
  cbn [Nat.add] in H. rewrite H, Hlen. reflexivity.
Qed.

Lemma fold_update_untouched (f : list (F fo) -> nat -> list (F fo)) ids :
  forall acc i d,
    (forall a id, id <> i -> nth i (f a id) d = nth i a d) ->
    ~ In i ids -> nth i (fold_left f ids acc) d = nth i acc d.
Proof.
  induction ids as [| id ids IH]; intros acc i d Hf Hnin; simpl; [reflexivity |].
  rewrite IH; [| exact Hf | intros H; apply Hnin; right; exact H].
  apply Hf. intros ->. apply Hnin. left. reflexivity.
Qed.

Lemma update_UCB1_tried C len us ns np ucb i d :
  length ucb = len -> (i < len)%nat -> 0 < nth i ns 0 ->
  nth i (update_UCB1 fo C len us ns np ucb) d
  = ucb1_score fo C (nth i us 0) (nth i ns 0) np.
Proof.
  intros Hlen Hi Hpos. unfold update_UCB1.
  assert (Hin : In i (seq 0 len)) by (apply in_seq; lia).
  assert (Hlen' : (i < length ucb)%nat) by lia.
  clear Hlen Hi. revert ucb Hlen' Hin.
  generalize (seq 0 len) as ids.
  induction ids as [| id ids IH]; intros ucb Hlen Hin; [destruct Hin |].
  cbn [fold_left].
  destruct (in_dec Nat.eq_dec i ids) as [Hin' | Hnin].
  - apply IH; [| exact Hin'].
    destruct (0 <? nth id ns 0); [rewrite list_set_length |]; exact Hlen.
  - destruct Hin as [-> | Hin]; [| contradiction].
    rewrite fold_update_untouched.
    + apply Z.ltb_lt in Hpos. rewrite Hpos.
      apply nth_list_set_same. exact Hlen.
    + intros a id Hid. destruct (0 <? nth id ns 0); [| reflexivity].
      apply nth_list_set_other. congruence.
    + exact Hnin.
Qed.

Lemma update_UCB1_untried C len us ns np ucb i d :
  nth i ns 0 <= 0 ->
  nth i (update_UCB1 fo C len us ns np ucb) d = nth i ucb d.
Proof.
  intros Hz. unfold update_UCB1. revert ucb.
  generalize (seq 0 len) as ids.
  induction ids as [| id ids IH]; intros ucb; [reflexivity |].
  cbn [fold_left]. rewrite IH.
  destruct (0 <? nth id ns 0) eqn:E; [| reflexivity].
  apply nth_list_set_other. intros ->. apply Z.ltb_lt in E. lia.
Qed.

Lemma first_pass_step fuel b p st k t :
  wf_board b -> is_player p -> (9 <= fuel)%nat ->
  tried_in_order (length (where_empty b 0)) t st ->
  (t < length (where_empty b 0))%nat ->
  exists st' k',
    uct_iteration fo rng fuel b p (f_sqrt fo (f_of_int fo 2))
                  (where_empty b 0) st k = Ok (st', k') /\
    tried_in_order (length (where_empty b 0)) (S t) st'.
Proof.
  intros Hwf Hp Hfuel (Hok & Ht & Hn & Hsc & Hinf) Hlt.
  assert (Hne : where_empty b 0 <> [])
    by (intros E; rewrite E in Hlt; simpl in Hlt; lia).
  destruct (uct_iteration_step fo rng fuel b p (f_sqrt fo (f_of_int fo 2)) st k
              Hwf Hp Hfuel Hok Hne)
    as (id & a & v & k' & Eid & Hid & _ & _ & E).
  destruct Hok as (Hu & Hcnt & Hucb).
  assert (id = t) as ->.
  { rewrite select_first_untried with (j := t) in Eid.
    - injection Eid as <-. reflexivity.
    - lia.
    - exact Hsc.
    - intros i Hi. apply Hinf. lia. }
  eexists. exists k'. split; [exact E |].
  unfold tried_in_order, stats_ok. cbn [u n n_parent UCB1].
  rewrite update_UCB1_length, !list_set_length.
  split; [auto |]. split; [lia |].
  assert (Hn' : forall i, (i < length (where_empty b 0))%nat ->
            nth i (list_set (n st) t (nth t (n st) 0 + 1)) 0
            = if (i <? S t)%nat then 1 else 0).
  { intros i Hi. rewrite nth_list_set by lia.
    destruct (i =? t)%nat eqn:Ei.
    - apply Nat.eqb_eq in Ei. subst i. rewrite (Hn t Hlt).
      rewrite Nat.ltb_irrefl.
      destruct (t <? S t)%nat eqn:E2; [reflexivity | apply Nat.ltb_ge in E2; lia].
    - apply Nat.eqb_neq in Ei. rewrite (Hn i Hi).
      destruct (Nat.ltb_spec i t), (Nat.ltb_spec i (S t)); try reflexivity; lia. }
  split; [exact Hn' |]. split.
  - intros i Hi. rewrite update_UCB1_tried; [| lia | lia |].
    + do 3 eexists. reflexivity.
    + rewrite Hn' by lia.
      destruct (i <? S t)%nat eqn:E2; [lia | apply Nat.ltb_ge in E2; lia].
  - intros i Hi. rewrite update_UCB1_untried; [apply Hinf; lia |].
    rewrite Hn' by lia.
    destruct (i <? S t)%nat eqn:E2; [apply Nat.ltb_lt in E2; lia | lia].
Qed.

Lemma all_tried_iterate fuel b p C : forall iterations st k,
  wf_board b -> is_player p -> (9 <= fuel)%nat -> where_empty b 0 <> [] ->
  stats_ok (length (where_empty b 0)) st ->
  Forall (fun x => 1 <= x) (n st) ->
  exists st' k',
    uct_iterate fo rng iterations fuel b p C (where_empty b 0) st k
      = Ok (st', k') /\
    stats_ok (length (where_empty b 0)) st' /\
    Forall (fun x => 1 <= x) (n st').
Proof.
  induction iterations as [| i IH]; intros st k Hwf Hp Hfuel Hne Hok Hall.
  - exists st, k. split; [reflexivity | auto].
  - cbn [uct_iterate].
    destruct (uct_iteration_step fo rng fuel b p C st k Hwf Hp Hfuel Hok Hne)
      as (id & a & v & k1 & _ & Hid & _ & _ & E).
    unfold bind at 1. rewrite E.
    destruct Hok as (Hu & Hcnt & Hucb).
    apply IH; try assumption.
    + unfold stats_ok. cbn [u n UCB1].
      rewrite update_UCB1_length, !list_set_length. auto.
    + cbn [n]. apply Forall_list_set; [exact Hall |].
      rewrite Forall_forall in Hall.
      assert (1 <= nth id (n st) 0) by (apply Hall; apply nth_In; lia).
      lia.
Qed.

Lemma first_pass_iterate fuel b p : forall iterations t st k,
  wf_board b -> is_player p -> (9 <= fuel)%nat -> where_empty b 0 <> [] ->
  tried_in_order (length (where_empty b 0)) t st ->
  exists st' k',
    uct_iterate fo rng iterations fuel b p (f_sqrt fo (f_of_int fo 2))
                (where_empty b 0) st k = Ok (st', k') /\
    ((t + iterations <= length (where_empty b 0))%nat ->
     tried_in_order (length (where_empty b 0)) (t + iterations) st') /\
    ((length (where_empty b 0) <= t + iterations)%nat ->
     Forall (fun x => 1 <= x) (n st')).
Proof.
  assert (Hfull : forall st : uct_stats fo,
            tried_in_order (length (where_empty b 0))
                           (length (where_empty b 0)) st ->
            Forall (fun x => 1 <= x) (n st)).
  { intros st ((_ & Hcnt & _) & _ & Hn & _). apply Forall_forall. intros x Hx.
    destruct (In_nth _ _ 0 Hx) as (i & Hi & <-). rewrite Hn by lia.
    destruct (i <? length (where_empty b 0))%nat eqn:E; [lia |].
    apply Nat.ltb_ge in E. lia. }
  induction iterations as [| i IH]; intros t st k Hwf Hp Hfuel Hne Hst.
  - exists st, k. split; [reflexivity |]. rewrite Nat.add_0_r.
    split; [intros _; exact Hst |].
    intros Hle. apply Hfull.
    assert (Et : t = length (where_empty b 0))
      by (destruct Hst as (_ & ? & _); lia).
    rewrite Et in Hst. exact Hst.
  - cbn [uct_iterate].
    destruct (Nat.lt_ge_cases t (length (where_empty b 0))) as [Hlt | Hge].
    + destruct (first_pass_step fuel b p st k t Hwf Hp Hfuel Hst Hlt)
        as (st1 & k1 & E1 & Hst1).
      unfold bind at 1. rewrite E1.
      destruct (IH (S t) st1 k1 Hwf Hp Hfuel Hne Hst1) as (st' & k' & E' & H1 & H2).
      exists st', k'. split; [exact E' |].
      replace (t + S i)%nat with (S t + i)%nat by lia. auto.
    + assert (t = length (where_empty b 0)) as Et
        by (destruct Hst as (_ & ? & _); lia).
      assert (Hall : Forall (fun x => 1 <= x) (n st)).
      { apply Hfull. pose proof Hst as Hst'. rewrite Et in Hst'. exact Hst'. }
      destruct (all_tried_iterate fuel b p (f_sqrt fo (f_of_int fo 2)) (S i) st k
                  Hwf Hp Hfuel Hne ltac:(apply Hst) Hall)
        as (st' & k' & E' & _ & Hall').
      cbn [uct_iterate] in E'. exists st', k'. split; [exact E' |].
      split; [intros; lia | intros _; exact Hall'].
Qed.

(** X16. When infinity is above every score of the formula (and equal to
    none), the loop first takes each action once, in the order of the
    enumeration: after a budget [N] of at most the number of actions the
    first [N] actions have one playout and the others none, and after a
    larger budget every action has at least one. *)
Theorem uct_tries_every_action_first fuel b N p k :
  wf_board b -> is_player p -> (9 <= fuel)%nat -> (0 < count_empty b)%nat ->
  0 <= N ->
  exists actions st k',
    UCT_loop fo rng fuel b N p k = Ok ((actions, st), k') /\
    Natural.get_actions b = Ok actions /\
    (N <= Z.of_nat (length actions) ->
     forall i, (i < length actions)%nat ->
       nth i (n st) 0 = if (i <? Z.to_nat N)%nat then 1 else 0) /\
    (Z.of_nat (length actions) <= N -> Forall (fun x => 1 <= x) (n st)).
Proof.
  intros Hwf Hp Hfuel Hn HN.
  assert (Hne : where_empty b 0 <> []).
  { intros E. apply where_empty_nil in E. lia. }
  set (len := length (where_empty b 0)).
  assert (H0 : tried_in_order len 0
                 {| u := repeat 0 len; n := repeat 0 len; n_parent := 0;
                    UCB1 := repeat (f_inf fo) len |}).
  { unfold tried_in_order, stats_ok. cbn [u n UCB1].
    rewrite !repeat_length. split; [auto |]. split; [lia |].
    split; [intros i Hi; rewrite nth_repeat; reflexivity |].
    split; [intros i Hi; lia |].
    intros i Hi. apply nth_repeat. }
  destruct (first_pass_iterate fuel b p (Z.to_nat N) 0 _ k Hwf Hp Hfuel Hne H0)
    as (st & k' & E & H1 & H2).
  exists (where_empty b 0), st, k'.
  split; [unfold UCT_loop, Natural.get_actions, bind, lift, ret;
          fold len; rewrite E; reflexivity |].
  split; [reflexivity |]. fold len. cbn [Nat.add] in H1, H2. split.
  - intros HNle. destruct (H1 ltac:(lia)) as (_ & _ & Hcount & _). exact Hcount.
  - intros HNge. apply H2. lia.
Qed.

End FirstPass.

Lemma uct_tries_every_action_first_witness :
  infinity_dominates real_arith /\
  wf_board b_win8 /\ is_player "x" /\ (9 <= 9)%nat /\
  (0 < count_empty b_win8)%nat /\ 0 <= 3 /\
  exists actions st k',
    UCT_loop real_arith sample_rng 9 b_win8 3 "x" 0%nat
    = Ok ((actions, st), k') /\
    Natural.get_actions b_win8 = Ok actions /\
    (3 <= Z.of_nat (length actions) ->
     forall i, (i < length actions)%nat ->
       nth i (n st) 0 = if (i <? Z.to_nat 3)%nat then 1 else 0) /\
    (Z.of_nat (length actions) <= 3 -> Forall (fun x => 1 <= x) (n st)).
Proof.
  assert (Hd : infinity_dominates real_arith).
  { split; [reflexivity |]. intros us ns np. split; reflexivity. }
  assert (Hwf : wf_board b_win8) by (split; reflexivity).
  assert (Hp : is_player "x") by (left; reflexivity).
  assert (Hf : (9 <= 9)%nat) by lia.
  assert (Hn : (0 < count_empty b_win8)%nat) by (vm_compute; lia).
  assert (HN : 0 <= 3) by lia.
  split; [exact Hd |]. split; [exact Hwf |]. split; [exact Hp |].
  split; [exact Hf |]. split; [exact Hn |]. split; [exact HN |].
  exact (uct_tries_every_action_first real_arith sample_rng Hd 9 b_win8 3 "x"
           0%nat Hwf Hp Hf Hn HN).
Defined.

(** * The game loop *)

Example play_random_vs_random :
  play (random_player Natural.get_actions sample_rng)
       (random_player Natural.get_actions sample_rng) 9 3
       {| COUNT := 0; drawn := 0 |}
  = Done ([("x", 2); ("o", 0); ("d", 1)], {| COUNT := 0; drawn := 21 |}).
Proof. vm_compute. reflexivity. Qed.

Lemma not_terminal_check_win b :
  is_terminal b = Ok false <-> check_win b = Ok "n".
Proof.
  unfold is_terminal, res_map, res_bind.
  destruct (check_win b) as [g | e]; [| split; discriminate].
  destruct (String.eqb_spec g "n") as [-> | Hn]; cbn; split; intros H;
    try reflexivity; try discriminate.
  injection H as ->. congruence.
Qed.

Lemma not_terminal_blank b :
  wf_board b -> is_terminal b = Ok false -> (0 < count_empty b)%nat.
Proof.
  intros Hwf Ht. apply not_terminal_check_win in Ht.
  destruct (check_win_cases b Hwf) as [E | [E | [[E _] | [_ Hn]]]];
    try (rewrite E in Ht; discriminate). exact Hn.
Qed.

Lemma not_terminal_utility b p :
  wf_board b -> is_player p -> is_terminal b = Ok false ->
  utility b p = Ok None.
Proof.
  intros Hwf Hp Ht.
  destruct (utility_cases b p Hwf Hp) as [(v & _ & _ & Ht') | (Eu & _)];
    [congruence | exact Eu].
Qed.

Lemma switch_player_player {A} p (x o : A) :
  is_player p ->
  switch_player p x o = (other p, agent_of (other p) x o).
Proof. intros [-> | ->]; reflexivity. Qed.

Lemma other_other p : is_player p -> other (other p) = p.
Proof. intros [-> | ->]; reflexivity. Qed.

Lemma other_differs p : is_player p -> String.eqb (other p) p = false.
Proof. intros [-> | ->]; reflexivity. Qed.

(** ** The agents *)

Lemma random_player_sound get_actions rng :
  enumerates_legal get_actions -> sound_agent (random_player get_actions rng).
Proof.
  intros Hga b p g Hwf Hp Ht.
  destruct (Hga b Hwf) as (l & El & Hl).
  assert (Hne : l <> []).
  { destruct (some_legal_action b (not_terminal_blank b Hwf Ht)) as (a & Ha).
    apply Hl in Ha. intros ->. destruct Ha. }
  destruct (random_choice_ok rng l (drawn g) Hne) as (a & Ea & Hin).
  exists a. eexists. unfold random_player, with_rng, bind, lift, ret.
  rewrite El, Ea. split; [reflexivity | apply Hl; exact Hin].
Qed.

Lemma alpha_beta_player_optimal get_actions fuel m :
  enumerates_legal get_actions -> (10 <= fuel)%nat -> is_player m ->
  optimal_agent m (alpha_beta_player get_actions fuel).
Proof.
  intros Hga Hfuel Hm b g v Hwf Ht Hg.
  pose proof (wf_count_empty b Hwf) as Hc.
  destruct (searches_spec get_actions Hga fuel b m (COUNT g) (COUNT g) Hwf Hm
              ltac:(lia))
    as (v0 & mv1 & mv2 & n1 & n2 & E1 & _ & _ & _ & Hg0 & Hmv & _).
  destruct (alpha_beta_same_result get_actions fuel b m (COUNT g) (COUNT g) _ n1 E1)
    as (n2' & E2 & _).
  assert (v0 = v) as ->
    by (eapply game_value_unique with (k := 10%nat); eauto; lia).
  destruct mv1 as [a |]; cbn in Hmv; [| congruence].
  destruct Hmv as (_ & Hl & b' & Eb & Hgb).
  exists a. eexists. exists b'.
  unfold alpha_beta_player, with_COUNT, bind, ret. rewrite E2. cbn [move].
  split; [reflexivity |]. split; [exact Hl |]. split; [exact Eb | exact Hgb].
Qed.

Lemma optimal_agent_sound m ag :
  is_player m -> optimal_agent m ag ->
  forall b g, wf_board b -> is_terminal b = Ok false ->
    exists a g', ag b m g = Ok (Some a, g') /\ legal b a.
Proof.
  intros Hm Hopt b g Hwf Ht.
  pose proof (wf_count_empty b Hwf) as Hc.
  destruct (minimax_spec Natural.get_actions natural_enumerates_legal 10 m Hm b 0
              Hwf ltac:(lia)) as [(v & _ & _ & _ & _ & _ & Hg & _) _].
  destruct (Hopt b g v Hwf Ht Hg) as (a & g' & b' & E & Hl & _).
  eauto.
Qed.

Lemma alpha_beta_player_sound get_actions fuel :
  enumerates_legal get_actions -> (10 <= fuel)%nat ->
  sound_agent (alpha_beta_player get_actions fuel).
Proof.
  intros Hga Hfuel b p g Hwf Hp Ht.
  apply (optimal_agent_sound p); auto.
  apply alpha_beta_player_optimal; auto.
Qed.

Lemma ucb1_player_sound fo rng fuel N :
  (9 <= fuel)%nat ->
  sound_agent (fun board player =>
    with_rng (a <- UCT_depth1 fo rng fuel board N player ;; ret (Some a))).
Proof.
  intros Hfuel b p g Hwf Hp Ht.
  destruct (UCT_ok fo rng fuel b N p (drawn g) Hwf Hp Hfuel
              (not_terminal_blank b Hwf Ht)) as (st & k' & a & _ & _ & E & Hl).
  exists a. eexists. unfold with_rng, bind, ret. rewrite E.
  split; [reflexivity | exact Hl].
Qed.

Lemma notebook_agents_sound fo rng fuel pfuel ag :
  (10 <= fuel)%nat -> (9 <= pfuel)%nat ->
  In ag (notebook_agents fo rng fuel pfuel) -> sound_agent ag.
Proof.
  intros Hfuel Hpfuel Hin. unfold notebook_agents in Hin. simpl in Hin.
  destruct Hin as [<- | [<- | [<- | [<- | [<- | [<- | []]]]]]].
  - apply random_player_sound, natural_enumerates_legal.
  - apply random_player_sound, priority_enumerates_legal.
  - apply alpha_beta_player_sound; [apply natural_enumerates_legal | exact Hfuel].
  - apply alpha_beta_player_sound; [apply priority_enumerates_legal | exact Hfuel].
  - apply ucb1_player_sound. exact Hpfuel.
  - apply ucb1_player_sound. exact Hpfuel.
Qed.

(** ** One game *)

Section Game.

Variables x o : agent.

Lemma game_loop_sound :
  sound_agent x -> sound_agent o ->
  forall fuel b p g,
    wf_board b -> is_terminal b = Ok false -> is_player p ->
    (count_empty b <= fuel)%nat ->
    exists win g',
      game_loop x o fuel b p (agent_of p x o) g = Done (win, g') /\
      (win = "x" \/ win = "o" \/ win = "d").
Proof.
  intros Hx Ho.
  assert (Hag : forall p, is_player p -> sound_agent (agent_of p x o))
    by (intros p [-> | ->]; assumption).
  induction fuel as [| fuel IH]; intros b p g Hwf Ht Hp Hfuel.
  - pose proof (not_terminal_blank b Hwf Ht). lia.
  - cbn [game_loop].
    destruct (Hag p Hp b p g Hwf Hp Ht) as (a & g1 & Ea & Hl). rewrite Ea.
    destruct (result_child b p a Hwf Hp Hl) as (b' & Eb & Hwf' & Hcnt).
    rewrite Eb.
    destruct (check_win_cases b' Hwf') as [E | [E | [[E _] | [E _]]]];
      rewrite E; cbn [String.eqb Ascii.eqb Bool.eqb negb andb].
    + exists "x", g1. auto.
    + exists "o", g1. auto.
    + exists "d", g1. auto.
    + rewrite (switch_player_player p x o Hp). cbn [fst snd].
      apply IH; auto.
      * apply not_terminal_check_win. exact E.
      * apply other_player. exact Hp.
      * lia.
Qed.

(** A finished game that is worth at least 0 to [m] was not won by the
    other player. *)
Lemma terminal_value_win m t b v win :
  wf_board b -> is_player m -> game_value m t b v ->
  check_win b = Ok win -> win <> "n" -> 0 <= v ->
  win = m \/ win = "d".
Proof.
  intros Hwf Hm Hg Ew Hn Hv.
  assert (Hu : utility b m = Ok (Some v)).
  { assert (Hsome : exists u, utility b m = Ok (Some u)).
    { destruct (utility_cases b m Hwf Hm) as [(u & Eu & _) | (_ & _ & Ht)];
        [eauto |].
      apply not_terminal_check_win in Ht. congruence. }
    destruct Hsome as (u & Eu).
    inversion Hg; subst; congruence. }
  unfold utility, res_bind in Hu. rewrite Ew in Hu.
  destruct (String.eqb_spec win m) as [-> | Hne]; [left; reflexivity |].
  destruct (String.eqb_spec win "d") as [-> | Hd]; [right; reflexivity |].
  destruct (String.eqb win (other m)); [| discriminate].
  injection Hu as <-. lia.
Qed.

Lemma game_loop_never_loses m :
  is_player m ->
  optimal_agent m (agent_of m x o) ->
  sound_agent (agent_of (other m) x o) ->
  forall fuel b p g v,
    wf_board b -> is_terminal b = Ok false -> is_player p ->
    (count_empty b <= fuel)%nat ->
    game_value m (turn_for m p) b v -> 0 <= v ->
    exists win g',
      game_loop x o fuel b p (agent_of p x o) g = Done (win, g') /\
      (win = m \/ win = "d").
Proof.
  intros Hm Hopt Hsound.
  induction fuel as [| fuel IH]; intros b p g v Hwf Ht Hp Hfuel Hg Hv.
  - pose proof (not_terminal_blank b Hwf Ht). lia.
  - cbn [game_loop].
    assert (Hstep : exists a g1 b' w,
              agent_of p x o b p g = Ok (Some a, g1) /\
              result b p a = Ok b' /\ wf_board b' /\
              S (count_empty b') = count_empty b /\
              game_value m (turn_for m (other p)) b' w /\ 0 <= w).
    { unfold turn_for in Hg |- *.
      destruct (String.eqb_spec p m) as [-> | Hpm].
      - destruct (Hopt b g v Hwf Ht Hg) as (a & g1 & b' & Ea & Hl & Eb & Hgb).
        destruct (result_deterministic_child b m a Hwf Hm Hl b' Eb) as [Hwf' Hc].
        exists a, g1, b', v. rewrite (other_differs m Hm). auto 10.
      - assert (p = other m) as ->
          by (destruct Hp as [-> | ->], Hm as [-> | ->]; try reflexivity;
              congruence).
        destruct (Hsound b (other m) g Hwf Hp Ht) as (a & g1 & Ea & Hl).
        pose proof (not_terminal_utility b m Hwf Hm Ht) as Eu.
        inversion Hg as [? ? ? Eu' | | ? ? _ _ Hall]; subst; [congruence |].
        destruct (Hall a Hl) as (b' & w & Eb & Hgb & Hle).
        destruct (result_deterministic_child b (other m) a Hwf Hp Hl b' Eb)
          as [Hwf' Hc].
        exists a, g1, b', w. rewrite (other_other m Hm), String.eqb_refl.
        split; [exact Ea |]. split; [exact Eb |]. split; [exact Hwf' |].
        split; [exact Hc |]. split; [exact Hgb | lia]. }
    destruct Hstep as (a & g1 & b' & w & Ea & Eb & Hwf' & Hcnt & Hgb & Hw).
    rewrite Ea, Eb.
    destruct (check_win b') as [win | e] eqn:Ew.
    + destruct (String.eqb_spec win "n") as [-> | Hn]; cbn [negb].
      * rewrite (switch_player_player p x o Hp). cbn [fst snd].
        apply (IH b' (other p) g1 w); auto.
        -- apply not_terminal_check_win. exact Ew.
        -- apply other_player. exact Hp.
        -- lia.
      * exists win, g1. split; [reflexivity |].
        eapply terminal_value_win; eauto.
    + destruct (check_win_cases b' Hwf') as [E | [E | [[E _] | [E _]]]];
        congruence.
Qed.

End Game.


Lemma empty_board_wf : wf_board empty_board.
Proof. vm_compute. auto. Qed.

Lemma empty_board_value_first : game_value "x" MaxTurn empty_board 0.
Proof.
  assert (Hc : (count_empty empty_board < 10)%nat) by (vm_compute; lia).
  destruct (minimax_spec Natural.get_actions natural_enumerates_legal 10 "x"
              (or_introl eq_refl) empty_board 0 empty_board_wf Hc)
    as [(v & mv & c' & E & _ & _ & Hg & _) _].
  destruct (alpha_beta_sim Natural.get_actions 10 empty_board "x" 0 0
              NegInf PosInf (Int v) mv c' eq_refl) as [Hsim _].
  destruct (Hsim E) as (r & mv2 & c2' & E2 & (Hin & _) & _).
  rewrite (Hin eq_refl eq_refl) in E2.
  vm_compute in E2. injection E2 as <- _ _. exact Hg.
Qed.

Lemma empty_board_value_second : game_value "o" MinTurn empty_board 0.
Proof.
  assert (Hc : (count_empty empty_board < 10)%nat) by (vm_compute; lia).
  destruct (minimax_spec Natural.get_actions natural_enumerates_legal 10 "o"
              (or_intror eq_refl) empty_board 0 empty_board_wf Hc)
    as [_ (v & mv & c' & E & _ & _ & Hg & _)].
  destruct (alpha_beta_sim Natural.get_actions 10 empty_board "o" 0 0
              NegInf PosInf (Int v) mv c' eq_refl) as [_ Hsim].
  destruct (Hsim E) as (r & mv2 & c2' & E2 & (Hin & _) & _).
  rewrite (Hin eq_refl eq_refl) in E2.
  vm_compute in E2. injection E2 as <- _ _. exact Hg.
Qed.

(** ** A series of games *)

Section Series.

Variables x o : agent.
Variable fuel : nat.

(** [wins] holds of every symbol a game of the two agents can end with. *)
Variable wins : string -> Prop.

Hypothesis game_ends : forall g,
  exists win g',
    game_loop x o fuel empty_board "x" x g = Done (win, g') /\
    (win = "x" \/ win = "o" \/ win = "d") /\ wins win.

Lemma play_games_counts : forall games rx ro rd g,
  exists rx' ro' rd' g',
    play_games x o fuel games [("x", rx); ("o", ro); ("d", rd)] g
      = Done ([("x", rx'); ("o", ro'); ("d", rd')], g') /\
    rx <= rx' /\ ro <= ro' /\ rd <= rd' /\
    rx' + ro' + rd' = rx + ro + rd + Z.of_nat games /\
    (~ wins "x" -> rx' = rx) /\ (~ wins "o" -> ro' = ro) /\
    (~ wins "d" -> rd' = rd).
Proof.
  induction games as [| games IH]; intros rx ro rd g.
  - exists rx, ro, rd, g. cbn [play_games].
    split; [reflexivity |]. repeat (split; [lia |]). auto.
  - cbn [play_games].
    destruct (game_ends g) as (win & g1 & E & Hwin & Hw). rewrite E.
    destruct Hwin as [-> | [-> | ->]]; cbn.
    + destruct (IH (rx + 1) ro rd g1)
        as (rx' & ro' & rd' & g' & E' & H1 & H2 & H3 & H4 & N1 & N2 & N3).
      exists rx', ro', rd', g'. split; [exact E' |].
      repeat (split; [lia |]). split; [tauto |]. auto.
    + destruct (IH rx (ro + 1) rd g1)
        as (rx' & ro' & rd' & g' & E' & H1 & H2 & H3 & H4 & N1 & N2 & N3).
      exists rx', ro', rd', g'. split; [exact E' |].
      repeat (split; [lia |]). split; [auto |]. split; [tauto | auto].
    + destruct (IH rx ro (rd + 1) g1)
        as (rx' & ro' & rd' & g' & E' & H1 & H2 & H3 & H4 & N1 & N2 & N3).
      exists rx', ro', rd', g'. split; [exact E' |].
      repeat (split; [lia |]). split; [auto |]. split; [auto | tauto].
Qed.

Lemma play_counts N g :
  exists rx ro rd g',
    play x o fuel N g = Done ([("x", rx); ("o", ro); ("d", rd)], g') /\
    0 <= rx /\ 0 <= ro /\ 0 <= rd /\ rx + ro + rd = Z.max 0 N /\
    (~ wins "x" -> rx = 0) /\ (~ wins "o" -> ro = 0) /\
    (~ wins "d" -> rd = 0).
Proof.
  unfold play.
  destruct (play_games_counts (Z.to_nat N) 0 0 0 g)
    as (rx & ro & rd & g' & E & H1 & H2 & H3 & H4 & N1 & N2 & N3).
  exists rx, ro, rd, g'. split; [exact E |].
  repeat (split; [lia |]). auto.
Qed.

End Series.

Lemma first_game_ends x o fuel g :
  sound_agent x -> sound_agent o -> (9 <= fuel)%nat ->
  exists win g',
    game_loop x o fuel empty_board "x" x g = Done (win, g') /\
    (win = "x" \/ win = "o" \/ win = "d") /\ True.
Proof.
  intros Hx Ho Hfuel.
  destruct (game_loop_sound x o Hx Ho fuel empty_board "x" g empty_board_wf
              eq_refl (or_introl eq_refl)) as (win & g' & E & Hw).
  - vm_compute. lia.
  - exists win, g'. auto.
Qed.

Lemma first_game_not_lost x o fuel m g :
  is_player m -> optimal_agent m (agent_of m x o) ->
  sound_agent (agent_of (other m) x o) -> (9 <= fuel)%nat ->
  exists win g',
    game_loop x o fuel empty_board "x" x g = Done (win, g') /\
    (win = "x" \/ win = "o" \/ win = "d") /\ (win = m \/ win = "d").
Proof.
  intros Hm Hopt Hsound Hfuel.
  assert (Hg : game_value m (turn_for m "x") empty_board 0).
  { destruct Hm as [-> | ->];
      [exact empty_board_value_first | exact empty_board_value_second]. }
  destruct (game_loop_never_loses x o m Hm Hopt Hsound fuel empty_board "x" g 0
              empty_board_wf eq_refl (or_introl eq_refl))
    as (win & g' & E & Hw); [vm_compute; lia | exact Hg | lia |].
  exists win, g'. split; [exact E |]. split; [| exact Hw].
  destruct Hw as [-> | ->]; [| auto].
  destruct Hm as [-> | ->]; auto.
Qed.

Lemma random_player_spec get_actions rng b p g :
  enumerates_legal get_actions -> wf_board b ->
  ((0 < count_empty b)%nat ->
     exists a,
       random_player get_actions rng b p g
         = Ok (Some a, {| COUNT := COUNT g; drawn := S (drawn g) |}) /\
       legal b a) /\
  (count_empty b = 0%nat ->
     random_player get_actions rng b p g = Raise ValueError).
Proof.
  intros Hga Hwf. destruct (Hga b Hwf) as (l & El & Hl).
  unfold random_player, with_rng, bind, lift, ret. rewrite El. split.
  - intros Hpos.
    assert (Hne : l <> []).
    { destruct (some_legal_action b Hpos) as (a & Ha).
      apply Hl in Ha. intros ->. destruct Ha. }
    destruct (random_choice_ok rng l (drawn g) Hne) as (a & Ea & Hin).
    exists a. rewrite Ea. split; [reflexivity | apply Hl; exact Hin].
  - intros Hzero.
    assert (l = []) as ->.
    { destruct l as [| a l']; [reflexivity |].
      assert (Ha : legal b a) by (apply Hl; left; reflexivity).
      apply where_empty_legal in Ha.
      apply where_empty_nil in Hzero. rewrite Hzero in Ha. destruct Ha. }
    reflexivity.
Qed.

(** X17. [random_player] ignores the player and whether the game is over:
    on a board with a blank cell it draws one random number and answers a
    blank cell, under either ordering of the actions; on a board without a
    blank cell [np.random.choice] raises [ValueError]. *)
Theorem random_player_answers_a_blank_cell rng b p g :
  wf_board b ->
  both_orderings (fun get_actions =>
    ((0 < count_empty b)%nat ->
       exists a,
         random_player get_actions rng b p g
           = Ok (Some a, {| COUNT := COUNT g; drawn := S (drawn g) |}) /\
         legal b a) /\
    (count_empty b = 0%nat ->
       random_player get_actions rng b p g = Raise ValueError)).
Proof.
  intros Hwf. split.
  - apply random_player_spec; [apply natural_enumerates_legal | exact Hwf].
  - apply random_player_spec; [apply priority_enumerates_legal | exact Hwf].
Qed.

Lemma random_player_answers_a_blank_cell_witness :
  wf_board b_draw7 /\
  both_orderings (fun get_actions =>
    ((0 < count_empty b_draw7)%nat ->
       exists a,
         random_player get_actions sample_rng b_draw7 "x"
             {| COUNT := 0; drawn := 4 |}
           = Ok (Some a, {| COUNT := 0; drawn := 5 |}) /\
         legal b_draw7 a) /\
    (count_empty b_draw7 = 0%nat ->
       random_player get_actions sample_rng b_draw7 "x"
           {| COUNT := 0; drawn := 4 |} = Raise ValueError)).
Proof.
  assert (Hwf : wf_board b_draw7) by (vm_compute; auto).
  split; [exact Hwf |].
  exact (random_player_answers_a_blank_cell sample_rng b_draw7 "x"
           {| COUNT := 0; drawn := 4 |} Hwf).
Defined.

(** X18. Every agent of the two notebooks (the random player under either
    ordering, the alpha-beta player under either ordering, the two UCB1
    players) answers a legal action on every well-formed board on which the
    game is not over, for either player symbol. *)
Theorem notebook_agents_answer_legal_actions fo rng fuel pfuel b p g :
  (10 <= fuel)%nat -> (9 <= pfuel)%nat ->
  wf_board b -> is_player p -> is_terminal b = Ok false ->
  Forall (fun ag : agent =>
            exists a g', ag b p g = Ok (Some a, g') /\ legal b a)
         (notebook_agents fo rng fuel pfuel).
Proof.
  intros Hfuel Hpfuel Hwf Hp Ht. apply Forall_forall. intros ag Hin.
  apply (notebook_agents_sound fo rng fuel pfuel ag Hfuel Hpfuel Hin b p g);
    assumption.
Qed.

Lemma notebook_agents_answer_legal_actions_witness :
  (10 <= 10)%nat /\ (9 <= 9)%nat /\ wf_board b_draw7 /\ is_player "x" /\
  is_terminal b_draw7 = Ok false /\
  Forall (fun ag : agent =>
            exists a g',
              ag b_draw7 "x" {| COUNT := 0; drawn := 0 |} = Ok (Some a, g') /\
              legal b_draw7 a)
         (notebook_agents real_arith sample_rng 10 9).
Proof.
  assert (H1 : (10 <= 10)%nat) by lia.
  assert (H2 : (9 <= 9)%nat) by lia.
  assert (H3 : wf_board b_draw7) by (vm_compute; auto).
  assert (H4 : is_player "x") by (left; reflexivity).
  assert (H5 : is_terminal b_draw7 = Ok false) by (vm_compute; reflexivity).
  split; [exact H1 |]. split; [exact H2 |]. split; [exact H3 |].
  split; [exact H4 |]. split; [exact H5 |].
  exact (notebook_agents_answer_legal_actions real_arith sample_rng 10 9
           b_draw7 "x" {| COUNT := 0; drawn := 0 |} H1 H2 H3 H4 H5).
Defined.

(** X19. [play(x, o, N)] with two agents that answer legal actions returns:
    no game takes more than nine moves, no exception is raised, the
    dictionary keeps its three keys, and the three counts are not negative
    and add up to the number of games, which is 0 for a negative [N]. *)
Theorem play_counts_every_game x o fuel N g :
  sound_agent x -> sound_agent o -> (9 <= fuel)%nat ->
  exists rx ro rd g',
    play x o fuel N g = Done ([("x", rx); ("o", ro); ("d", rd)], g') /\
    0 <= rx /\ 0 <= ro /\ 0 <= rd /\ rx + ro + rd = Z.max 0 N.
Proof.
  intros Hx Ho Hfuel.
  destruct (play_counts x o fuel (fun _ => True)
              (fun g0 => first_game_ends x o fuel g0 Hx Ho Hfuel) N g)
    as (rx & ro & rd & g' & E & H1 & H2 & H3 & H4 & _).
  exists rx, ro, rd, g'. auto.
Qed.

Lemma play_counts_every_game_witness :
  sound_agent (random_player Natural.get_actions sample_rng) /\
  sound_agent (ucb1_10_player real_arith sample_rng 9) /\
  (9 <= 9)%nat /\
  exists rx ro rd g',
    play (random_player Natural.get_actions sample_rng)
         (ucb1_10_player real_arith sample_rng 9) 9 3
         {| COUNT := 0; drawn := 0 |}
      = Done ([("x", rx); ("o", ro); ("d", rd)], g') /\
    0 <= rx /\ 0 <= ro /\ 0 <= rd /\ rx + ro + rd = Z.max 0 3.
Proof.
  assert (H1 : sound_agent (random_player Natural.get_actions sample_rng))
    by (apply random_player_sound, natural_enumerates_legal).
  assert (H2 : sound_agent (ucb1_10_player real_arith sample_rng 9))
    by (apply ucb1_player_sound; lia).
  assert (H3 : (9 <= 9)%nat) by lia.
  split; [exact H1 |]. split; [exact H2 |]. split; [exact H3 |].
  exact (play_counts_every_game _ _ 9 3 {| COUNT := 0; drawn := 0 |} H1 H2 H3).
Defined.

(** X20. The alpha-beta player never loses as the first player: in
    [play(alpha_beta_player, o, N)], against any agent [o] that answers
    legal actions and under either ordering of the actions, the count of
    wins of o stays 0. *)
Theorem alpha_beta_player_never_loses_as_x o fuel gfuel N g :
  (10 <= fuel)%nat -> (9 <= gfuel)%nat -> sound_agent o ->
  both_orderings (fun get_actions =>
    exists rx rd g',
      play (alpha_beta_player get_actions fuel) o gfuel N g
        = Done ([("x", rx); ("o", 0); ("d", rd)], g') /\
      0 <= rx /\ 0 <= rd /\ rx + rd = Z.max 0 N).
Proof.
  intros Hfuel Hgfuel Ho.
  assert (H : forall get_actions, enumerates_legal get_actions ->
            exists rx rd g',
              play (alpha_beta_player get_actions fuel) o gfuel N g
                = Done ([("x", rx); ("o", 0); ("d", rd)], g') /\
              0 <= rx /\ 0 <= rd /\ rx + rd = Z.max 0 N).
  { intros ga Hga.
    destruct (play_counts (alpha_beta_player ga fuel) o gfuel
                (fun w => w = "x" \/ w = "d")
                (fun g0 => first_game_not_lost _ o gfuel "x" g0
                   (or_introl eq_refl)
                   (alpha_beta_player_optimal ga fuel "x" Hga Hfuel
                      (or_introl eq_refl))
                   Ho Hgfuel) N g)
      as (rx & ro & rd & g' & E & H1 & H2 & H3 & H4 & _ & Hno & _).
    assert (ro = 0) as -> by (apply Hno; intros [D | D]; discriminate).
    exists rx, rd, g'. split; [exact E |]. lia. }
  split; apply H;
    [apply natural_enumerates_legal | apply priority_enumerates_legal].
Qed.

Lemma alpha_beta_player_never_loses_as_x_witness :
  (10 <= 10)%nat /\ (9 <= 9)%nat /\
  sound_agent (random_player Natural.get_actions sample_rng) /\
  both_orderings (fun get_actions =>
    exists rx rd g',
      play (alpha_beta_player get_actions 10)
           (random_player Natural.get_actions sample_rng) 9 2
           {| COUNT := 0; drawn := 0 |}
        = Done ([("x", rx); ("o", 0); ("d", rd)], g') /\
      0 <= rx /\ 0 <= rd /\ rx + rd = Z.max 0 2).
Proof.
  assert (H1 : (10 <= 10)%nat) by lia.
  assert (H2 : (9 <= 9)%nat) by lia.
  assert (H3 : sound_agent (random_player Natural.get_actions sample_rng))
    by (apply random_player_sound, natural_enumerates_legal).
  split; [exact H1 |]. split; [exact H2 |]. split; [exact H3 |].
  exact (alpha_beta_player_never_loses_as_x _ 10 9 2
           {| COUNT := 0; drawn := 0 |} H1 H2 H3).
Defined.

(** X21. The alpha-beta player never loses as the second player: in
    [play(x, alpha_beta_player, N)], against any agent [x] that answers
    legal actions and under either ordering of the actions, the count of
    wins of x stays 0. *)
Theorem alpha_beta_player_never_loses_as_o x fuel gfuel N g :
  (10 <= fuel)%nat -> (9 <= gfuel)%nat -> sound_agent x ->
  both_orderings (fun get_actions =>
    exists ro rd g',
      play x (alpha_beta_player get_actions fuel) gfuel N g
        = Done ([("x", 0); ("o", ro); ("d", rd)], g') /\
      0 <= ro /\ 0 <= rd /\ ro + rd = Z.max 0 N).
Proof.
  intros Hfuel Hgfuel Hx.
  assert (H : forall get_actions, enumerates_legal get_actions ->
            exists ro rd g',
              play x (alpha_beta_player get_actions fuel) gfuel N g
                = Done ([("x", 0); ("o", ro); ("d", rd)], g') /\
              0 <= ro /\ 0 <= rd /\ ro + rd = Z.max 0 N).
  { intros ga Hga.
    destruct (play_counts x (alpha_beta_player ga fuel) gfuel
                (fun w => w = "o" \/ w = "d")
                (fun g0 => first_game_not_lost x _ gfuel "o" g0
                   (or_intror eq_refl)
                   (alpha_beta_player_optimal ga fuel "o" Hga Hfuel
                      (or_intror eq_refl))
                   Hx Hgfuel) N g)
      as (rx & ro & rd & g' & E & H1 & H2 & H3 & H4 & Hno & _ & _).
    assert (rx = 0) as -> by (apply Hno; intros [D | D]; discriminate).
    exists ro, rd, g'. split; [exact E |]. lia. }
  split; apply H;
    [apply natural_enumerates_legal | apply priority_enumerates_legal].
Qed.

Lemma alpha_beta_player_never_loses_as_o_witness :
  (10 <= 10)%nat /\ (9 <= 9)%nat /\
  sound_agent (random_player Natural.get_actions sample_rng) /\
  both_orderings (fun get_actions =>
    exists ro rd g',
      play (random_player Natural.get_actions sample_rng)
           (alpha_beta_player get_actions 10) 9 2
           {| COUNT := 0; drawn := 0 |}
        = Done ([("x", 0); ("o", ro); ("d", rd)], g') /\
      0 <= ro /\ 0 <= rd /\ ro + rd = Z.max 0 2).
Proof.
  assert (H1 : (10 <= 10)%nat) by lia.
  assert (H2 : (9 <= 9)%nat) by lia.
  assert (H3 : sound_agent (random_player Natural.get_actions sample_rng))
    by (apply random_player_sound, natural_enumerates_legal).
  split; [exact H1 |]. split; [exact H2 |]. split; [exact H3 |].
  exact (alpha_beta_player_never_loses_as_o _ 10 9 2
           {| COUNT := 0; drawn := 0 |} H1 H2 H3).
Defined.

(** X22. Two alpha-beta players, each under either ordering of the actions,
    draw every game of [play]. *)
Theorem alpha_beta_players_always_draw fuel gfuel N g :
  (10 <= fuel)%nat -> (9 <= gfuel)%nat ->
  both_orderings (fun first => both_orderings (fun second =>
    exists g',
      play (alpha_beta_player first fuel) (alpha_beta_player second fuel)
           gfuel N g
        = Done ([("x", 0); ("o", 0); ("d", Z.max 0 N)], g'))).
Proof.
  intros Hfuel Hgfuel.
  assert (H : forall ga1 ga2,
            enumerates_legal ga1 -> enumerates_legal ga2 ->
            exists g',
              play (alpha_beta_player ga1 fuel) (alpha_beta_player ga2 fuel)
                   gfuel N g
                = Done ([("x", 0); ("o", 0); ("d", Z.max 0 N)], g')).
  { intros ga1 ga2 H1 H2.
    set (x := alpha_beta_player ga1 fuel).
    set (o := alpha_beta_player ga2 fuel).
    assert (Hends : forall g0, exists win g',
              game_loop x o gfuel empty_board "x" x g0 = Done (win, g') /\
              (win = "x" \/ win = "o" \/ win = "d") /\ win = "d").
    { intros g0.
      destruct (first_game_not_lost x o gfuel "x" g0 (or_introl eq_refl)
                  (alpha_beta_player_optimal ga1 fuel "x" H1 Hfuel
                     (or_introl eq_refl))
                  (alpha_beta_player_sound ga2 fuel H2 Hfuel) Hgfuel)
        as (w1 & g1 & E1 & Hw1 & Hx).
      destruct (first_game_not_lost x o gfuel "o" g0 (or_intror eq_refl)
                  (alpha_beta_player_optimal ga2 fuel "o" H2 Hfuel
                     (or_intror eq_refl))
                  (alpha_beta_player_sound ga1 fuel H1 Hfuel) Hgfuel)
        as (w2 & g2 & E2 & _ & Ho).
      rewrite E1 in E2. injection E2 as <- <-.
      exists w1, g1. split; [exact E1 |]. split; [exact Hw1 |].
      destruct Hx as [-> | ->]; [| reflexivity].
      destruct Ho as [D | D]; discriminate. }
    destruct (play_counts x o gfuel (fun w => w = "d") Hends N g)
      as (rx & ro & rd & g' & E & _ & _ & _ & Hsum & Nx & No & _).
    assert (rx = 0) as -> by (apply Nx; discriminate).
    assert (ro = 0) as -> by (apply No; discriminate).
    exists g'. rewrite E. repeat f_equal. lia. }
  split; split; apply H;
    first [apply natural_enumerates_legal | apply priority_enumerates_legal].
Qed.

Lemma alpha_beta_players_always_draw_witness :
  (10 <= 10)%nat /\ (9 <= 9)%nat /\
  both_orderings (fun first => both_orderings (fun second =>
    exists g',
      play (alpha_beta_player first 10) (alpha_beta_player second 10) 9 2
           {| COUNT := 0; drawn := 0 |}
        = Done ([("x", 0); ("o", 0); ("d", Z.max 0 2)], g'))).
Proof.
  assert (H1 : (10 <= 10)%nat) by lia.
  assert (H2 : (9 <= 9)%nat) by lia.
  split; [exact H1 |]. split; [exact H2 |].
  exact (alpha_beta_players_always_draw 10 9 2 {| COUNT := 0; drawn := 0 |}
           H1 H2).
Defined.
